(** * PixelPipe: the image-processing service (services/main.py)

    A shallow embedding of the Cloud Run service that downloads an image,
    extracts its metadata, stores the original, a thumbnail and a set of
    resized variants, and acknowledges the Pub/Sub message that carried
    the job.

    - Python [int] is [Z]; Python [float] is the binary64 type [float] of
      the kernel, so that [/], [*] and [int(...)] round as CPython does.
    - Python exceptions are values of [exn]; a computation that may raise
      has type [res A]; one that also touches the bucket, the status
      store or the clock has type [M A] (state passing over [Sys]).
    - aiohttp, PIL, hashlib, Cloud Storage and Firestore are collaborators:
      their behaviour is a field of [World], quantified over in theorems. *)

From Stdlib Require Import ZArith Lia Floats Uint63 Ascii String Reals Lra.
From stdpp Require Import base option strings list gmap pretty.

Local Open Scope Z_scope.

Definition bytes := list Byte.byte.

(** ** Exceptions and results *)

(** [asyncio.TimeoutError] has its own [except] clause in [download_image];
    every other exception is only ever handled as [Exception], through
    [str(e)], which is what [Exception] carries. *)
Inductive exn :=
| TimeoutError
| Exception (msg : string).

Definition str_exn (e : exn) : string :=
  match e with
  | TimeoutError => ""
  | Exception msg => msg
  end.

(** [str(KeyError(k))] is the repr of the key. *)
Definition KeyError (k : string) : exn := Exception ("'" +:+ k +:+ "'").
Definition ValueError (msg : string) : exn := Exception msg.
Definition ZeroDivisionError (msg : string) : exn := Exception msg.
Definition OverflowError (msg : string) : exn := Exception msg.

Definition res (A : Type) : Type := exn + A.

#[global] Instance res_ret : MRet res := λ A a, inr a.
#[global] Instance res_bind : MBind res := λ A B f m,
  match m with
  | inl e => inl e
  | inr a => f a
  end.

Definition raise {A} (e : exn) : res A := inl e.

(** ** Python builtins used by the service *)

Module Py.

Definition is_upper (c : ascii) : bool :=
  let n := Ascii.N_of_ascii c in ((65 <=? n) && (n <=? 90))%N.

Definition lower_ascii (c : ascii) : ascii :=
  if is_upper c then Ascii.ascii_of_N (Ascii.N_of_ascii c + 32) else c.

(** [s.lower()], on ASCII text. *)
Fixpoint lower (s : string) : string :=
  match s with
  | EmptyString => EmptyString
  | String c s' => String (lower_ascii c) (lower s')
  end.

(** [s.startswith(p)] *)
Definition startswith (s p : string) : bool := String.prefix p s.

(** [s.split(sep)] for a one-character separator: never empty. *)
Fixpoint split (sep : ascii) (s : string) : list string :=
  match s with
  | EmptyString => [EmptyString]
  | String c s' =>
      if Ascii.eqb c sep then EmptyString :: split sep s'
      else match split sep s' with
           | h :: t => String c h :: t
           | [] => [String c EmptyString]
           end
  end.

(** White space as [int()] and [str.strip()] see it, within ASCII. *)
Definition is_space (c : ascii) : bool :=
  let n := Ascii.N_of_ascii c in
  (((9 <=? n) && (n <=? 13)) || ((28 <=? n) && (n <=? 32)))%N.

Fixpoint lstrip (s : string) : string :=
  match s with
  | EmptyString => EmptyString
  | String c s' => if is_space c then lstrip s' else s
  end.

Fixpoint rstrip (s : string) : string :=
  match s with
  | EmptyString => EmptyString
  | String c s' =>
      let r := rstrip s' in
      if is_space c && String.eqb r EmptyString then EmptyString
      else String c r
  end.

Definition strip (s : string) : string := rstrip (lstrip s).

Definition digit_val (c : ascii) : option Z :=
  let n := Ascii.N_of_ascii c in
  if ((48 <=? n) && (n <=? 57))%N then Some (Z.of_N n - 48) else None.

(** Decimal digits, single underscores allowed between digits. *)
Fixpoint digits (acc : Z) (after_digit : bool) (s : string) : option Z :=
  match s with
  | EmptyString => if after_digit then Some acc else None
  | String c s' =>
      match digit_val c with
      | Some d => digits (10 * acc + d) true s'
      | None =>
          if Ascii.eqb c "_" && after_digit then digits acc false s'
          else None
      end
  end.

(** [int(s)] for a string [s] of ASCII characters. *)
Definition int_of_str (s : string) : res Z :=
  let t := strip s in
  let v := match t with
           | String "+" r => digits 0 false r
           | String "-" r => Z.opp <$> digits 0 false r
           | _ => digits 0 false t
           end in
  match v with
  | Some z => inr z
  | None =>
      raise (ValueError ("invalid literal for int() with base 10: '" +:+ s +:+ "'"))
  end.

(** [str(n)] for an integer. *)
Definition str_int (z : Z) : string := pretty z.

(** [float(n)]: exact when |n| <= 2^53, which covers every image side
    (PIL sides are C ints) and every byte count. *)
Definition float_of_int (z : Z) : float :=
  if z <? 0 then PrimFloat.opp (PrimFloat.of_uint63 (Uint63.of_Z (- z)))
  else PrimFloat.of_uint63 (Uint63.of_Z z).

(** [a / b] on two ints: true division, correctly rounded. *)
Definition truediv_int (a b : Z) : res float :=
  if b =? 0 then raise (ZeroDivisionError "division by zero")
  else inr (PrimFloat.div (float_of_int a) (float_of_int b)).

(** [x / y] on floats. *)
Definition truediv (x y : float) : res float :=
  if PrimFloat.eqb y PrimFloat.zero
  then raise (ZeroDivisionError "float division by zero")
  else inr (PrimFloat.div x y).

(** [int(x)] on a float: truncation toward zero. *)
Definition int_of_float (x : float) : res Z :=
  match Prim2SF x with
  | S754_zero _ => inr 0
  | S754_finite s m e =>
      let a := match e with
               | Z0 => Zpos m
               | Zpos p => Z.shiftl (Zpos m) (Zpos p)
               | Zneg p => Z.shiftr (Zpos m) (Zpos p)
               end in
      inr (if s then - a else a)
  | S754_infinity _ => raise (OverflowError "cannot convert float infinity to integer")
  | S754_nan => raise (ValueError "cannot convert float NaN to integer")
  end.

End Py.


(** ** Data model *)

(** [processing_options] of a job message; a key of the JSON object is
    present ([Some]) or absent ([None]).  [extract_metadata] is sent by the
    ingestion function and never read by this service. *)
Record ProcessingOptions := {
  po_create_thumbnail : option bool;
  po_resize_formats : option (list string);
  po_output_formats : option (list string);
}.

(** A job message read as a dict.  [other_keys] names the remaining keys
    (priority, category, retry_count, batch_id, ...), which the service
    carries along and never reads. *)
Record Job := {
  job_id : option string;
  image_id : option string;
  url : option string;
  processing_options : option ProcessingOptions;
  other_keys : list string;
}.

(** [job[k]] *)
Definition getitem (k : string) (v : option string) : res string :=
  match v with
  | Some x => inr x
  | None => raise (KeyError k)
  end.

(** [not job_data] on a dict: true when it has no key at all. *)
Definition job_is_empty (j : Job) : bool :=
  match job_id j, image_id j, url j, processing_options j, other_keys j with
  | None, None, None, None, [] => true
  | _, _, _, _, _ => false
  end.

(** What [json.loads] / [request.get_json()] hand back: [None], a dict,
    or a value of another type (list, str, int, float, bool).  For the
    latter, [type_name] is the Python type, [truthy] its truth value and
    [type_error] the [str] of the [TypeError] raised when it is used as a
    dict with a string key. *)
Inductive Payload :=
| PNull
| PNonObject (type_name : string) (truthy : bool) (type_error : string)
| PObject (j : Job).

(** A decoded PIL image. *)
Record Img := {
  img_format : option string;
  img_mode : string;
  img_width : Z;
  img_height : Z;
  img_info_transparency : bool;
  img_raster : bytes;
}.

(** The aiohttp response, as far as [download_image] looks at it. *)
Record Response := {
  resp_status : Z;
  resp_reason : string;
  resp_content_type : option string;
  resp_content_length : option string;
  resp_read : res bytes;
}.

Record DownloadMeta := {
  dm_original_url : string;
  dm_content_type : string;
  dm_content_length : Z;
  dm_download_timestamp : Z;
  dm_http_status : Z;
  dm_content_hash : string;
}.

Inductive ImageMeta :=
| ImageInfo (format : option string) (mode : string) (size : Z * Z)
    (width height : Z) (has_transparency : bool)
    (exif : list (string * string)) (dominant_color : option (Z * Z * Z))
| ImageMetaError (error : string).

Record Outputs := {
  out_original : option string;
  out_thumbnail : option string;
  out_resized : option (gmap string string);
}.

Record Metadata := {
  md_download : option DownloadMeta;
  md_image : option ImageMeta;
}.

(** The [result] dict of [process_image_job].  Timestamps are clock
    readings in microseconds; [processing_time] is their difference. *)
Record Result := {
  r_job_id : string;
  r_image_id : string;
  r_original_url : string;
  r_status : string;
  r_started_at : Z;
  r_outputs : Outputs;
  r_metadata : Metadata;
  r_errors : list string;
  r_completed_at : option Z;
  r_processing_time : option Z;
  r_failed_at : option Z;
}.

Definition set_outputs (f : Outputs → Outputs) (r : Result) : Result :=
  {| r_job_id := r_job_id r; r_image_id := r_image_id r;
     r_original_url := r_original_url r; r_status := r_status r;
     r_started_at := r_started_at r; r_outputs := f (r_outputs r);
     r_metadata := r_metadata r; r_errors := r_errors r;
     r_completed_at := r_completed_at r;
     r_processing_time := r_processing_time r; r_failed_at := r_failed_at r |}.

Definition set_metadata (f : Metadata → Metadata) (r : Result) : Result :=
  {| r_job_id := r_job_id r; r_image_id := r_image_id r;
     r_original_url := r_original_url r; r_status := r_status r;
     r_started_at := r_started_at r; r_outputs := r_outputs r;
     r_metadata := f (r_metadata r); r_errors := r_errors r;
     r_completed_at := r_completed_at r;
     r_processing_time := r_processing_time r; r_failed_at := r_failed_at r |}.

(** [result['status'] = 'completed'] with its two time fields. *)
Definition set_completed (now : Z) (r : Result) : Result :=
  {| r_job_id := r_job_id r; r_image_id := r_image_id r;
     r_original_url := r_original_url r; r_status := "completed";
     r_started_at := r_started_at r; r_outputs := r_outputs r;
     r_metadata := r_metadata r; r_errors := r_errors r;
     r_completed_at := Some now;
     r_processing_time := Some (now - r_started_at r);
     r_failed_at := r_failed_at r |}.

(** The [except] branch of [process_image_job]. *)
Definition set_failed (e : exn) (now : Z) (r : Result) : Result :=
  {| r_job_id := r_job_id r; r_image_id := r_image_id r;
     r_original_url := r_original_url r; r_status := "failed";
     r_started_at := r_started_at r; r_outputs := r_outputs r;
     r_metadata := r_metadata r; r_errors := r_errors r ++ [str_exn e];
     r_completed_at := r_completed_at r;
     r_processing_time := r_processing_time r; r_failed_at := Some now |}.

Definition put_original (u : string) (o : Outputs) : Outputs :=
  {| out_original := Some u; out_thumbnail := out_thumbnail o;
     out_resized := out_resized o |}.

Definition put_thumbnail (u : string) (o : Outputs) : Outputs :=
  {| out_original := out_original o; out_thumbnail := Some u;
     out_resized := out_resized o |}.

(** [result['outputs']['resized'] = {}] *)
Definition reset_resized (o : Outputs) : Outputs :=
  {| out_original := out_original o; out_thumbnail := out_thumbnail o;
     out_resized := Some ∅ |}.

(** [result['outputs']['resized'][k] = u]; the inner dict exists whenever
    the loop runs. *)
Definition put_resized (k u : string) (o : Outputs) : Outputs :=
  {| out_original := out_original o; out_thumbnail := out_thumbnail o;
     out_resized := Some (<[k := u]> (default ∅ (out_resized o))) |}.

Definition put_download (d : DownloadMeta) (m : Metadata) : Metadata :=
  {| md_download := Some d; md_image := md_image m |}.

Definition put_image (i : ImageMeta) (m : Metadata) : Metadata :=
  {| md_download := md_download m; md_image := Some i |}.

(** ** The bucket, the status store and the clock *)

Record Blob := {
  blob_data : bytes;
  blob_content_type : string;
  blob_metadata : list (string * string);
  blob_public : bool;
}.

(** A document of the [pixelpipe_jobs] collection. *)
Record JobDoc := {
  doc_status : string;
  doc_processing_result : option Result;
}.

Record Sys := {
  bucket : gmap string Blob;
  jobs : gmap string JobDoc;
  clock : nat;
  uuids : nat;
}.

Definition set_bucket (f : gmap string Blob → gmap string Blob) (s : Sys) : Sys :=
  {| bucket := f (bucket s); jobs := jobs s; clock := clock s; uuids := uuids s |}.

Definition set_jobs (f : gmap string JobDoc → gmap string JobDoc) (s : Sys) : Sys :=
  {| bucket := bucket s; jobs := f (jobs s); clock := clock s; uuids := uuids s |}.

(** ** Collaborators *)

Record World := {
  (* aiohttp: [session.get(url)] under the 30 s total timeout *)
  session_get : string → res Response;
  (* hashlib.sha256(data).hexdigest() *)
  sha256_hexdigest : bytes → string;
  (* PIL *)
  Image_open : bytes → res Img;
  exif_transpose : Img → res Img;
  getexif : Img → res (list (string * string));
  getcolors_50x50 : Img → res (option (Z * Z * Z));
  paste_on_white : Img → res bytes;
  Image_resize : Img → Z → Z → res Img;
  Image_thumbnail : Img → Z → Z → res Img;
  Image_save : Img → string → option Z → res bytes;
  (* Cloud Storage: [None] when the call goes through *)
  upload_from_string : string → bytes → string → option exn;
  make_public : string → option exn;
  (* Firestore *)
  firestore_update : string → option exn;
  (* json.loads(data.decode('utf-8')) *)
  json_loads : bytes → res Payload;
  (* datetime.utcnow(), n-th reading; uuid.uuid4(), n-th draw *)
  utcnow_at : nat → Z;
  uuid4_at : nat → string;
}.

(** ** State passing with exceptions *)

Definition ST (S A : Type) : Type := S → res A * S.

#[global] Instance ST_ret {S} : MRet (ST S) := λ A a s, (inr a, s).
#[global] Instance ST_bind {S} : MBind (ST S) := λ A B f m s,
  match m s with
  | (inl e, s') => (inl e, s')
  | (inr a, s') => f a s'
  end.

Abbreviation M := (ST Sys).

Definition lift {S A} (r : res A) : ST S A := λ s, (r, s).
Definition modify {S} (f : S → S) : ST S unit := λ s, (inr (), f s).

(** [try: m except Exception: pass], keeping what [m] did before raising. *)
Definition swallow {S} (m : ST S unit) : ST S unit := λ s,
  (inr (), snd (m s)).

(** [for x in xs: body(x)] *)
Fixpoint for_each {S A} (body : A → ST S unit) (xs : list A) : ST S unit :=
  match xs with
  | [] => mret ()
  | x :: xs' => _ ← body x; for_each body xs'
  end.

(** One more reading of the clock. *)
Definition tick (s : Sys) : Sys :=
  {| bucket := bucket s; jobs := jobs s; clock := S (clock s); uuids := uuids s |}.

Definition utcnow (w : World) : M Z := λ s,
  (inr (utcnow_at w (clock s)), tick s).

Definition uuid4 (w : World) : M string := λ s,
  (inr (uuid4_at w (uuids s)),
   {| bucket := bucket s; jobs := jobs s; clock := clock s; uuids := S (uuids s) |}).

(** ** ImageProcessor *)

Record ImageProcessor := {
  bucket_name : string;
  max_image_size : Z;
  timeout : Z;
}.

(** [ImageProcessor.__init__] *)
Definition ImageProcessor_init (name : string) : ImageProcessor :=
  {| bucket_name := name;
     max_image_size := 50 * 1024 * 1024;
     timeout := 30 |}.

(** The two [except] clauses of [download_image]. *)
Definition download_except (url : string) (e : exn) : exn :=
  match e with
  | TimeoutError => Exception ("Download timeout for URL: " +:+ url)
  | Exception msg => Exception ("Download failed: " +:+ msg)
  end.

(** The body of the [try] of [download_image], up to the metadata dict. *)
Definition download_body (w : World) (p : ImageProcessor) (url : string)
  : res (bytes * string * Z) :=
  response ← session_get w url;
  if negb (resp_status response =? 200) then
    raise (Exception ("HTTP " +:+ Py.str_int (resp_status response) +:+ ": "
                      +:+ resp_reason response))
  else
    let content_type := Py.lower (default "" (resp_content_type response)) in
    if negb (Py.startswith content_type "image/") then
      raise (Exception ("Invalid content type: " +:+ content_type))
    else
      content_length ←
        match resp_content_length response with
        | None => inr 0
        | Some h => Py.int_of_str h
        end;
      if content_length >? max_image_size p then
        raise (Exception ("Image too large: " +:+ Py.str_int content_length
                          +:+ " bytes"))
      else
        image_data ← resp_read response;
        mret (image_data, content_type, resp_status response).

Definition download_image (w : World) (p : ImageProcessor) (url : string)
  : M (bytes * DownloadMeta) :=
  match download_body w p url with
  | inl e => lift (raise (download_except url e))
  | inr (image_data, content_type, http_status) =>
      now ← utcnow w;
      mret (image_data,
            {| dm_original_url := url;
               dm_content_type := content_type;
               dm_content_length := Z.of_nat (length image_data);
               dm_download_timestamp := now;
               dm_http_status := http_status;
               dm_content_hash := sha256_hexdigest w image_data |})
  end.

Definition mode_in (img : Img) (modes : list string) : bool :=
  bool_decide (img_mode img ∈ modes).

Definition extract_image_metadata (w : World) (image_data : bytes) : ImageMeta :=
  let attempt : res ImageMeta :=
    img ← Image_open w image_data;
    exif_data ← getexif w img;
    dominant ←
      (if String.eqb (img_mode img) "RGB" then getcolors_50x50 w img
       else inr None);
    mret (ImageInfo (img_format img) (img_mode img)
            (img_width img, img_height img) (img_width img) (img_height img)
            (mode_in img ["RGBA"; "LA"] || img_info_transparency img)
            exif_data dominant) in
  match attempt with
  | inr metadata => metadata
  | inl e => ImageMetaError (str_exn e)
  end.

(** "Convert to RGB": a white RGB canvas of the same size with the image
    pasted on it; other modes are left alone. *)
Definition flatten_alpha (w : World) (img : Img) : res Img :=
  if mode_in img ["RGBA"; "LA"; "P"] then
    raster ← paste_on_white w img;
    mret {| img_format := None; img_mode := "RGB";
            img_width := img_width img; img_height := img_height img;
            img_info_transparency := false; img_raster := raster |}
  else inr img.

(** [width, height = map(int, size_str.split('x'))] *)
Definition parse_size (size_str : string) : res (Z * Z) :=
  match Py.split "x" size_str with
  | [a; b] =>
      width ← Py.int_of_str a;
      height ← Py.int_of_str b;
      mret (width, height)
  | a :: b :: _ :: _ =>
      _ ← Py.int_of_str a;
      _ ← Py.int_of_str b;
      raise (ValueError "too many values to unpack (expected 2)")
  | [a] =>
      _ ← Py.int_of_str a;
      raise (ValueError "not enough values to unpack (expected 2, got 1)")
  | [] => raise (ValueError "not enough values to unpack (expected 2, got 0)")
  end.

(** "Calculate aspect-preserving size": [(new_width, new_height)] for an
    image of [img_w] x [img_h] and the requested [width] x [height]. *)
Definition aspect_fit (img_w img_h width height : Z) : res (Z * Z) :=
  img_ratio ← Py.truediv_int img_w img_h;
  target_ratio ← Py.truediv_int width height;
  if PrimFloat.ltb target_ratio img_ratio then
    q ← Py.truediv (Py.float_of_int width) img_ratio;
    new_height ← Py.int_of_float q;
    mret (width, new_height)
  else
    new_width ← Py.int_of_float (PrimFloat.mul (Py.float_of_int height) img_ratio);
    mret (new_width, height).

(** [results[key] = value] on an insertion-ordered dict. *)
Fixpoint dict_set {V} (k : string) (v : V) (d : list (string * V))
  : list (string * V) :=
  match d with
  | [] => [(k, v)]
  | (k', v') :: d' =>
      if String.eqb k' k then (k, v) :: d' else (k', v') :: dict_set k v d'
  end.

(** One turn of [for fmt in output_formats]: encode, then
    [results[f"{size_str}_{fmt.lower()}"] = ...]; an unsupported format
    is skipped by [continue]. *)
Definition save_variant (w : World) (resized_img : Img) (size_str fmt : string)
  : ST (list (string * bytes)) unit :=
  let f := Py.lower fmt in
  let key := size_str +:+ "_" +:+ f in
  if String.eqb f "jpeg" then
    data ← lift (Image_save w resized_img "JPEG" (Some 85));
    modify (dict_set key data)
  else if String.eqb f "webp" then
    data ← lift (Image_save w resized_img "WEBP" (Some 85));
    modify (dict_set key data)
  else if String.eqb f "png" then
    data ← lift (Image_save w resized_img "PNG" None);
    modify (dict_set key data)
  else mret ().

(** The body of the inner [try] of [resize_image]. *)
Definition resize_to (w : World) (img : Img) (output_formats : list string)
    (size_str : string) : ST (list (string * bytes)) unit :=
  '(width, height) ← lift (parse_size size_str);
  '(new_width, new_height) ←
     lift (aspect_fit (img_width img) (img_height img) width height);
  resized_img ← lift (Image_resize w img new_width new_height);
  for_each (save_variant w resized_img size_str) output_formats.

Definition resize_image (w : World) (image_data : bytes)
    (target_sizes output_formats : list string) : list (string * bytes) :=
  let opened : res Img :=
    img ← Image_open w image_data;
    img ← exif_transpose w img;
    flatten_alpha w img in
  match opened with
  | inl _ => []
  | inr img =>
      snd (for_each (λ size_str, swallow (resize_to w img output_formats size_str))
             target_sizes [])
  end.

Definition create_thumbnail (w : World) (image_data : bytes) : res bytes :=
  img ← Image_open w image_data;
  img ← exif_transpose w img;
  img ← Image_thumbnail w img 150 150;
  img ← flatten_alpha w img;
  Image_save w img "JPEG" (Some 80).

Definition upload_to_storage (w : World) (p : ImageProcessor)
    (file_data : bytes) (file_path content_type : string)
    (metadata : list (string * string)) : M string := λ s,
  match upload_from_string w file_path file_data content_type with
  | Some e => (inl e, s)
  | None =>
      let stored public :=
        set_bucket (insert file_path
                      {| blob_data := file_data;
                         blob_content_type := content_type;
                         blob_metadata := metadata;
                         blob_public := public |}) s in
      match make_public w file_path with
      | Some e => (inl e, stored false)
      | None => (inr ("gs://" +:+ bucket_name p +:+ "/" +:+ file_path),
                 stored true)
      end
  end.

(** The exception, if any, that [upload_to_storage] raises for this blob. *)
Definition upload_raises (w : World) (file_data : bytes)
    (file_path content_type : string) : option exn :=
  match upload_from_string w file_path file_data content_type with
  | Some e => Some e
  | None => make_public w file_path
  end.

(** Storage paths, as the f-strings of [process_image_job] build them. *)
Definition original_path (image_id : string) : string :=
  "original/" +:+ image_id +:+ "/" +:+ image_id +:+ "_original.jpg".

Definition thumbnail_path (image_id : string) : string :=
  "thumbnails/" +:+ image_id +:+ "/" +:+ image_id +:+ "_thumb.jpg".

Definition resized_path (image_id size_format : string) : string :=
  "resized/" +:+ image_id +:+ "/" +:+ image_id +:+ "_" +:+ size_format.

(** [job.get('processing_options', {})] and the three [.get] on it. *)
Definition get_processing_options (job : Job) : ProcessingOptions :=
  default {| po_create_thumbnail := None; po_resize_formats := None;
             po_output_formats := None |} (processing_options job).

Definition get_create_thumbnail (job : Job) : bool :=
  default true (po_create_thumbnail (get_processing_options job)).

Definition get_resize_formats (job : Job) : list string :=
  default ["400x300"] (po_resize_formats (get_processing_options job)).

Definition get_output_formats (job : Job) : list string :=
  default ["jpeg"] (po_output_formats (get_processing_options job)).

(** The [try] block of [process_image_job] runs over the system and the
    [result] dict it fills in; what it wrote before an exception stays. *)
Abbreviation J := (ST (Sys * Result)).

Definition on_sys {A} (m : M A) : J A := λ sr,
  let '(a, s') := m (fst sr) in (a, (s', snd sr)).

Definition update_result (f : Result → Result) : J unit :=
  modify (λ sr, (fst sr, f (snd sr))).

(** Step 4 of [process_image_job]. *)
Definition thumbnail_stage (w : World) (p : ImageProcessor)
    (job_id image_id : string) (image_data : bytes) : J unit :=
  thumbnail_data ← lift (create_thumbnail w image_data);
  thumbnail_url ←
    on_sys (upload_to_storage w p thumbnail_data (thumbnail_path image_id)
              "image/jpeg" [("job_id", job_id); ("type", "thumbnail")]);
  update_result (set_outputs (put_thumbnail thumbnail_url)).

(** The exception, if any, that step 4 raises: from [create_thumbnail]
    or from the upload of the thumbnail. *)
Definition thumbnail_raises (w : World) (image_id : string)
    (image_data : bytes) : option exn :=
  match create_thumbnail w image_data with
  | inl e => Some e
  | inr thumbnail_data =>
      upload_raises w thumbnail_data (thumbnail_path image_id) "image/jpeg"
  end.

(** One turn of [for size_format, resized_data in resized_images.items()]. *)
Definition upload_variant (w : World) (p : ImageProcessor)
    (job_id image_id : string) (item : string * bytes) : J unit :=
  let size_format := fst item in
  resized_url ←
    on_sys (upload_to_storage w p (snd item) (resized_path image_id size_format)
              "image/jpeg"
              [("job_id", job_id); ("type", "resized"); ("variant", size_format)]);
  update_result (set_outputs (put_resized size_format resized_url)).

(** Step 5 of [process_image_job], under [if resize_formats:]. *)
Definition resize_stage (w : World) (p : ImageProcessor)
    (job_id image_id : string) (image_data : bytes)
    (resize_formats output_formats : list string) : J unit :=
  let resized_images := resize_image w image_data resize_formats output_formats in
  _ ← update_result (set_outputs reset_resized);
  for_each (upload_variant w p job_id image_id) resized_images.

(** Steps 4 and 5 and the "Success!" lines of [process_image_job]. *)
Definition derived_stages (w : World) (p : ImageProcessor) (job : Job)
    (job_id image_id : string) (image_data : bytes) : J unit :=
  (* Step 4: create thumbnail *)
  _ ← (if get_create_thumbnail job
       then thumbnail_stage w p job_id image_id image_data
       else mret ());
  (* Step 5: create resized versions *)
  _ ← (match get_resize_formats job with
       | [] => mret ()
       | resize_formats =>
           resize_stage w p job_id image_id image_data resize_formats
             (get_output_formats job)
       end);
  now ← on_sys (utcnow w);
  update_result (set_completed now).

(** The body of the [try] of [process_image_job]. *)
Definition job_stages (w : World) (p : ImageProcessor) (job : Job)
    (job_id image_id url : string) : J unit :=
  (* Step 1: download original image *)
  downloaded ← on_sys (download_image w p url);
  let image_data := fst downloaded in
  let download_metadata := snd downloaded in
  _ ← update_result (set_metadata (put_download download_metadata));
  (* Step 2: extract image metadata *)
  _ ← update_result (set_metadata (put_image (extract_image_metadata w image_data)));
  (* Step 3: save original image *)
  original_url ←
    on_sys (upload_to_storage w p image_data (original_path image_id)
              (dm_content_type download_metadata)
              [("job_id", job_id); ("type", "original")]);
  _ ← update_result (set_outputs (put_original original_url));
  derived_stages w p job job_id image_id image_data.

(** The [try ... except Exception as e] of [process_image_job] around
    the stages. *)
Definition try_stages (w : World) (p : ImageProcessor) (job : Job)
    (job_id image_id url : string) (result : Result) : M Result := λ s,
  match job_stages w p job job_id image_id url (s, result) with
  | (inr _, (s', result')) => (inr result', s')
  | (inl e, (s', result')) =>
      let failed : M Result :=
        now ← utcnow w; mret (set_failed e now result') in
      failed s'
  end.

(** The [result] dict as [process_image_job] creates it. *)
Definition initial_result (job_id image_id url : string) (started : Z) : Result :=
  {| r_job_id := job_id; r_image_id := image_id; r_original_url := url;
     r_status := "processing"; r_started_at := started;
     r_outputs := {| out_original := None; out_thumbnail := None;
                     out_resized := None |};
     r_metadata := {| md_download := None; md_image := None |};
     r_errors := [];
     r_completed_at := None; r_processing_time := None;
     r_failed_at := None |}.

Definition process_image_job (w : World) (p : ImageProcessor) (job : Job)
  : M Result :=
  job_id ← lift (getitem "job_id" (job_id job));
  image_id ← lift (getitem "image_id" (image_id job));
  url ← lift (getitem "url" (url job));
  started ← utcnow w;
  try_stages w p job job_id image_id url
    (initial_result job_id image_id url started).

(** ** PubSubHandler *)

Record PubSubHandler := {
  processor : ImageProcessor;
}.

Definition PubSubHandler_init (BUCKET_NAME : string) : PubSubHandler :=
  {| processor := ImageProcessor_init BUCKET_NAME |}.

(** [doc_ref.update(...)] needs the document to exist; any failure is
    logged and dropped. *)
Definition update_job_status (w : World) (job_id : option string)
    (result : Result) : M unit := λ s,
  match job_id with
  | None => (inr (), s)
  | Some id =>
      match firestore_update w id, jobs s !! id with
      | None, Some _ =>
          (inr (),
           set_jobs (insert id {| doc_status := r_status result;
                                  doc_processing_result := Some result |}) s)
      | _, _ => (inr (), s)
      end
  end.

Record Message := {
  msg_data : bytes;
}.

(** What [process_message] ends up calling on the message. *)
Inductive Disposition := Ack | Nack.

(** [job_data.get('job_id')] needs a dict. *)
Definition as_dict (job_data : Payload) : res Job :=
  match job_data with
  | PObject j => inr j
  | PNull => raise (Exception "'NoneType' object has no attribute 'get'")
  | PNonObject type_name _ _ =>
      raise (Exception ("'" +:+ type_name +:+ "' object has no attribute 'get'"))
  end.

Definition process_message (w : World) (h : PubSubHandler) (message : Message)
  : Sys → Disposition * Sys := λ s,
  let attempt : M unit :=
    job_data ← lift (json_loads w (msg_data message));
    job ← lift (as_dict job_data);
    result ← process_image_job w (processor h) job;
    update_job_status w (job_id job) result in
  match attempt s with
  | (inr _, s') => (Ack, s')
  | (inl _, s') => (Nack, s')
  end.

(** ** POST /process *)

Record Request := {
  get_json : res Payload;
}.

Inductive ResponseBody :=
| ErrorBody (error : string)
| ResultBody (result : Result).

Definition with_job_id (v : string) (j : Job) : Job :=
  {| job_id := Some v; image_id := image_id j; url := url j;
     processing_options := processing_options j; other_keys := other_keys j |}.

Definition with_image_id (v : string) (j : Job) : Job :=
  {| job_id := job_id j; image_id := Some v; url := url j;
     processing_options := processing_options j; other_keys := other_keys j |}.

(** "Add required fields if missing" *)
Definition add_required_fields (w : World) (job_data : Job) : M Job :=
  job_data ←
    (match job_id job_data with
     | None => v ← uuid4 w; mret (with_job_id v job_data)
     | Some _ => mret job_data
     end);
  match image_id job_data with
  | None => v ← uuid4 w; mret (with_image_id v job_data)
  | Some _ => mret job_data
  end.

Definition process_single_image (w : World) (h : PubSubHandler)
    (request : Request) : Sys → (ResponseBody * Z) * Sys := λ s,
  let bad_request : M (ResponseBody * Z) :=
    mret (ErrorBody "Request body must be JSON", 400) in
  let attempt : M (ResponseBody * Z) :=
    job_data ← lift (get_json request);
    match job_data with
    | PNull => bad_request
    | PNonObject _ false _ => bad_request
    | PNonObject _ true type_error => lift (raise (Exception type_error))
    | PObject job_data =>
        if job_is_empty job_data then bad_request
        else
          job_data ← add_required_fields w job_data;
          result ← process_image_job w (processor h) job_data;
          mret (ResultBody result, 200)
    end in
  match attempt s with
  | (inr reply, s') => (reply, s')
  | (inl e, s') => ((ErrorBody (str_exn e), 500), s')
  end.

(** ** GET /stats *)

(** The value under 'status' in a streamed document: a string, another
    hashable value (number, bool, null, timestamp), or an array or a map,
    for which [status in stats] raises the [TypeError] whose [str] is
    [type_error]. *)
Inductive StatusValue :=
| StatusStr (s : string)
| StatusHashable
| StatusUnhashable (type_error : string).

(** [doc.to_dict()], as far as the loop looks at it: the 'status' key. *)
Record StatsDoc := {
  sd_status : option StatusValue;
}.

(** The [stats] dict: its five keys are fixed. *)
Record Stats := {
  st_total_jobs : Z;
  st_completed : Z;
  st_failed : Z;
  st_processing : Z;
  st_queued : Z;
}.

Definition stats_init : Stats :=
  {| st_total_jobs := 0; st_completed := 0; st_failed := 0;
     st_processing := 0; st_queued := 0 |}.

(** [if key in stats: stats[key] += 1], for a string [key]. *)
Definition stats_incr (key : string) (stats : Stats) : Stats :=
  if String.eqb key "total_jobs" then
    {| st_total_jobs := st_total_jobs stats + 1; st_completed := st_completed stats;
       st_failed := st_failed stats; st_processing := st_processing stats;
       st_queued := st_queued stats |}
  else if String.eqb key "completed" then
    {| st_total_jobs := st_total_jobs stats; st_completed := st_completed stats + 1;
       st_failed := st_failed stats; st_processing := st_processing stats;
       st_queued := st_queued stats |}
  else if String.eqb key "failed" then
    {| st_total_jobs := st_total_jobs stats; st_completed := st_completed stats;
       st_failed := st_failed stats + 1; st_processing := st_processing stats;
       st_queued := st_queued stats |}
  else if String.eqb key "processing" then
    {| st_total_jobs := st_total_jobs stats; st_completed := st_completed stats;
       st_failed := st_failed stats; st_processing := st_processing stats + 1;
       st_queued := st_queued stats |}
  else if String.eqb key "queued" then
    {| st_total_jobs := st_total_jobs stats; st_completed := st_completed stats;
       st_failed := st_failed stats; st_processing := st_processing stats;
       st_queued := st_queued stats + 1 |}
  else stats.

(** The body of [for doc in docs]. *)
Definition count_doc (doc : StatsDoc) (stats : Stats) : res Stats :=
  let status := default (StatusStr "unknown") (sd_status doc) in
  let stats := stats_incr "total_jobs" stats in
  match status with
  | StatusStr s => inr (stats_incr s stats)
  | StatusHashable => inr stats
  | StatusUnhashable type_error => raise (Exception type_error)
  end.

Fixpoint count_docs (docs : list StatsDoc) (stats : Stats) : res Stats :=
  match docs with
  | [] => inr stats
  | doc :: docs' => stats ← count_doc doc stats; count_docs docs' stats
  end.

Inductive StatsReply :=
| StatsError (error : string)
| StatsBody (stats : Stats).

(** [stream] is what iterating [jobs_ref.limit(1000).stream()] gives: the
    documents, or the exception that the query raises. *)
Definition get_processing_stats (stream : res (list StatsDoc)) : StatsReply * Z :=
  let attempt : res Stats :=
    docs ← stream;
    count_docs docs stats_init in
  match attempt with
  | inr stats => (StatsBody stats, 200)
  | inl e => (StatsError (str_exn e), 500)
  end.

(** The number of documents whose status is the string [s]. *)
Definition with_status (s : string) (docs : list StatsDoc) : Z :=
  Z.of_nat (length (List.filter
                      (λ doc, match sd_status doc with
                              | Some (StatusStr s') => String.eqb s' s
                              | _ => false
                              end) docs)).

(** No array or map under 'status'. *)
Definition hashable (doc : StatsDoc) : bool :=
  match sd_status doc with
  | Some (StatusUnhashable _) => false
  | _ => true
  end.

(** ** Sample worlds, used to run the service on concrete inputs *)

Module Samples.

Definition png_bytes : bytes := [Byte.x89; Byte.x50; Byte.x4e; Byte.x47].

Definition photo : Img :=
  {| img_format := Some "PNG"; img_mode := "RGB";
     img_width := 1600; img_height := 1200;
     img_info_transparency := false; img_raster := png_bytes |}.

Definition scaled (img : Img) (width height : Z) : Img :=
  {| img_format := None; img_mode := img_mode img;
     img_width := width; img_height := height;
     img_info_transparency := img_info_transparency img;
     img_raster := img_raster img |}.

Definition ok_response (body : bytes) : Response :=
  {| resp_status := 200; resp_reason := "OK";
     resp_content_type := Some "image/png";
     resp_content_length := None;
     resp_read := inr body |}.

Definition not_found : Response :=
  {| resp_status := 404; resp_reason := "Not Found";
     resp_content_type := Some "text/html";
     resp_content_length := Some "0";
     resp_read := inr [] |}.

(** A world in which storage, Firestore and the encoders work; the server
    answers [get], the decoder answers [open] and the thumbnail resampler
    answers [thumb]. *)
Definition world (get : string → res Response) (open : bytes → res Img)
    (thumb : Img → Z → Z → res Img) : World :=
  {| session_get := get;
     sha256_hexdigest := λ _, "9f86d081884c7d65";
     Image_open := open;
     exif_transpose := λ img, inr img;
     getexif := λ _, inr [];
     getcolors_50x50 := λ _, inr (Some (12, 34, 56));
     paste_on_white := λ img, inr (img_raster img);
     Image_resize := λ img width height,
       if (0 <? width) && (0 <? height) then inr (scaled img width height)
       else raise (ValueError "height and width must be > 0");
     Image_thumbnail := thumb;
     Image_save := λ img fmt _, inr (img_raster img);
     upload_from_string := λ _ _ _, None;
     make_public := λ _, None;
     firestore_update := λ _, None;
     json_loads := λ _, raise (Exception "Expecting value: line 1 column 1 (char 0)");
     utcnow_at := λ n, 1000000 * Z.of_nat n;
     uuid4_at := λ n, "uuid-" +:+ pretty n |}.

(** One byte more than the 50MB limit. *)
Definition big_body : bytes :=
  replicate (Z.to_nat (50 * 1024 * 1024 + 1)) Byte.x00.

Definition serves (body : bytes) : string → res Response :=
  λ _, inr (ok_response body).

Definition opens_photo : bytes → res Img := λ _, inr photo.


Definition thumb_ok : Img → Z → Z → res Img :=
  λ img width height, inr (scaled img 150 113).

Definition thumb_fails : Img → Z → Z → res Img :=
  λ _ _ _, raise (Exception "image file is truncated").

Definition w_ok : World := world (serves png_bytes) opens_photo thumb_ok.
Definition w_404 : World := world (λ _, inr not_found) opens_photo thumb_ok.
Definition w_big : World := world (serves big_body) opens_photo thumb_ok.
Definition w_thumb_fails : World := world (serves png_bytes) opens_photo thumb_fails.

(** One server, two URLs: gone.png answers 404, every other URL serves the
    image. *)
Definition w_mixed : World :=
  world (λ u, if String.eqb u "https://example.com/gone.png"
              then inr not_found else inr (ok_response png_bytes))
    opens_photo thumb_ok.

(** The world [w], with a queue whose messages all decode to [payload]. *)
Definition delivering (payload : res Payload) (w : World) : World :=
  {| session_get := session_get w;
     sha256_hexdigest := sha256_hexdigest w;
     Image_open := Image_open w;
     exif_transpose := exif_transpose w;
     getexif := getexif w;
     getcolors_50x50 := getcolors_50x50 w;
     paste_on_white := paste_on_white w;
     Image_resize := Image_resize w;
     Image_thumbnail := Image_thumbnail w;
     Image_save := Image_save w;
     upload_from_string := upload_from_string w;
     make_public := make_public w;
     firestore_update := firestore_update w;
     json_loads := λ _, payload;
     utcnow_at := utcnow_at w;
     uuid4_at := uuid4_at w |}.

Definition sys0 : Sys :=
  {| bucket := ∅; jobs := ∅; clock := 0; uuids := 0 |}.

(** The status store after ingestion queued job-1. *)
Definition sys_queued : Sys :=
  {| bucket := ∅;
     jobs := {[ "job-1" := {| doc_status := "queued";
                              doc_processing_result := None |} ]};
     clock := 0; uuids := 0 |}.

Definition handler : PubSubHandler := PubSubHandler_init "pixelpipe-images".

Definition message : Message := {| msg_data := [Byte.x7b; Byte.x7d] |}.

Definition proc : ImageProcessor := ImageProcessor_init "pixelpipe-images".

Definition job (opts : option ProcessingOptions) : Job :=
  {| job_id := Some "job-1"; image_id := Some "img-1";
     url := Some "https://example.com/a.png";
     processing_options := opts; other_keys := ["priority"; "category"] |}.

Definition options (thumb : bool) (sizes formats : list string)
  : ProcessingOptions :=
  {| po_create_thumbnail := Some thumb;
     po_resize_formats := Some sizes;
     po_output_formats := Some formats |}.


(** A second job on image img-1, with the same options and another URL. *)
Definition job_gone : Job :=
  {| job_id := Some "job-2"; image_id := Some "img-1";
     url := Some "https://example.com/gone.png";
     processing_options := None; other_keys := ["priority"; "category"] |}.





(** The queue delivers job-1 while its URL answers 404. *)
Definition w_404_queue : World := delivering (inr (PObject (job None))) w_404.

(** The queue delivers job-1 and everything works. *)
Definition w_ok_queue : World := delivering (inr (PObject (job None))) w_ok.

End Samples.

(** ** Artifact names *)

(** The keys [f"{size_str}_{fmt.lower()}"] that the requested sizes and
    formats can give. *)
Definition variant_keys (sizes formats : list string) : list string :=
  size ← sizes; fmt ← formats; [size +:+ "_" +:+ Py.lower fmt].

(** Every path the service can write for an image: a function of the
    image id and of the (size, format) variants. *)
Definition artifact_paths (image_id : string) (sizes formats : list string)
  : list string :=
  original_path image_id :: thumbnail_path image_id
  :: (resized_path image_id <$> variant_keys sizes formats).

(** The locator that [upload_to_storage] returns for a path. *)
Definition locator (p : ImageProcessor) (file_path : string) : string :=
  "gs://" +:+ bucket_name p +:+ "/" +:+ file_path.

(** The locators of an outputs map are those of the paths above. *)
Definition outputs_follow (p : ImageProcessor) (image_id : string)
    (sizes formats : list string) (o : Outputs) : Prop :=
  (∀ loc, out_original o = Some loc → loc = locator p (original_path image_id))
  ∧ (∀ loc, out_thumbnail o = Some loc → loc = locator p (thumbnail_path image_id))
  ∧ (∀ m k loc, out_resized o = Some m → m !! k = Some loc →
       k ∈ variant_keys sizes formats
       ∧ loc = locator p (resized_path image_id k)).

(** What one call of [upload_to_storage] leaves in the bucket, and whether
    it returns. *)
Definition uploaded (w : World) (file_data : bytes)
    (file_path content_type : string) : list string * bool :=
  match upload_from_string w file_path file_data content_type with
  | Some _ => ([], false)
  | None =>
      ([file_path],
       match make_public w file_path with Some _ => false | None => true end)
  end.

(** The paths written by the upload loop of step 5: it stops at the first
    upload that raises. *)
Fixpoint variants_written (w : World) (image_id : string)
    (items : list (string * bytes)) : list string :=
  match items with
  | [] => []
  | item :: rest =>
      let up := uploaded w (snd item) (resized_path image_id (fst item)) "image/jpeg" in
      fst up ++ (if snd up then variants_written w image_id rest else [])
  end.

(** The paths written by step 4. *)
Definition thumbnail_written (w : World) (image_id : string)
    (image_data : bytes) (enabled : bool) : list string * bool :=
  if enabled then
    match create_thumbnail w image_data with
    | inl _ => ([], false)
    | inr thumbnail_data =>
        uploaded w thumbnail_data (thumbnail_path image_id) "image/jpeg"
    end
  else ([], true).

(** The paths that one run of [process_image_job] writes: they depend on
    the collaborators, the image id, the URL and the processing options,
    and on nothing else (not on the job id, the clock or the bucket). *)
Definition written_paths (w : World) (p : ImageProcessor)
    (image_id url : string) (thumbnail : bool) (sizes formats : list string)
  : list string :=
  match download_body w p url with
  | inl _ => []
  | inr (image_data, content_type, _) =>
      let up := uploaded w image_data (original_path image_id) content_type in
      fst up ++
      (if snd up then
         let th := thumbnail_written w image_id image_data thumbnail in
         fst th ++
         (if snd th then
            match sizes with
            | [] => []
            | _ :: _ =>
                variants_written w image_id
                  (resize_image w image_data sizes formats)
            end
          else [])
       else [])
  end.

(** ** Relations between the state before and after a computation *)

(** [m] keeps [R] when [R] relates the state before [m] to the state after
    it, whether [m] returns or raises. *)
Definition keeps {S} (R : S → S → Prop) {A} (m : ST S A) : Prop :=
  ∀ s, R s (snd (m s)).

(** The error list and the identity of the result are the same before and
    after. *)
Definition same_header (sr sr' : Sys * Result) : Prop :=
  r_errors (snd sr') = r_errors (snd sr)
  ∧ r_job_id (snd sr') = r_job_id (snd sr)
  ∧ r_image_id (snd sr') = r_image_id (snd sr)
  ∧ r_original_url (snd sr') = r_original_url (snd sr).

(** The keys of the dict after are keys of the dict before or [allowed]. *)
Definition keys_within (allowed : list string) (d d' : list (string * bytes))
  : Prop :=
  ∀ k, k ∈ d'.*1 → k ∈ d.*1 ∨ k ∈ allowed.

(** The outputs of the result keep following the artifact names. *)
Definition follows (p : ImageProcessor) (image_id : string)
    (sizes formats : list string) (sr sr' : Sys * Result) : Prop :=
  outputs_follow p image_id sizes formats (r_outputs (snd sr)) →
  outputs_follow p image_id sizes formats (r_outputs (snd sr')).

(** ** Floats of moderate size *)

(** [x] is a positive normal binary64 number whose value lies in
    [2^(lo-1), 2^hi): mantissa of 53 bits, exponent in range. *)
Definition normal_pos (lo hi : Z) (x : spec_float) : Prop :=
  ∃ m e, x = S754_finite false m e
         ∧ Zpos (digits2_pos m) = 53 ∧ lo ≤ 53 + e ≤ hi.

(** The real value of a float. *)
Definition B2R (x : spec_float) : R :=
  match x with
  | S754_finite s m e =>
      ((if s then -1 else 1) * IZR (Zpos m) * powerRZ 2 e)%R
  | _ => 0%R
  end.

(** 2^-52, the relative distance between doubles. *)
Definition ulp_rel : R := (/ 4503599627370496)%R.

(** ** The encoders of resize_image *)

(** The [if/elif] chain on [fmt.lower()] in [resize_image]: the PIL format
    and the quality of the [save] call, [None] for a token that is skipped. *)
Definition encoder (fmt : string) : option (string * option Z) :=
  let f := Py.lower fmt in
  if String.eqb f "jpeg" then Some ("JPEG", Some 85)
  else if String.eqb f "webp" then Some ("WEBP", Some 85)
  else if String.eqb f "png" then Some ("PNG", None)
  else None.

Definition supported (fmt : string) : bool :=
  match encoder fmt with Some _ => true | None => false end.

(** The keys of the dict before are keys of the dict after. *)
Definition keeps_keys (d d' : list (string * bytes)) : Prop :=
  ∀ k, k ∈ d.*1 → k ∈ d'.*1.

(** Distinct keys stay distinct. *)
Definition keeps_distinct (d d' : list (string * bytes)) : Prop :=
  NoDup d.*1 → NoDup d'.*1.

(** ** What a download reads and returns *)

(** [int(response.headers.get('content-length', 0))] *)
Definition declared_length (response : Response) : res Z :=
  match resp_content_length response with
  | None => inr 0
  | Some h => Py.int_of_str h
  end.

(** The metadata dict of a download that read [image_data] at clock
    reading [now]. *)
Definition download_metadata (w : World) (url : string) (response : Response)
    (image_data : bytes) (now : Z) : DownloadMeta :=
  {| dm_original_url := url;
     dm_content_type := Py.lower (default "" (resp_content_type response));
     dm_content_length := Z.of_nat (length image_data);
     dm_download_timestamp := now;
     dm_http_status := resp_status response;
     dm_content_hash := sha256_hexdigest w image_data |}.

(** ** The blobs and locators of a job *)

(** The blob that a successful [upload_to_storage] leaves at its path. *)
Definition stored (data : bytes) (content_type : string)
    (metadata : list (string * string)) : Blob :=
  {| blob_data := data; blob_content_type := content_type;
     blob_metadata := metadata; blob_public := true |}.

Definition variant_blob (job_id : string) (item : string * bytes) : Blob :=
  stored (snd item) "image/jpeg"
    [("job_id", job_id); ("type", "resized"); ("variant", fst item)].

(** The bucket and the inner dict of the outputs after the upload loop of
    step 5 went through [items]. *)
Definition with_variants (job_id image_id : string) (items : list (string * bytes))
    (b : gmap string Blob) : gmap string Blob :=
  foldl (λ b item, <[resized_path image_id (fst item) := variant_blob job_id item]> b)
    b items.

Definition with_locators (p : ImageProcessor) (image_id : string)
    (items : list (string * bytes)) (m : gmap string string) : gmap string string :=
  foldl (λ m item, <[fst item := locator p (resized_path image_id (fst item))]> m)
    m items.

(** The uploads that [process_image_job] makes for a job: the path, the
    content type and the blob metadata of each [upload_to_storage] call.
    The original goes up with the content type of the download; the
    thumbnail and the resized variants with the default of the
    [content_type] parameter. *)
Definition job_upload (job_id image_id : string) (sizes formats : list string)
    (path content_type : string) (metadata : list (string * string)) : Prop :=
  (path = original_path image_id
   ∧ metadata = [("job_id", job_id); ("type", "original")])
  ∨ (path = thumbnail_path image_id ∧ content_type = "image/jpeg"
     ∧ metadata = [("job_id", job_id); ("type", "thumbnail")])
  ∨ (∃ k, k ∈ variant_keys sizes formats
          ∧ path = resized_path image_id k ∧ content_type = "image/jpeg"
          ∧ metadata = [("job_id", job_id); ("type", "resized"); ("variant", k)]).

(** A relation on systems, seen on the state of the [try] block. *)
Definition on_fst (R : Sys → Sys → Prop) (sr sr' : Sys * Result) : Prop :=
  R (fst sr) (fst sr').

(** Blobs at other paths than [paths] are the same, and so are the status
    store and the uuid counter. *)
Definition touches_only (paths : list string) (s s' : Sys) : Prop :=
  (∀ path, path ∉ paths → bucket s' !! path = bucket s !! path)
  ∧ jobs s' = jobs s ∧ uuids s' = uuids s.

(** Every blob is the one that was there, or one uploaded for this job. *)
Definition blobs_of_job (job_id image_id : string) (sizes formats : list string)
    (s s' : Sys) : Prop :=
  ∀ path blob, bucket s' !! path = Some blob →
    bucket s !! path = Some blob
    ∨ job_upload job_id image_id sizes formats path
        (blob_content_type blob) (blob_metadata blob).

(** The status and the time fields of the result are the same before and
    after. *)
Definition same_times (sr sr' : Sys * Result) : Prop :=
  r_status (snd sr') = r_status (snd sr)
  ∧ r_started_at (snd sr') = r_started_at (snd sr)
  ∧ r_completed_at (snd sr') = r_completed_at (snd sr)
  ∧ r_processing_time (snd sr') = r_processing_time (snd sr)
  ∧ r_failed_at (snd sr') = r_failed_at (snd sr).

(** ** The blobs a run writes *)

(** [b[path] = blob] for each write, in order. *)
Definition apply_writes (writes : list (string * Blob)) (b : gmap string Blob)
  : gmap string Blob :=
  foldl (λ b kv, <[fst kv := snd kv]> b) b writes.

(** What one call of [upload_to_storage] writes, and whether it returns. *)
Definition upload_writes (w : World) (file_data : bytes)
    (file_path content_type : string) (metadata : list (string * string))
  : list (string * Blob) * bool :=
  match upload_from_string w file_path file_data content_type with
  | Some _ => ([], false)
  | None =>
      let public := match make_public w file_path with
                    | Some _ => false
                    | None => true
                    end in
      ([(file_path, {| blob_data := file_data; blob_content_type := content_type;
                       blob_metadata := metadata; blob_public := public |})],
       public)
  end.

(** The writes of the upload loop of step 5, which stops at the first
    upload that raises. *)
Fixpoint variant_writes (w : World) (job_id image_id : string)
    (items : list (string * bytes)) : list (string * Blob) :=
  match items with
  | [] => []
  | item :: rest =>
      let up := upload_writes w (snd item) (resized_path image_id (fst item))
                  "image/jpeg"
                  [("job_id", job_id); ("type", "resized"); ("variant", fst item)] in
      fst up ++ (if snd up then variant_writes w job_id image_id rest else [])
  end.

(** The writes of step 4. *)
Definition thumbnail_writes (w : World) (job_id image_id : string)
    (image_data : bytes) (enabled : bool) : list (string * Blob) * bool :=
  if enabled then
    match create_thumbnail w image_data with
    | inl _ => ([], false)
    | inr thumbnail_data =>
        upload_writes w thumbnail_data (thumbnail_path image_id) "image/jpeg"
          [("job_id", job_id); ("type", "thumbnail")]
    end
  else ([], true).

(** The writes of one run of [process_image_job]: they depend on the
    collaborators and on the job, not on the clock or on the bucket. *)
Definition job_writes (w : World) (p : ImageProcessor)
    (job_id image_id url : string) (thumbnail : bool) (sizes formats : list string)
  : list (string * Blob) :=
  match download_body w p url with
  | inl _ => []
  | inr (image_data, content_type, _) =>
      let up := upload_writes w image_data (original_path image_id) content_type
                  [("job_id", job_id); ("type", "original")] in
      fst up ++
      (if snd up then
         let th := thumbnail_writes w job_id image_id image_data thumbnail in
         fst th ++
         (if snd th then
            match sizes with
            | [] => []
            | _ :: _ =>
                variant_writes w job_id image_id
                  (resize_image w image_data sizes formats)
            end
          else [])
       else [])
  end.

(** The last blob written at [path], if any. *)
Fixpoint last_write (path : string) (writes : list (string * Blob)) : option Blob :=
  match writes with
  | [] => None
  | kv :: rest =>
      match last_write path rest with
      | Some blob => Some blob
      | None => if String.eqb (fst kv) path then Some (snd kv) else None
      end
  end.

(** ** Characters of a string *)



(** ** More sample worlds *)

Module Cases.

(** The world [w] with another encoder and another [make_public]. *)
Definition with_storage (save : Img → string → option Z → res bytes)
    (publish : string → option exn) (w : World) : World :=
  {| session_get := session_get w;
     sha256_hexdigest := sha256_hexdigest w;
     Image_open := Image_open w;
     exif_transpose := exif_transpose w;
     getexif := getexif w;
     getcolors_50x50 := getcolors_50x50 w;
     paste_on_white := paste_on_white w;
     Image_resize := Image_resize w;
     Image_thumbnail := Image_thumbnail w;
     Image_save := save;
     upload_from_string := upload_from_string w;
     make_public := publish;
     firestore_update := firestore_update w;
     json_loads := json_loads w;
     utcnow_at := utcnow_at w;
     uuid4_at := uuid4_at w |}.

(** The server does not answer within the 30 seconds. *)
Definition w_timeout : World :=
  Samples.world (λ _, inl TimeoutError) Samples.opens_photo Samples.thumb_ok.

(** A PIL built without WebP support. *)
Definition w_no_webp : World :=
  with_storage
    (λ img fmt _,
       if String.eqb fmt "WEBP" then raise (Exception "encoder webp not available")
       else inr (img_raster img))
    (make_public Samples.w_ok) Samples.w_ok.

(** A bucket with uniform bucket-level access: ACLs cannot be set. *)
Definition w_private : World :=
  with_storage (Image_save Samples.w_ok)
    (λ _, Some (Exception "400 Cannot insert legacy ACL for an object"))
    Samples.w_ok.

(** job-1 with a thumbnail, resized to 800x600 as PNG. *)
Definition png_job : Job :=
  Samples.job (Some (Samples.options true ["800x600"] ["png"])).

(** job-1 with the defaults of the service written out. *)
Definition explicit_job : Job :=
  Samples.job (Some (Samples.options true ["400x300"] ["jpeg"])).

Definition doc (status : string) : StatsDoc :=
  {| sd_status := Some (StatusStr status) |}.

(** Five documents: two completed, one failed, one with a status of the
    ingestion side, one without status. *)
Definition docs : list StatsDoc :=
  [doc "completed"; doc "failed"; doc "completed"; doc "pending";
   {| sd_status := None |}].

End Cases.

(** * Properties *)

(** ** Python builtins on concrete inputs *)

Example split_800x600 : Py.split "x" "800x600" = ["800"; "600"].
Proof. reflexivity. Qed.

Example split_no_sep : Py.split "x" "large" = ["large"].
Proof. reflexivity. Qed.

Example int_of_str_padded : Py.int_of_str " 1_200 " = inr 1200.
Proof. reflexivity. Qed.

Example int_of_str_bad : ∃ e, Py.int_of_str "12px" = inl e.
Proof. eexists. reflexivity. Qed.

Example lower_JPEG : Py.lower "JPEG" = "jpeg".
Proof. reflexivity. Qed.

Example int_of_float_truncates : Py.int_of_float (PrimFloat.div 7 2) = inr 3.
Proof. reflexivity. Qed.

Example parse_size_ok : parse_size "800x600" = inr (800, 600).
Proof. reflexivity. Qed.

Example parse_size_three : ∃ e, parse_size "8x6x4" = inl e.
Proof. eexists. reflexivity. Qed.

(** ** Running the state-passing definitions *)

Section Run.
Context (w : World) (p : ImageProcessor).

Lemma utcnow_run s : utcnow w s = (inr (utcnow_at w (clock s)), tick s).
Proof. reflexivity. Qed.

Lemma bind_run {S A B} (m : ST S A) (f : A → ST S B) s :
  (m ≫= f) s = match m s with
               | (inl e, s') => (inl e, s')
               | (inr a, s') => f a s'
               end.
Proof. reflexivity. Qed.

Lemma lift_run {S A} (r : res A) (s : S) : lift r s = (r, s).
Proof. reflexivity. Qed.

Lemma on_sys_run {A} (m : M A) s r :
  on_sys m (s, r) = (fst (m s), (snd (m s), r)).
Proof. unfold on_sys. simpl. destruct (m s); reflexivity. Qed.

Lemma update_result_run f s r :
  update_result f (s, r) = (inr (), (s, f r)).
Proof. reflexivity. Qed.

Lemma process_image_job_keys job jid iid u s :
  job_id job = Some jid → image_id job = Some iid → url job = Some u →
  process_image_job w p job s =
  try_stages w p job jid iid u
    (initial_result jid iid u (utcnow_at w (clock s))) (tick s).
Proof.
  intros Hj Hi Hu. unfold process_image_job. rewrite Hj, Hi, Hu. reflexivity.
Qed.

End Run.

(** ** download_image *)

Section Download.
Context (w : World) (p : ImageProcessor).

Lemma download_image_raises url e s :
  download_body w p url = inl e →
  download_image w p url s = (inl (download_except url e), s).
Proof. intros H. unfold download_image. rewrite H. reflexivity. Qed.

Lemma download_image_returns url data ctype st s :
  download_body w p url = inr (data, ctype, st) →
  download_image w p url s =
  (inr (data,
        {| dm_original_url := url; dm_content_type := ctype;
           dm_content_length := Z.of_nat (length data);
           dm_download_timestamp := utcnow_at w (clock s);
           dm_http_status := st;
           dm_content_hash := sha256_hexdigest w data |}),
   tick s).
Proof. intros H. unfold download_image. rewrite H. reflexivity. Qed.

(** Whatever happens, the download leaves the bucket and the status store
    alone. *)
Lemma download_image_bucket url s :
  bucket (snd (download_image w p url s)) = bucket s
  ∧ jobs (snd (download_image w p url s)) = jobs s.
Proof.
  unfold download_image.
  destruct (download_body w p url) as [e | [[data ctype] st]]; simpl; auto.
Qed.

Lemma download_body_status url resp :
  session_get w url = inr resp → resp_status resp ≠ 200 →
  download_body w p url =
  inl (Exception ("HTTP " +:+ Py.str_int (resp_status resp) +:+ ": "
                  +:+ resp_reason resp)).
Proof.
  intros Hget Hst. unfold download_body. rewrite Hget. simpl.
  destruct (resp_status resp =? 200) eqn:E; [lia | reflexivity].
Qed.

End Download.

(** ** process_image_job: the mandatory stages *)

Section Orchestrator.
Context (w : World) (p : ImageProcessor).

Lemma try_stages_raises job jid iid u r s e s' r' :
  job_stages w p job jid iid u (s, r) = (inl e, (s', r')) →
  try_stages w p job jid iid u r s =
  (inr (set_failed e (utcnow_at w (clock s')) r'), tick s').
Proof. intros H. unfold try_stages. rewrite H. reflexivity. Qed.


Lemma job_stages_download_raises job jid iid u r s e :
  download_body w p u = inl e →
  job_stages w p job jid iid u (s, r) = (inl (download_except u e), (s, r)).
Proof.
  intros H. unfold job_stages. rewrite bind_run, on_sys_run.
  rewrite (download_image_raises w p u e s H). reflexivity.
Qed.

(** The blob that a successful upload leaves in the bucket. *)
Lemma upload_to_storage_ok data path ctype meta s :
  upload_from_string w path data ctype = None →
  make_public w path = None →
  upload_to_storage w p data path ctype meta s =
  (inr ("gs://" +:+ bucket_name p +:+ "/" +:+ path),
   set_bucket (insert path {| blob_data := data; blob_content_type := ctype;
                              blob_metadata := meta; blob_public := true |}) s).
Proof. intros H1 H2. unfold upload_to_storage. rewrite H1, H2. reflexivity. Qed.

(** A raising upload: the exception, and what it may have stored. *)
Lemma upload_to_storage_cases data path ctype meta s :
  (∃ e, upload_to_storage w p data path ctype meta s = (inl e, s)
        ∧ upload_from_string w path data ctype = Some e)
  ∨ (∃ e b, upload_to_storage w p data path ctype meta s
            = (inl e, set_bucket (insert path b) s)
            ∧ make_public w path = Some e)
  ∨ (∃ b, upload_to_storage w p data path ctype meta s
          = (inr ("gs://" +:+ bucket_name p +:+ "/" +:+ path),
             set_bucket (insert path b) s)).
Proof.
  unfold upload_to_storage.
  destruct (upload_from_string w path data ctype) as [e|].
  - left. eauto.
  - destruct (make_public w path) as [e|].
    + right; left. eauto.
    + right; right. eauto.
Qed.

(** After a good download and a stored original, the job goes on with the
    derived stages. *)
Lemma job_stages_original_stored job jid iid u r s data ctype st :
  download_body w p u = inr (data, ctype, st) →
  upload_from_string w (original_path iid) data ctype = None →
  make_public w (original_path iid) = None →
  let meta := {| dm_original_url := u; dm_content_type := ctype;
                 dm_content_length := Z.of_nat (length data);
                 dm_download_timestamp := utcnow_at w (clock s);
                 dm_http_status := st;
                 dm_content_hash := sha256_hexdigest w data |} in
  job_stages w p job jid iid u (s, r) =
  derived_stages w p job jid iid data
    (set_bucket (insert (original_path iid)
                   {| blob_data := data; blob_content_type := ctype;
                      blob_metadata := [("job_id", jid); ("type", "original")];
                      blob_public := true |}) (tick s),
     set_outputs (put_original ("gs://" +:+ bucket_name p +:+ "/" +:+ original_path iid))
       (set_metadata (put_image (extract_image_metadata w data))
          (set_metadata (put_download meta) r))).
Proof.
  intros Hd Hu Hm meta. unfold job_stages.
  rewrite bind_run, on_sys_run, (download_image_returns w p u data ctype st s Hd).
  cbn [fst snd]. rewrite bind_run, update_result_run.
  rewrite bind_run, update_result_run.
  rewrite bind_run, on_sys_run.
  cbn [dm_content_type].
  rewrite (upload_to_storage_ok data _ ctype _ _ Hu Hm).
  cbn [fst snd]. rewrite bind_run, update_result_run. reflexivity.
Qed.

End Orchestrator.

(** ** C3: a download that is answered with a non-2xx status *)

(** C3.  When the server answers the download with a status outside
    200..299, [download_image] raises its download failure
    ("Download failed: HTTP <status>: <reason>"), the job ends with status
    "failed" and that message as its only error, and no upload is reached:
    the outputs map has no original, thumbnail or resized key and the
    bucket is unchanged. *)
Theorem non_2xx_download_fails_job (w : World) (p : ImageProcessor)
    (job : Job) (jid iid u : string) (resp : Response) (s : Sys) :
  job_id job = Some jid → image_id job = Some iid → url job = Some u →
  session_get w u = inr resp →
  ¬ (200 ≤ resp_status resp < 300) →
  let e := Exception ("Download failed: HTTP " +:+ Py.str_int (resp_status resp)
                      +:+ ": " +:+ resp_reason resp) in
  (∀ s0, download_image w p u s0 = (inl e, s0))
  ∧ ∃ result s',
      process_image_job w p job s = (inr result, s')
      ∧ r_status result = "failed"
      ∧ r_errors result = [str_exn e]
      ∧ r_outputs result = {| out_original := None; out_thumbnail := None;
                              out_resized := None |}
      ∧ bucket s' = bucket s.
Proof.
  intros Hj Hi Hu Hget Hst e.
  assert (Hne : resp_status resp ≠ 200) by lia.
  pose proof (download_body_status w p u resp Hget Hne) as Hbody.
  split.
  - intros s0. rewrite (download_image_raises w p u _ s0 Hbody). reflexivity.
  - eexists _, _. split.
    + rewrite (process_image_job_keys w p job jid iid u s Hj Hi Hu).
      apply try_stages_raises.
      apply job_stages_download_raises. exact Hbody.
    + repeat split; reflexivity.
Qed.

Lemma non_2xx_download_fails_job_witness :
  ∃ result s',
    process_image_job
      Samples.w_404
      Samples.proc (Samples.job None) Samples.sys0 = (inr result, s')
    ∧ r_status result = "failed"
    ∧ r_errors result = ["Download failed: HTTP 404: Not Found"]
    ∧ r_outputs result = {| out_original := None; out_thumbnail := None;
                            out_resized := None |}
    ∧ bucket s' = ∅.
Proof.
  refine (proj2 (non_2xx_download_fails_job
            Samples.w_404
            Samples.proc (Samples.job None) "job-1" "img-1"
            "https://example.com/a.png" Samples.not_found Samples.sys0
            eq_refl eq_refl eq_refl eq_refl _)).
  simpl. lia.
Defined.

(** ** C4: the size guard of the download *)

Section SizeGuard.
Context (w : World) (p : ImageProcessor) (url : string) (resp : Response).
Hypothesis Hget : session_get w url = inr resp.
Hypothesis Hstatus : resp_status resp = 200.
Hypothesis Himage :
  Py.startswith (Py.lower (default "" (resp_content_type resp))) "image/" = true.

Lemma download_body_too_large h n :
  resp_content_length resp = Some h → Py.int_of_str h = inr n →
  n > max_image_size p →
  download_body w p url =
  inl (Exception ("Image too large: " +:+ Py.str_int n +:+ " bytes")).
Proof using Hget Hstatus Himage.
  intros Hh Hn Hgt. unfold download_body. rewrite Hget. simpl.
  rewrite Hstatus. simpl. rewrite Himage. simpl. rewrite Hh, Hn. simpl.
  destruct (n >? max_image_size p) eqn:E; [reflexivity | lia].
Qed.

Lemma download_body_reads_all n body :
  match resp_content_length resp with
  | None => inr 0
  | Some h => Py.int_of_str h
  end = inr n →
  n ≤ max_image_size p →
  resp_read resp = inr body →
  download_body w p url =
  inr (body, Py.lower (default "" (resp_content_type resp)), 200).
Proof using Hget Hstatus Himage.
  intros Hn Hle Hread. unfold download_body. rewrite Hget. simpl.
  rewrite Hstatus. simpl. rewrite Himage. simpl. rewrite Hn. simpl.
  destruct (n >? max_image_size p) eqn:E; [lia |].
  rewrite Hread. reflexivity.
Qed.

End SizeGuard.

(** C4, as the code has it.  The size guard looks at the declared
    content-length only: a 200 image response that declares more than the
    maximum is rejected with a download failure; when the header is absent
    (read as 0) or declares at most the maximum, the body is read whole and
    returned, whatever its length. *)
Theorem download_guards_declared_length_only (w : World) (p : ImageProcessor)
    (url : string) (resp : Response) (s : Sys) :
  session_get w url = inr resp →
  resp_status resp = 200 →
  Py.startswith (Py.lower (default "" (resp_content_type resp))) "image/" = true →
  (∀ h n, resp_content_length resp = Some h → Py.int_of_str h = inr n →
          n > max_image_size p →
          download_image w p url s =
          (inl (Exception ("Download failed: Image too large: "
                           +:+ Py.str_int n +:+ " bytes")), s))
  ∧ (∀ body,
       (resp_content_length resp = None
        ∨ ∃ h n, resp_content_length resp = Some h ∧ Py.int_of_str h = inr n
                 ∧ n ≤ max_image_size p) →
       0 ≤ max_image_size p →
       resp_read resp = inr body →
       ∃ meta, download_image w p url s = (inr (body, meta), tick s)
               ∧ dm_content_length meta = Z.of_nat (length body)).
Proof.
  intros Hget Hst Himg. split.
  - intros h n Hh Hn Hgt.
    rewrite (download_image_raises w p url _ s
               (download_body_too_large w p url resp Hget Hst Himg h n Hh Hn Hgt)).
    reflexivity.
  - intros body Hdecl Hmax Hread.
    assert (∃ n, match resp_content_length resp with
                 | None => inr 0
                 | Some h => Py.int_of_str h
                 end = inr n ∧ n ≤ max_image_size p) as (n & Hn & Hle).
    { destruct Hdecl as [-> | (h & n & -> & Hn & Hle)]; eauto. }
    eexists. split.
    + apply download_image_returns.
      exact (download_body_reads_all w p url resp Hget Hst Himg n body Hn Hle Hread).
    + reflexivity.
Qed.

Lemma download_guards_declared_length_only_witness :
  ∃ meta,
    download_image
      Samples.w_ok
      Samples.proc "https://example.com/a.png" Samples.sys0
    = (inr (Samples.png_bytes, meta), tick Samples.sys0)
    ∧ dm_content_length meta = 4.
Proof.
  refine (proj2 (download_guards_declared_length_only
            Samples.w_ok
            Samples.proc "https://example.com/a.png"
            (Samples.ok_response Samples.png_bytes) Samples.sys0
            eq_refl eq_refl eq_refl) Samples.png_bytes (or_introl eq_refl) _ eq_refl).
  vm_compute. discriminate.
Defined.

(** C4 fails as stated: with the default 50MB limit, a body of 50MB + 1
    bytes sent without a content-length header is downloaded whole, and
    the download succeeds. *)
Lemma oversized_body_is_downloaded :
  ∃ meta,
    download_image Samples.w_big Samples.proc "https://example.com/a.png" Samples.sys0
    = (inr (Samples.big_body, meta), tick Samples.sys0)
    ∧ max_image_size Samples.proc = 52428800
    ∧ Z.of_nat (length Samples.big_body) = 52428801.
Proof.
  eexists. split; [| split].
  - apply download_image_returns. reflexivity.
  - reflexivity.
  - unfold Samples.big_body. rewrite length_replicate.
    apply Z2Nat.id. discriminate.
Qed.

(** ** process_image_job: the thumbnail stage *)

Section Thumbnail.
Context (w : World) (p : ImageProcessor).

Lemma upload_to_storage_raises data path ctype meta s e :
  upload_raises w data path ctype = Some e →
  ∃ s', upload_to_storage w p data path ctype meta s = (inl e, s')
        ∧ (s' = s ∨ ∃ b, s' = set_bucket (insert path b) s).
Proof.
  unfold upload_raises, upload_to_storage.
  destruct (upload_from_string w path data ctype) as [e1|].
  - intros [= ->]. eauto.
  - intros ->. eauto.
Qed.

Lemma thumbnail_stage_raises jid iid data s r e :
  thumbnail_raises w iid data = Some e →
  ∃ s', thumbnail_stage w p jid iid data (s, r) = (inl e, (s', r))
        ∧ (s' = s ∨ ∃ b, s' = set_bucket (insert (thumbnail_path iid) b) s).
Proof.
  unfold thumbnail_raises, thumbnail_stage. rewrite bind_run, lift_run.
  destruct (create_thumbnail w data) as [e1 | td].
  - intros [= ->]. eauto.
  - intros Hup. rewrite bind_run, on_sys_run.
    destruct (upload_to_storage_raises td (thumbnail_path iid) "image/jpeg"
                [("job_id", jid); ("type", "thumbnail")] s e Hup)
      as (s' & -> & Hs').
    simpl. eauto.
Qed.

(** A raising thumbnail stage ends the [try] block on the spot: steps 5
    and the "Success!" lines are skipped. *)
Lemma derived_stages_thumbnail_raises job jid iid data s r e :
  get_create_thumbnail job = true →
  thumbnail_raises w iid data = Some e →
  ∃ s', derived_stages w p job jid iid data (s, r) = (inl e, (s', r))
        ∧ (s' = s ∨ ∃ b, s' = set_bucket (insert (thumbnail_path iid) b) s).
Proof.
  intros Hopt Hth. unfold derived_stages. rewrite Hopt, bind_run.
  destruct (thumbnail_stage_raises jid iid data s r e Hth) as (s' & -> & Hs').
  eauto.
Qed.

End Thumbnail.

Lemma resized_path_not_original iid k : resized_path iid k ≠ original_path iid.
Proof. discriminate. Qed.

Lemma resized_path_not_thumbnail iid k : resized_path iid k ≠ thumbnail_path iid.
Proof. discriminate. Qed.

Lemma thumbnail_path_not_original iid : thumbnail_path iid ≠ original_path iid.
Proof. discriminate. Qed.

(** ** C1: a failing thumbnail stage *)

(** C1, as the code has it.  When the thumbnail stage is enabled and
    raises, after a good download and a stored original, the exception is
    kept as the entry of the error list and the job ends with status
    "failed": the resize stage does not run, so the outputs map has the
    original only and no resized blob is written. *)
Theorem thumbnail_failure_fails_job (w : World) (p : ImageProcessor)
    (job : Job) (jid iid u : string) (data : bytes) (ctype : string)
    (st : Z) (e : exn) (s : Sys) :
  job_id job = Some jid → image_id job = Some iid → url job = Some u →
  download_body w p u = inr (data, ctype, st) →
  upload_raises w data (original_path iid) ctype = None →
  get_create_thumbnail job = true →
  thumbnail_raises w iid data = Some e →
  ∃ result s',
    process_image_job w p job s = (inr result, s')
    ∧ r_status result = "failed"
    ∧ r_errors result = [str_exn e]
    ∧ r_outputs result =
        {| out_original :=
             Some ("gs://" +:+ bucket_name p +:+ "/" +:+ original_path iid);
           out_thumbnail := None; out_resized := None |}
    ∧ ∀ k, bucket s' !! resized_path iid k = bucket s !! resized_path iid k.
Proof.
  intros Hj Hi Hu Hd Hup Hopt Hth.
  assert (upload_from_string w (original_path iid) data ctype = None
          ∧ make_public w (original_path iid) = None) as [Hu1 Hu2].
  { unfold upload_raises in Hup.
    destruct (upload_from_string w (original_path iid) data ctype); [discriminate | auto]. }
  rewrite (process_image_job_keys w p job jid iid u s Hj Hi Hu).
  pose proof (job_stages_original_stored w p job jid iid u
                (initial_result jid iid u (utcnow_at w (clock s))) (tick s)
                data ctype st Hd Hu1 Hu2) as Hst.
  cbv zeta in Hst.
  edestruct (derived_stages_thumbnail_raises w p job jid iid data) as (s' & Hder & Hs');
    [exact Hopt | exact Hth |].
  rewrite Hder in Hst.
  eexists _, _. split; [apply try_stages_raises; exact Hst |].
  repeat split.
  intros k. destruct Hs' as [-> | (b & ->)]; simpl.
  - rewrite lookup_insert_ne by (apply not_eq_sym, resized_path_not_original).
    reflexivity.
  - rewrite lookup_insert_ne by (apply not_eq_sym, resized_path_not_thumbnail).
    rewrite lookup_insert_ne by (apply not_eq_sym, resized_path_not_original).
    reflexivity.
Qed.

Lemma thumbnail_failure_fails_job_witness :
  ∃ result s',
    process_image_job Samples.w_thumb_fails Samples.proc (Samples.job None)
      Samples.sys0 = (inr result, s')
    ∧ r_status result = "failed"
    ∧ r_errors result = ["image file is truncated"]
    ∧ r_outputs result =
        {| out_original :=
             Some "gs://pixelpipe-images/original/img-1/img-1_original.jpg";
           out_thumbnail := None; out_resized := None |}
    ∧ ∀ k, bucket s' !! resized_path "img-1" k = None.
Proof.
  exact (thumbnail_failure_fails_job Samples.w_thumb_fails Samples.proc
           (Samples.job None) "job-1" "img-1" "https://example.com/a.png"
           Samples.png_bytes "image/png" 200
           (Exception "image file is truncated") Samples.sys0
           eq_refl eq_refl eq_refl eq_refl eq_refl eq_refl eq_refl).
Defined.

(** C1 fails as stated: with a resampler that raises, the default job
    (thumbnail enabled, one resize target) ends "failed", not "completed",
    and nothing is resized. *)
Lemma thumbnail_failure_does_not_complete :
  thumbnail_raises Samples.w_thumb_fails "img-1" Samples.png_bytes
  = Some (Exception "image file is truncated")
  ∧ ∃ result s',
      process_image_job Samples.w_thumb_fails Samples.proc (Samples.job None)
        Samples.sys0 = (inr result, s')
      ∧ r_status result = "failed"
      ∧ r_status result ≠ "completed"
      ∧ r_errors result = ["image file is truncated"]
      ∧ out_resized (r_outputs result) = None
      ∧ map fst (map_to_list (bucket s')) = ["original/img-1/img-1_original.jpg"].
Proof.
  split; [reflexivity |].
  eexists _, _. split; [vm_compute; reflexivity |].
  repeat split; try reflexivity. discriminate.
Qed.

(** ** C6: image bytes that do not decode *)

Section Undecodable.
Context (w : World) (p : ImageProcessor) (data : bytes) (e : exn).
Hypothesis Hopen : Image_open w data = inl e.





End Undecodable.

Section NoVariants.
Context (w : World) (p : ImageProcessor).


End NoVariants.




(** ** What the stages leave alone *)

(** A relation [R] between the state before and after is kept by a
    computation when it holds whatever the computation does; reflexive,
    transitive relations are kept by sequencing and by loops. *)
Section Keeps.
Context {S : Type} (R : S → S → Prop).
Context (R_refl : ∀ s, R s s) (R_trans : ∀ s1 s2 s3, R s1 s2 → R s2 s3 → R s1 s3).

Lemma keeps_ret {A} (a : A) : keeps R (mret a : ST S A).
Proof using R_refl. intros s. apply R_refl. Qed.

Lemma keeps_lift {A} (r : res A) : keeps R (lift r).
Proof using R_refl. intros s. apply R_refl. Qed.

Lemma keeps_bind {A B} (m : ST S A) (f : A → ST S B) :
  keeps R m → (∀ a, keeps R (f a)) → keeps R (m ≫= f).
Proof using R_trans.
  intros Hm Hf s. rewrite bind_run. specialize (Hm s).
  destruct (m s) as [[e | a] s1]; simpl in *; [exact Hm |].
  eapply R_trans; [exact Hm | apply Hf].
Qed.

Lemma keeps_bind_post {A B} (Q : A → Prop) (m : ST S A) (f : A → ST S B) :
  keeps R m → (∀ s a s', m s = (inr a, s') → Q a) →
  (∀ a, Q a → keeps R (f a)) → keeps R (m ≫= f).
Proof using R_trans.
  intros Hm HQ Hf s. rewrite bind_run. specialize (Hm s). specialize (HQ s).
  destruct (m s) as [[e | a] s1]; simpl in *; [exact Hm |].
  eapply R_trans; [exact Hm | apply Hf; eauto].
Qed.

Lemma keeps_modify (f : S → S) : (∀ s, R s (f s)) → keeps R (modify f).
Proof. intros Hf s. apply Hf. Qed.

Lemma keeps_swallow (m : ST S unit) : keeps R m → keeps R (swallow m).
Proof. intros Hm s. apply Hm. Qed.

Lemma keeps_for_each {A} (body : A → ST S unit) (xs : list A) :
  (∀ x, x ∈ xs → keeps R (body x)) → keeps R (for_each body xs).
Proof using R_refl R_trans.
  induction xs as [| x xs IH]; intros Hbody.
  - apply keeps_ret.
  - simpl. apply keeps_bind.
    + apply Hbody. left.
    + intros _. apply IH. intros y Hy. apply Hbody. right. exact Hy.
Qed.

End Keeps.

Lemma bind_returns {S A B} (m : ST S A) (f : A → ST S B) s b s' :
  (m ≫= f) s = (inr b, s') →
  ∃ a s1, m s = (inr a, s1) ∧ f a s1 = (inr b, s').
Proof.
  rewrite bind_run. destruct (m s) as [[e | a] s1]; [discriminate |]. eauto.
Qed.

(** ** C5: acknowledging a message *)

Section Terminal.
Context (w : World) (p : ImageProcessor).

Lemma same_header_refl sr : same_header sr sr.
Proof. repeat split. Qed.

Lemma same_header_trans sr1 sr2 sr3 :
  same_header sr1 sr2 → same_header sr2 sr3 → same_header sr1 sr3.
Proof. unfold same_header. intuition congruence. Qed.

Lemma on_sys_same_header {A} (m : M A) : keeps same_header (on_sys m).
Proof. intros [s r]. rewrite on_sys_run. repeat split. Qed.

Lemma set_outputs_same_header f : keeps same_header (update_result (set_outputs f)).
Proof. intros [s r]. repeat split. Qed.

Lemma set_metadata_same_header f : keeps same_header (update_result (set_metadata f)).
Proof. intros [s r]. repeat split. Qed.

Ltac keeps_errors :=
  repeat first
    [ apply (keeps_bind same_header same_header_trans); [| intros ?]
    | apply (keeps_for_each same_header same_header_refl same_header_trans); intros ? _
    | apply (keeps_ret same_header same_header_refl)
    | apply (keeps_lift same_header same_header_refl)
    | apply on_sys_same_header
    | apply set_outputs_same_header
    | apply set_metadata_same_header ].

Lemma thumbnail_stage_same_header jid iid data :
  keeps same_header (thumbnail_stage w p jid iid data).
Proof. unfold thumbnail_stage. keeps_errors. Qed.

Lemma resize_stage_same_header jid iid data sizes formats :
  keeps same_header (resize_stage w p jid iid data sizes formats).
Proof. unfold resize_stage. keeps_errors. Qed.

Lemma set_completed_same_header now :
  keeps same_header (update_result (set_completed now)).
Proof. intros [s r]. repeat split. Qed.

Lemma derived_stages_same_header job jid iid data :
  keeps same_header (derived_stages w p job jid iid data).
Proof.
  unfold derived_stages.
  apply (keeps_bind same_header same_header_trans).
  { destruct (get_create_thumbnail job);
      [apply thumbnail_stage_same_header | keeps_errors]. }
  intros _. apply (keeps_bind same_header same_header_trans).
  { destruct (get_resize_formats job);
      [keeps_errors | apply resize_stage_same_header]. }
  intros _. apply (keeps_bind same_header same_header_trans); [keeps_errors |].
  intros now. apply set_completed_same_header.
Qed.

Lemma job_stages_same_header job jid iid u :
  keeps same_header (job_stages w p job jid iid u).
Proof.
  unfold job_stages.
  do 5 (apply (keeps_bind same_header same_header_trans); [keeps_errors | intros ?]).
  apply derived_stages_same_header.
Qed.

Lemma derived_stages_completed job jid iid data sr sr' :
  derived_stages w p job jid iid data sr = (inr (), sr') →
  r_status (snd sr') = "completed".
Proof.
  unfold derived_stages. intros H.
  apply bind_returns in H as ([] & sr1 & _ & H).
  apply bind_returns in H as ([] & sr2 & _ & H).
  apply bind_returns in H as (now & [s3 r3] & _ & H).
  rewrite update_result_run in H. injection H as <-. reflexivity.
Qed.

Lemma job_stages_completed job jid iid u sr sr' :
  job_stages w p job jid iid u sr = (inr (), sr') →
  r_status (snd sr') = "completed".
Proof.
  unfold job_stages. intros H.
  apply bind_returns in H as (dl & sr1 & _ & H).
  apply bind_returns in H as ([] & sr2 & _ & H).
  apply bind_returns in H as ([] & sr3 & _ & H).
  apply bind_returns in H as (ou & sr4 & _ & H).
  apply bind_returns in H as ([] & sr5 & _ & H).
  exact (derived_stages_completed _ _ _ _ _ _ H).
Qed.

(** With its three keys present, a job always comes back with a result
    for that job, and the result is terminal: "completed" with an empty
    error list, or "failed" with the one exception that ended the stages. *)
Lemma process_image_job_terminal job jid iid u s :
  job_id job = Some jid → image_id job = Some iid → url job = Some u →
  ∃ result s',
    process_image_job w p job s = (inr result, s')
    ∧ (r_job_id result = jid ∧ r_image_id result = iid
       ∧ r_original_url result = u)
    ∧ (r_status result = "completed" ∧ r_errors result = []
       ∨ r_status result = "failed" ∧ ∃ msg, r_errors result = [msg]).
Proof.
  intros Hj Hi Hu.
  rewrite (process_image_job_keys w p job jid iid u s Hj Hi Hu).
  unfold try_stages.
  pose proof (job_stages_same_header job jid iid u
                (tick s, initial_result jid iid u (utcnow_at w (clock s)))) as Herr.
  unfold same_header in Herr.
  destruct (job_stages w p job jid iid u _) as [[e | []] [s' r']] eqn:Hst;
    simpl in Herr; destruct Herr as (Herr & Hjid & Hiid & Hurl).
  - eexists _, _. split; [reflexivity |]. split; [simpl; auto |].
    right. split; [reflexivity |]. simpl. rewrite Herr. eauto.
  - eexists _, _. split; [reflexivity |]. split; [auto |]. left.
    split; [exact (job_stages_completed _ _ _ _ _ _ Hst) | exact Herr].
Qed.

(** A job that lacks one of its three keys raises [KeyError] before the
    [try] block. *)
Lemma process_image_job_key_missing job s :
  job_id job = None ∨ image_id job = None ∨ url job = None →
  ∃ e, process_image_job w p job s = (inl e, s).
Proof.
  unfold process_image_job.
  destruct (job_id job), (image_id job), (url job);
    intros [H | [H | H]]; try discriminate; eexists; reflexivity.
Qed.

End Terminal.

Lemma update_job_status_returns w id result s :
  ∃ s', update_job_status w id result s = (inr (), s').
Proof.
  unfold update_job_status. destruct id as [id |]; [| eauto].
  destruct (firestore_update w id), (jobs s !! id); eauto.
Qed.

(** C5, as the code has it.  A message is acknowledged exactly when its
    payload decodes to a job object that has job_id, image_id and url: the
    orchestrator then always returns a terminal result, "completed" or
    "failed".  A job whose download fails is such a case: it ends "failed"
    and its message is acknowledged, not redelivered.  Every other message
    is nacked. *)
Theorem message_disposition (w : World) (h : PubSubHandler)
    (message : Message) (s : Sys) :
  (fst (process_message w h message s) = Ack
   ↔ ∃ job jid iid u,
       json_loads w (msg_data message) = inr (PObject job)
       ∧ job_id job = Some jid ∧ image_id job = Some iid ∧ url job = Some u)
  ∧ (fst (process_message w h message s) ≠ Ack
     → fst (process_message w h message s) = Nack)
  ∧ ∀ job jid iid u,
      json_loads w (msg_data message) = inr (PObject job) →
      job_id job = Some jid → image_id job = Some iid → url job = Some u →
      ∃ result s',
        process_image_job w (processor h) job s = (inr result, s')
        ∧ (r_status result = "completed" ∨ r_status result = "failed")
        ∧ ∀ e, download_body w (processor h) u = inl e →
               r_status result = "failed"
               ∧ r_errors result = [str_exn (download_except u e)]
               ∧ fst (process_message w h message s) = Ack.
Proof.
  assert (Hack : ∀ job jid iid u,
             json_loads w (msg_data message) = inr (PObject job) →
             job_id job = Some jid → image_id job = Some iid → url job = Some u →
             fst (process_message w h message s) = Ack).
  { intros job jid iid u Hload Hj Hi Hu.
    destruct (process_image_job_terminal w (processor h) job jid iid u s Hj Hi Hu)
      as (result & s' & Hrun & _ & _).
    destruct (update_job_status_returns w (job_id job) result s') as (s'' & Hupd).
    unfold process_message. rewrite bind_run, lift_run, Hload. simpl.
    rewrite bind_run, lift_run. rewrite bind_run, Hrun, Hupd. reflexivity. }
  split; [split |].
  - unfold process_message. rewrite bind_run, lift_run.
    destruct (json_loads w (msg_data message)) as [e | [| t b m | job]];
      try discriminate.
    simpl. rewrite bind_run, lift_run.
    destruct (job_id job) as [jid |] eqn:Hj;
      [destruct (image_id job) as [iid |] eqn:Hi;
       [destruct (url job) as [u |] eqn:Hu |] |].
    + intros _. eauto 10.
    + destruct (process_image_job_key_missing w (processor h) job s) as (e & He);
        [auto |]. rewrite bind_run, He. discriminate.
    + destruct (process_image_job_key_missing w (processor h) job s) as (e & He);
        [auto |]. rewrite bind_run, He. discriminate.
    + destruct (process_image_job_key_missing w (processor h) job s) as (e & He);
        [auto |]. rewrite bind_run, He. discriminate.
  - intros (job & jid & iid & u & Hload & Hj & Hi & Hu). eauto.
  - split.
    + destruct (fst (process_message w h message s)); [congruence | reflexivity].
    + intros job jid iid u Hload Hj Hi Hu.
      destruct (process_image_job_terminal w (processor h) job jid iid u s Hj Hi Hu)
        as (result & s' & Hrun & _ & Hst).
      exists result, s'. split; [exact Hrun |]. split; [tauto |].
      intros e He.
      rewrite (process_image_job_keys w (processor h) job jid iid u s Hj Hi Hu) in Hrun.
      rewrite (try_stages_raises w (processor h) job jid iid u _ _ _ _ _
                 (job_stages_download_raises w (processor h) job jid iid u _ _ e He))
        in Hrun.
      injection Hrun as <- <-.
      repeat split. eauto.
Qed.

Lemma message_disposition_witness :
  ∃ result s',
    process_image_job Samples.w_404_queue (processor Samples.handler)
      (Samples.job None) Samples.sys_queued = (inr result, s')
    ∧ (r_status result = "completed" ∨ r_status result = "failed")
    ∧ ∀ e, download_body Samples.w_404_queue (processor Samples.handler)
             "https://example.com/a.png" = inl e →
           r_status result = "failed"
           ∧ r_errors result
             = [str_exn (download_except "https://example.com/a.png" e)]
           ∧ fst (process_message Samples.w_404_queue Samples.handler
                    Samples.message Samples.sys_queued) = Ack.
Proof.
  exact (proj2 (proj2 (message_disposition Samples.w_404_queue Samples.handler
                         Samples.message Samples.sys_queued))
           (Samples.job None) "job-1" "img-1" "https://example.com/a.png"
           eq_refl eq_refl eq_refl eq_refl).
Defined.

(** C5 fails as stated: job-1 fails its download (the URL answers 404),
    its status record is updated to "failed", and its message is
    acknowledged, so the queue does not redeliver it. *)
Lemma download_failure_is_acknowledged :
  fst (download_image Samples.w_404_queue Samples.proc
         "https://example.com/a.png" Samples.sys_queued)
  = inl (Exception "Download failed: HTTP 404: Not Found")
  ∧ fst (process_message Samples.w_404_queue Samples.handler Samples.message
           Samples.sys_queued) = Ack
  ∧ fst (process_message Samples.w_404_queue Samples.handler Samples.message
           Samples.sys_queued) ≠ Nack
  ∧ doc_status <$>
      jobs (snd (process_message Samples.w_404_queue Samples.handler
                   Samples.message Samples.sys_queued)) !! "job-1"
    = Some "failed".
Proof.
  split; [reflexivity |]. split; [reflexivity |]. split; [discriminate |].
  vm_compute. reflexivity.
Qed.

(** ** The keys of the resized images *)

Lemma dict_set_keys {V} k (v : V) d k' :
  k' ∈ (dict_set k v d).*1 → k' = k ∨ k' ∈ d.*1.
Proof.
  induction d as [| [k0 v0] d IH]; simpl.
  - intros H%list_elem_of_singleton. auto.
  - destruct (String.eqb k0 k) eqn:E; simpl.
    + rewrite !elem_of_cons. tauto.
    + rewrite !elem_of_cons. intros [-> | H]; [auto |].
      destruct (IH H); auto.
Qed.

Lemma variant_keys_spec sizes formats k :
  k ∈ variant_keys sizes formats
  ↔ ∃ size fmt, size ∈ sizes ∧ fmt ∈ formats ∧ k = size +:+ "_" +:+ Py.lower fmt.
Proof.
  unfold variant_keys. rewrite list_elem_of_bind. split.
  - intros (size & Hk & Hsize). apply list_elem_of_bind in Hk as (fmt & Hk & Hfmt).
    apply list_elem_of_singleton in Hk. eauto.
  - intros (size & fmt & Hsize & Hfmt & ->). exists size. split; [| exact Hsize].
    apply list_elem_of_bind. exists fmt. split; [left | exact Hfmt].
Qed.

Section ResizeKeys.
Context (w : World) (sizes formats : list string).

Let R := keys_within (variant_keys sizes formats).

Lemma keys_within_refl d : R d d.
Proof. intros k Hk. auto. Qed.

Lemma keys_within_trans d1 d2 d3 : R d1 d2 → R d2 d3 → R d1 d3.
Proof.
  intros H12 H23 k Hk. destruct (H23 k Hk) as [H | H]; [| auto].
  apply H12. exact H.
Qed.

Lemma save_variant_keys img size fmt :
  size ∈ sizes → fmt ∈ formats → keeps R (save_variant w img size fmt).
Proof.
  intros Hsize Hfmt.
  assert (Hset : ∀ data,
             keeps R (modify (dict_set (size +:+ "_" +:+ Py.lower fmt) data))).
  { intros data. apply keeps_modify. intros d k Hk.
    apply dict_set_keys in Hk as [-> | Hk]; [right | auto].
    apply variant_keys_spec. eauto. }
  unfold save_variant.
  repeat case_match;
    first [ apply (keeps_ret R keys_within_refl)
          | apply (keeps_bind R keys_within_trans);
            [apply (keeps_lift R keys_within_refl) | exact Hset] ].
Qed.

Lemma resize_to_keys img size :
  size ∈ sizes → keeps R (resize_to w img formats size).
Proof.
  intros Hsize. unfold resize_to.
  apply (keeps_bind R keys_within_trans); [apply (keeps_lift R keys_within_refl) |].
  intros [width height].
  apply (keeps_bind R keys_within_trans); [apply (keeps_lift R keys_within_refl) |].
  intros [new_width new_height].
  apply (keeps_bind R keys_within_trans); [apply (keeps_lift R keys_within_refl) |].
  intros resized_img.
  apply (keeps_for_each R keys_within_refl keys_within_trans).
  intros fmt Hfmt. apply save_variant_keys; assumption.
Qed.

(** Every key of the dict that [resize_image] returns is
    "{size}_{format in lower case}" for a requested size and format. *)
Lemma resize_image_keys data k :
  k ∈ (resize_image w data sizes formats).*1 → k ∈ variant_keys sizes formats.
Proof.
  unfold resize_image.
  match goal with
  | |- context [match ?opened with inl _ => _ | inr _ => _ end] =>
      destruct opened as [e | img]
  end; [intros Hk; inversion Hk |].
  intros Hk.
  pose proof (keeps_for_each R keys_within_refl keys_within_trans
                (λ size, swallow (resize_to w img formats size)) sizes) as Hloop.
  destruct (Hloop (λ size Hsize, keeps_swallow R _ (resize_to_keys img size Hsize))
              [] k Hk) as [Hin | Hin]; [inversion Hin | exact Hin].
Qed.

End ResizeKeys.

(** ** The locators in the outputs map *)

Section Locators.
Context (w : World) (p : ImageProcessor) (iid : string).
Context (sizes formats : list string).

Let R := follows p iid sizes formats.

Lemma follows_refl sr : R sr sr.
Proof. intros H. exact H. Qed.

Lemma follows_trans sr1 sr2 sr3 : R sr1 sr2 → R sr2 sr3 → R sr1 sr3.
Proof. unfold R, follows. auto. Qed.

Lemma on_sys_follows {A} (m : M A) : keeps R (on_sys m).
Proof. intros [s r]. rewrite on_sys_run. intros H. exact H. Qed.

Lemma set_metadata_follows f : keeps R (update_result (set_metadata f)).
Proof. intros [s r] H. exact H. Qed.

Lemma set_completed_follows now : keeps R (update_result (set_completed now)).
Proof. intros [s r] H. exact H. Qed.

Lemma put_original_follows :
  keeps R (update_result (set_outputs (put_original (locator p (original_path iid))))).
Proof.
  intros [s r] (Ho & Ht & Hr). split; [| split]; simpl.
  - intros loc [= <-]. reflexivity.
  - exact Ht.
  - exact Hr.
Qed.

Lemma put_thumbnail_follows :
  keeps R (update_result (set_outputs (put_thumbnail (locator p (thumbnail_path iid))))).
Proof.
  intros [s r] (Ho & Ht & Hr). split; [| split]; simpl.
  - exact Ho.
  - intros loc [= <-]. reflexivity.
  - exact Hr.
Qed.

Lemma reset_resized_follows : keeps R (update_result (set_outputs reset_resized)).
Proof.
  intros [s r] (Ho & Ht & Hr). split; [| split]; simpl.
  - exact Ho.
  - exact Ht.
  - intros m k loc [= <-]. rewrite lookup_empty. discriminate.
Qed.

Lemma put_resized_follows k :
  k ∈ variant_keys sizes formats →
  keeps R (update_result (set_outputs (put_resized k (locator p (resized_path iid k))))).
Proof.
  intros Hk [s r] (Ho & Ht & Hr). split; [| split]; simpl.
  - exact Ho.
  - exact Ht.
  - intros m k' loc [= <-] Hlook.
    destruct (decide (k = k')) as [<- | Hne].
    + rewrite lookup_insert_eq in Hlook. injection Hlook as <-. auto.
    + rewrite lookup_insert_ne in Hlook by exact Hne.
      destruct (out_resized (r_outputs r)) as [m |] eqn:Hm; simpl in Hlook.
      * exact (Hr m k' loc Hm Hlook).
      * rewrite lookup_empty in Hlook. discriminate.
Qed.

(** What [upload_to_storage] returns is the locator of the path. *)
Lemma upload_to_storage_locator data path ctype meta s loc s' :
  upload_to_storage w p data path ctype meta s = (inr loc, s') →
  loc = locator p path.
Proof.
  unfold upload_to_storage.
  destruct (upload_from_string w path data ctype); [discriminate |].
  destruct (make_public w path); [discriminate |].
  intros [= <- _]. reflexivity.
Qed.

Lemma on_sys_upload_locator data path ctype meta sr loc sr' :
  on_sys (upload_to_storage w p data path ctype meta) sr = (inr loc, sr') →
  loc = locator p path.
Proof.
  destruct sr as [s r]. rewrite on_sys_run.
  destruct (upload_to_storage w p data path ctype meta s) as [[e | loc'] s1] eqn:E;
    [discriminate |].
  intros [= <- _]. exact (upload_to_storage_locator _ _ _ _ _ _ _ E).
Qed.

Lemma thumbnail_stage_follows jid data :
  keeps R (thumbnail_stage w p jid iid data).
Proof.
  unfold thumbnail_stage.
  apply (keeps_bind R follows_trans); [apply (keeps_lift R follows_refl) |].
  intros thumbnail_data.
  apply (keeps_bind_post R follows_trans (λ loc, loc = locator p (thumbnail_path iid))).
  - apply on_sys_follows.
  - intros sr loc sr'. apply on_sys_upload_locator.
  - intros loc ->. apply put_thumbnail_follows.
Qed.

Lemma resize_stage_follows jid data :
  keeps R (resize_stage w p jid iid data sizes formats).
Proof.
  unfold resize_stage.
  apply (keeps_bind R follows_trans); [apply reset_resized_follows |].
  intros _. apply (keeps_for_each R follows_refl follows_trans).
  intros [k variant] Hitem. unfold upload_variant. cbn [fst snd].
  assert (Hk : k ∈ variant_keys sizes formats).
  { apply (resize_image_keys w sizes formats data).
    apply list_elem_of_fmap. exists (k, variant). auto. }
  apply (keeps_bind_post R follows_trans (λ loc, loc = locator p (resized_path iid k))).
  - apply on_sys_follows.
  - intros sr loc sr'. apply on_sys_upload_locator.
  - intros loc ->. apply put_resized_follows. exact Hk.
Qed.

Lemma derived_stages_follows job jid data :
  get_resize_formats job = sizes → get_output_formats job = formats →
  keeps R (derived_stages w p job jid iid data).
Proof.
  intros Hsizes Hformats. unfold derived_stages.
  apply (keeps_bind R follows_trans).
  { destruct (get_create_thumbnail job);
      [apply thumbnail_stage_follows | apply (keeps_ret R follows_refl)]. }
  intros _. apply (keeps_bind R follows_trans).
  { rewrite Hformats.
    destruct (get_resize_formats job) as [| size rest];
      [apply (keeps_ret R follows_refl) |].
    rewrite Hsizes. apply resize_stage_follows. }
  intros _. apply (keeps_bind R follows_trans); [apply on_sys_follows |].
  intros now. apply set_completed_follows.
Qed.

Lemma job_stages_follows job jid u :
  get_resize_formats job = sizes → get_output_formats job = formats →
  keeps R (job_stages w p job jid iid u).
Proof.
  intros Hsizes Hformats. unfold job_stages.
  apply (keeps_bind R follows_trans); [apply on_sys_follows |]. intros dl.
  apply (keeps_bind R follows_trans); [apply set_metadata_follows |]. intros _.
  apply (keeps_bind R follows_trans); [apply set_metadata_follows |]. intros _.
  apply (keeps_bind_post R follows_trans (λ loc, loc = locator p (original_path iid))).
  - apply on_sys_follows.
  - intros sr loc sr'. apply on_sys_upload_locator.
  - intros loc ->.
    apply (keeps_bind R follows_trans); [apply put_original_follows |]. intros _.
    apply derived_stages_follows; assumption.
Qed.

End Locators.

(** Every locator in the outputs of a finished job is the locator of the
    path that the naming scheme gives to the artifact. *)
Lemma process_image_job_outputs_follow w p job jid iid u s result s' :
  job_id job = Some jid → image_id job = Some iid → url job = Some u →
  process_image_job w p job s = (inr result, s') →
  outputs_follow p iid (get_resize_formats job) (get_output_formats job)
    (r_outputs result).
Proof.
  intros Hj Hi Hu.
  rewrite (process_image_job_keys w p job jid iid u s Hj Hi Hu).
  unfold try_stages.
  pose proof (job_stages_follows w p iid _ _ job jid u eq_refl eq_refl
                (tick s, initial_result jid iid u (utcnow_at w (clock s)))) as Hinv.
  unfold follows in Hinv.
  assert (Hinit : outputs_follow p iid (get_resize_formats job)
                    (get_output_formats job)
                    (r_outputs (initial_result jid iid u (utcnow_at w (clock s))))).
  { repeat split; simpl; discriminate. }
  specialize (Hinv Hinit).
  destruct (job_stages w p job jid iid u _) as [[e | []] [s1 r1]];
    simpl in Hinv; intros [= <- _]; exact Hinv.
Qed.

(** ** The paths a run writes *)

(** Equalities between unions of sets of paths. *)
Ltac sets := set_unfold; intros; tauto.

Section Written.
Context (w : World) (p : ImageProcessor).

(** One upload: what it adds to the bucket, and whether it returns. *)
Lemma upload_to_storage_written data path ctype meta s :
  dom (bucket (snd (upload_to_storage w p data path ctype meta s)))
  = dom (bucket s) ∪ list_to_set (fst (uploaded w data path ctype))
  ∧ match fst (upload_to_storage w p data path ctype meta s) with
    | inr _ => snd (uploaded w data path ctype) = true
    | inl _ => snd (uploaded w data path ctype) = false
    end.
Proof.
  unfold upload_to_storage, uploaded.
  destruct (upload_from_string w path data ctype); simpl.
  - split; [sets | reflexivity].
  - destruct (make_public w path); simpl; rewrite dom_insert_L;
      (split; [sets | reflexivity]).
Qed.

Lemma on_sys_upload_written data path ctype meta sr :
  dom (bucket (fst (snd (on_sys (upload_to_storage w p data path ctype meta) sr))))
  = dom (bucket (fst sr)) ∪ list_to_set (fst (uploaded w data path ctype))
  ∧ match fst (on_sys (upload_to_storage w p data path ctype meta) sr) with
    | inr _ => snd (uploaded w data path ctype) = true
    | inl _ => snd (uploaded w data path ctype) = false
    end
  ∧ snd (snd (on_sys (upload_to_storage w p data path ctype meta) sr)) = snd sr.
Proof.
  destruct sr as [s r]. rewrite on_sys_run. cbn [fst snd].
  destruct (upload_to_storage_written data path ctype meta s) as [Hdom Hres].
  auto.
Qed.

Lemma upload_variant_written jid iid item sr :
  let up := uploaded w (snd item) (resized_path iid (fst item)) "image/jpeg" in
  dom (bucket (fst (snd (upload_variant w p jid iid item sr))))
  = dom (bucket (fst sr)) ∪ list_to_set (fst up)
  ∧ match fst (upload_variant w p jid iid item sr) with
    | inr _ => snd up = true
    | inl _ => snd up = false
    end.
Proof.
  intros up. unfold upload_variant. rewrite bind_run.
  destruct (on_sys_upload_written (snd item) (resized_path iid (fst item)) "image/jpeg"
              [("job_id", jid); ("type", "resized"); ("variant", fst item)] sr)
    as (Hdom & Hres & _).
  destruct (on_sys _ sr) as [[e | loc] [s1 r1]]; simpl in *; auto.
Qed.

Lemma upload_loop_written jid iid items sr :
  dom (bucket (fst (snd (for_each (upload_variant w p jid iid) items sr))))
  = dom (bucket (fst sr)) ∪ list_to_set (variants_written w iid items).
Proof.
  revert sr. induction items as [| item items IH]; intros sr.
  - simpl. sets.
  - cbn [for_each variants_written]. rewrite bind_run.
    destruct (upload_variant_written jid iid item sr) as [Hdom Hres].
    cbv zeta in Hdom, Hres.
    destruct (upload_variant w p jid iid item sr) as [[e | []] sr1];
      cbn [fst snd] in *; rewrite Hres, list_to_set_app_L.
    + rewrite Hdom. sets.
    + rewrite IH, Hdom. sets.
Qed.

Lemma thumbnail_stage_written jid iid data sr :
  let th := thumbnail_written w iid data true in
  dom (bucket (fst (snd (thumbnail_stage w p jid iid data sr))))
  = dom (bucket (fst sr)) ∪ list_to_set (fst th)
  ∧ match fst (thumbnail_stage w p jid iid data sr) with
    | inr _ => snd th = true
    | inl _ => snd th = false
    end.
Proof.
  unfold thumbnail_stage, thumbnail_written. rewrite bind_run, lift_run.
  destruct (create_thumbnail w data) as [e | td]; simpl.
  - split; [sets | reflexivity].
  - rewrite bind_run.
    destruct (on_sys_upload_written td (thumbnail_path iid) "image/jpeg"
                [("job_id", jid); ("type", "thumbnail")] sr)
      as (Hdom & Hres & _).
    destruct (on_sys _ sr) as [[e | loc] [s1 r1]]; simpl in *; auto.
Qed.

Lemma resize_stage_written jid iid data sizes formats sr :
  dom (bucket (fst (snd (resize_stage w p jid iid data sizes formats sr))))
  = dom (bucket (fst sr))
    ∪ list_to_set (variants_written w iid (resize_image w data sizes formats)).
Proof.
  unfold resize_stage. rewrite bind_run. destruct sr as [s r].
  rewrite update_result_run, upload_loop_written. reflexivity.
Qed.

(** Steps 4 and 5. *)
Lemma derived_stages_written job jid iid data sr :
  let th := thumbnail_written w iid data (get_create_thumbnail job) in
  dom (bucket (fst (snd (derived_stages w p job jid iid data sr))))
  = dom (bucket (fst sr))
    ∪ list_to_set
        (fst th ++
         (if snd th then
            match get_resize_formats job with
            | [] => []
            | _ :: _ =>
                variants_written w iid
                  (resize_image w data (get_resize_formats job) (get_output_formats job))
            end
          else [])).
Proof.
  intros th. unfold derived_stages.
  set (step4 := if get_create_thumbnail job then _ else _).
  set (step5 := match get_resize_formats job with [] => _ | _ :: _ => _ end).
  rewrite bind_run, list_to_set_app_L.
  assert (Hth :
    dom (bucket (fst (snd (step4 sr))))
    = dom (bucket (fst sr)) ∪ list_to_set (fst th)
    ∧ match fst (step4 sr) with
      | inr _ => snd th = true
      | inl _ => snd th = false
      end).
  { unfold th, step4. destruct (get_create_thumbnail job).
    - apply thumbnail_stage_written.
    - simpl. split; [sets | reflexivity]. }
  destruct Hth as [Hdom Hres].
  destruct (step4 sr) as [[e | []] sr1]; cbn [fst snd] in *; rewrite Hres.
  - rewrite Hdom. sets.
  - rewrite bind_run.
    assert (Hrs :
      dom (bucket (fst (snd (step5 sr1))))
      = dom (bucket (fst sr1))
        ∪ list_to_set
            match get_resize_formats job with
            | [] => []
            | _ :: _ =>
                variants_written w iid
                  (resize_image w data (get_resize_formats job) (get_output_formats job))
            end).
    { unfold step5. destruct (get_resize_formats job) eqn:E.
      - simpl. sets.
      - rewrite <- E. apply resize_stage_written. }
    rewrite (assoc_L (∪)), <- Hdom, <- Hrs.
    destruct (step5 sr1) as [[e | []] [s2 r2]]; reflexivity.
Qed.

End Written.

Section WrittenByJob.
Context (w : World) (p : ImageProcessor).

Lemma job_stages_written job jid iid u sr :
  dom (bucket (fst (snd (job_stages w p job jid iid u sr))))
  = dom (bucket (fst sr))
    ∪ list_to_set (written_paths w p iid u (get_create_thumbnail job)
                     (get_resize_formats job) (get_output_formats job)).
Proof.
  destruct sr as [s r]. unfold job_stages, written_paths.
  rewrite bind_run, on_sys_run. unfold download_image.
  destruct (download_body w p u) as [e | [[data ctype] st]].
  - simpl. sets.
  - rewrite bind_run, utcnow_run. cbn [fst snd mret ST_ret].
    rewrite bind_run, update_result_run.
    rewrite bind_run, update_result_run.
    rewrite bind_run. cbn [dm_content_type].
    match goal with
    | |- context [on_sys (upload_to_storage w p data ?path ctype ?meta) ?sr0] =>
        destruct (on_sys_upload_written w p data path ctype meta sr0)
          as (Hdom & Hres & Hr);
        destruct (on_sys (upload_to_storage w p data path ctype meta) sr0)
          as [[e | loc] [s1 r1]]
    end; cbn [fst snd] in *; rewrite Hres, list_to_set_app_L.
    + rewrite Hdom. sets.
    + rewrite bind_run, update_result_run.
      rewrite derived_stages_written. cbn [fst snd].
      rewrite Hdom. sets.
Qed.

(** The paths in the bucket after a run are those before it and the
    written paths. *)
Lemma process_image_job_written job jid iid u s :
  job_id job = Some jid → image_id job = Some iid → url job = Some u →
  dom (bucket (snd (process_image_job w p job s)))
  = dom (bucket s)
    ∪ list_to_set (written_paths w p iid u (get_create_thumbnail job)
                     (get_resize_formats job) (get_output_formats job)).
Proof.
  intros Hj Hi Hu.
  rewrite (process_image_job_keys w p job jid iid u s Hj Hi Hu).
  unfold try_stages.
  pose proof (job_stages_written job jid iid u
                (tick s, initial_result jid iid u (utcnow_at w (clock s)))) as Hdom.
  destruct (job_stages w p job jid iid u _) as [[e | []] [s1 r1]];
    cbn [fst snd] in *; exact Hdom.
Qed.

Lemma uploaded_path data path ctype x :
  x ∈ fst (uploaded w data path ctype) → x = path.
Proof.
  unfold uploaded. destruct (upload_from_string w path data ctype); simpl.
  - intros H. inversion H.
  - intros H%list_elem_of_singleton. exact H.
Qed.

Lemma variants_written_named iid items x :
  x ∈ variants_written w iid items →
  ∃ k, k ∈ items.*1 ∧ x = resized_path iid k.
Proof.
  induction items as [| item items IH]; simpl.
  - intros H. inversion H.
  - rewrite elem_of_app. intros [H | H].
    + apply uploaded_path in H. exists (fst item). split; [left | exact H].
    + destruct (snd (uploaded w (snd item) _ _)); [| inversion H].
      destruct (IH H) as (k & Hk & ->). exists k. split; [right; exact Hk | reflexivity].
Qed.

(** Whatever the collaborators do, a run writes only paths of the naming
    scheme. *)
Lemma written_paths_named iid u thumb sizes formats x :
  x ∈ written_paths w p iid u thumb sizes formats →
  x ∈ artifact_paths iid sizes formats.
Proof.
  unfold written_paths, artifact_paths.
  destruct (download_body w p u) as [e | [[data ctype] st]];
    [intros H; inversion H |].
  rewrite elem_of_app. intros [H | H].
  { apply uploaded_path in H as ->. left. }
  destruct (snd (uploaded w data (original_path iid) ctype)); [| inversion H].
  apply elem_of_app in H as [H | H].
  { unfold thumbnail_written in H.
    destruct thumb; [| inversion H].
    destruct (create_thumbnail w data); [inversion H |].
    apply uploaded_path in H as ->. right; left. }
  destruct (snd (thumbnail_written w iid data thumb)); [| inversion H].
  destruct sizes as [| size rest] eqn:E; [inversion H |]. rewrite <- E in *.
  apply variants_written_named in H as (k & Hk & ->).
  right; right. apply list_elem_of_fmap. exists k. split; [reflexivity |].
  exact (resize_image_keys w sizes formats data k Hk).
Qed.

End WrittenByJob.

(** ** C7: the storage path of each artifact *)

(** C7, as the code has it.  Every path that a job writes to the bucket is
    "original/{image_id}/{image_id}_original.jpg",
    "thumbnails/{image_id}/{image_id}_thumb.jpg" or
    "resized/{image_id}/{image_id}_{size}_{format}" for a requested size
    and a requested format in lower case, and every locator in the outputs
    of the result is "gs://{bucket}/" followed by the path of its artifact.
    The original and the thumbnail carry the suffix ".jpg"; a resized
    variant carries none. *)
Theorem artifact_paths_follow_templates (w : World) (p : ImageProcessor)
    (job : Job) (jid iid u : string) (s s' : Sys) (result : Result) :
  job_id job = Some jid → image_id job = Some iid → url job = Some u →
  process_image_job w p job s = (inr result, s') →
  (∀ path, path ∈ dom (bucket s') →
     path ∈ dom (bucket s)
     ∨ path = "original/" +:+ iid +:+ "/" +:+ iid +:+ "_original.jpg"
     ∨ path = "thumbnails/" +:+ iid +:+ "/" +:+ iid +:+ "_thumb.jpg"
     ∨ ∃ size fmt,
         size ∈ get_resize_formats job ∧ fmt ∈ get_output_formats job
         ∧ path = "resized/" +:+ iid +:+ "/" +:+ iid +:+ "_" +:+ size
                  +:+ "_" +:+ Py.lower fmt)
  ∧ (∀ loc, out_original (r_outputs result) = Some loc →
       loc = "gs://" +:+ bucket_name p +:+ "/original/" +:+ iid +:+ "/" +:+ iid
             +:+ "_original.jpg")
  ∧ (∀ loc, out_thumbnail (r_outputs result) = Some loc →
       loc = "gs://" +:+ bucket_name p +:+ "/thumbnails/" +:+ iid +:+ "/" +:+ iid
             +:+ "_thumb.jpg")
  ∧ (∀ m k loc, out_resized (r_outputs result) = Some m → m !! k = Some loc →
       loc = "gs://" +:+ bucket_name p +:+ "/resized/" +:+ iid +:+ "/" +:+ iid
             +:+ "_" +:+ k
       ∧ ∃ size fmt,
           size ∈ get_resize_formats job ∧ fmt ∈ get_output_formats job
           ∧ k = size +:+ "_" +:+ Py.lower fmt).
Proof.
  intros Hj Hi Hu Hrun.
  destruct (process_image_job_outputs_follow w p job jid iid u s result s'
              Hj Hi Hu Hrun) as (Ho & Ht & Hr).
  split; [| split; [exact Ho | split; [exact Ht |]]].
  - intros path Hpath.
    pose proof (process_image_job_written w p job jid iid u s Hj Hi Hu) as Hdom.
    rewrite Hrun in Hdom. cbn [snd] in Hdom. rewrite Hdom in Hpath.
    apply elem_of_union in Hpath as [Hold | Hnew]; [left; exact Hold | right].
    apply elem_of_list_to_set, written_paths_named in Hnew.
    unfold artifact_paths in Hnew.
    apply elem_of_cons in Hnew as [-> | Hnew]; [left; reflexivity |].
    apply elem_of_cons in Hnew as [-> | Hnew]; [right; left; reflexivity |].
    right; right.
    apply list_elem_of_fmap in Hnew as (k & -> & Hk).
    apply variant_keys_spec in Hk as (size & fmt & Hsize & Hfmt & ->).
    exists size, fmt. auto.
  - intros m k loc Hm Hk. destruct (Hr m k loc Hm Hk) as [Hkey ->].
    split; [reflexivity |]. apply variant_keys_spec. exact Hkey.
Qed.

Lemma artifact_paths_follow_templates_witness :
  ∃ result s',
    process_image_job Samples.w_ok Samples.proc (Samples.job None) Samples.sys0
    = (inr result, s')
    ∧ (∀ path, path ∈ dom (bucket s') →
         path ∈ dom (bucket Samples.sys0)
         ∨ path = "original/img-1/img-1_original.jpg"
         ∨ path = "thumbnails/img-1/img-1_thumb.jpg"
         ∨ ∃ size fmt,
             size ∈ ["400x300"] ∧ fmt ∈ ["jpeg"]
             ∧ path = "resized/img-1/img-1_" +:+ size +:+ "_" +:+ Py.lower fmt)
    ∧ (∀ loc, out_original (r_outputs result) = Some loc →
         loc = "gs://pixelpipe-images/original/img-1/img-1_original.jpg").
Proof.
  destruct (process_image_job_terminal Samples.w_ok Samples.proc
              (Samples.job None) "job-1" "img-1" "https://example.com/a.png"
              Samples.sys0 eq_refl eq_refl eq_refl)
    as (result & s' & Hrun & _).
  exists result, s'. split; [exact Hrun |].
  destruct (artifact_paths_follow_templates Samples.w_ok Samples.proc
              (Samples.job None) "job-1" "img-1" "https://example.com/a.png"
              Samples.sys0 s' result eq_refl eq_refl eq_refl Hrun)
    as (Hpaths & Horiginal & _).
  split; [exact Hpaths | exact Horiginal].
Defined.

(** C7 fails as stated: the job on image "img-1" stores its original under
    "original/img-1/img-1_original.jpg" and its thumbnail under
    "thumbnails/img-1/img-1_thumb.jpg"; nothing is stored under the
    templates without the suffix. *)
Lemma stored_paths_carry_jpg_suffix :
  map fst (map_to_list (bucket (snd (process_image_job Samples.w_ok Samples.proc
                                       (Samples.job None) Samples.sys0))))
  = ["original/img-1/img-1_original.jpg";
     "resized/img-1/img-1_400x300_jpeg";
     "thumbnails/img-1/img-1_thumb.jpg"]
  ∧ bucket (snd (process_image_job Samples.w_ok Samples.proc
                   (Samples.job None) Samples.sys0))
    !! "original/img-1/img-1_original" = None
  ∧ bucket (snd (process_image_job Samples.w_ok Samples.proc
                   (Samples.job None) Samples.sys0))
    !! "thumbnails/img-1/img-1_thumb" = None
  ∧ original_path "img-1" ≠ "original/img-1/img-1_original"
  ∧ thumbnail_path "img-1" ≠ "thumbnails/img-1/img-1_thumb".
Proof.
  split; [vm_compute; reflexivity |].
  split; [vm_compute; reflexivity |].
  split; [vm_compute; reflexivity |].
  split; discriminate.
Qed.

(** ** C8: re-processing an image *)

(** C8, as the code has it.  The set of paths that a run writes is a
    function of the collaborators, the image id, the URL and the
    processing options only: two runs that agree on these write the same
    set, whatever their job ids, clocks and buckets, and running the job
    again adds no path to the bucket.  Runs on the same image id and
    options that meet different collaborators (or URLs) may write
    different sets, but always subsets of one set of names fixed by the
    image id and the (size, format) variants. *)
Theorem reprocessing_writes_same_paths (w : World) (p : ImageProcessor)
    (j1 j2 : Job) (jid1 jid2 iid u : string) (s1 s2 : Sys) :
  job_id j1 = Some jid1 → job_id j2 = Some jid2 →
  image_id j1 = Some iid → image_id j2 = Some iid →
  url j1 = Some u → url j2 = Some u →
  processing_options j1 = processing_options j2 →
  let sizes := get_resize_formats j1 in
  let formats := get_output_formats j1 in
  let W : gset string :=
    list_to_set (written_paths w p iid u (get_create_thumbnail j1) sizes formats) in
  dom (bucket (snd (process_image_job w p j1 s1))) = dom (bucket s1) ∪ W
  ∧ dom (bucket (snd (process_image_job w p j2 s2))) = dom (bucket s2) ∪ W
  ∧ dom (bucket (snd (process_image_job w p j2
                        (snd (process_image_job w p j1 s1)))))
    = dom (bucket (snd (process_image_job w p j1 s1)))
  ∧ ∀ (w' : World) (j : Job) (jid' u' : string) (s : Sys) (path : string),
      job_id j = Some jid' → image_id j = Some iid → url j = Some u' →
      processing_options j = processing_options j1 →
      path ∈ dom (bucket (snd (process_image_job w' p j s))) →
      path ∈ dom (bucket s) ∨ path ∈ artifact_paths iid sizes formats.
Proof.
  intros Hj1 Hj2 Hi1 Hi2 Hu1 Hu2 Hopts sizes formats W.
  assert (Hsame : ∀ j, processing_options j = processing_options j1 →
            get_create_thumbnail j = get_create_thumbnail j1
            ∧ get_resize_formats j = sizes ∧ get_output_formats j = formats).
  { intros j Hj. unfold get_create_thumbnail, get_resize_formats,
      get_output_formats, get_processing_options, sizes, formats.
    rewrite Hj. auto. }
  destruct (Hsame j2 (eq_sym Hopts)) as (Hth & Hsz & Hfm).
  pose proof (process_image_job_written w p j1 jid1 iid u s1 Hj1 Hi1 Hu1) as H1.
  assert (H2 : ∀ s, dom (bucket (snd (process_image_job w p j2 s)))
                    = dom (bucket s) ∪ W).
  { intros s. rewrite (process_image_job_written w p j2 jid2 iid u s Hj2 Hi2 Hu2).
    rewrite Hth, Hsz, Hfm. reflexivity. }
  split; [exact H1 |]. split; [apply H2 |]. split.
  - rewrite H2, H1. fold sizes formats W. sets.
  - intros w' j jid' u' s path Hj Hi Hu Hjo Hpath.
    destruct (Hsame j Hjo) as (Hth' & Hsz' & Hfm').
    rewrite (process_image_job_written w' p j jid' iid u' s Hj Hi Hu) in Hpath.
    apply elem_of_union in Hpath as [Hold | Hnew]; [left; exact Hold | right].
    apply elem_of_list_to_set, written_paths_named in Hnew.
    rewrite Hsz', Hfm' in Hnew. exact Hnew.
Qed.

Lemma reprocessing_writes_same_paths_witness :
  dom (bucket (snd (process_image_job Samples.w_ok Samples.proc (Samples.job None)
                      (snd (process_image_job Samples.w_ok Samples.proc
                              (Samples.job None) Samples.sys0)))))
  = dom (bucket (snd (process_image_job Samples.w_ok Samples.proc
                        (Samples.job None) Samples.sys0))).
Proof.
  exact (proj1 (proj2 (proj2
           (reprocessing_writes_same_paths Samples.w_ok Samples.proc
              (Samples.job None) (Samples.job None) "job-1" "job-1" "img-1"
              "https://example.com/a.png" Samples.sys0 Samples.sys0
              eq_refl eq_refl eq_refl eq_refl eq_refl eq_refl eq_refl)))).
Defined.

(** C8 fails as stated.  Redelivery: job-1 run while its URL answers 404
    writes no path, and the same job run when the URL answers 200 writes
    three.  One server: two jobs on image img-1 with the same options,
    one with a URL that answers 404, write different sets as well. *)
Lemma runs_on_one_image_differ_in_paths :
  map fst (map_to_list (bucket (snd (process_image_job Samples.w_404 Samples.proc
                                       (Samples.job None) Samples.sys0))))
  = []
  ∧ map fst (map_to_list (bucket (snd (process_image_job Samples.w_ok Samples.proc
                                         (Samples.job None) Samples.sys0))))
    = ["original/img-1/img-1_original.jpg";
       "resized/img-1/img-1_400x300_jpeg";
       "thumbnails/img-1/img-1_thumb.jpg"]
  ∧ image_id Samples.job_gone = image_id (Samples.job None)
  ∧ processing_options Samples.job_gone = processing_options (Samples.job None)
  ∧ map fst (map_to_list (bucket (snd (process_image_job Samples.w_mixed Samples.proc
                                         Samples.job_gone Samples.sys0))))
    = []
  ∧ map fst (map_to_list (bucket (snd (process_image_job Samples.w_mixed Samples.proc
                                         (Samples.job None) Samples.sys0))))
    = ["original/img-1/img-1_original.jpg";
       "resized/img-1/img-1_400x300_jpeg";
       "thumbnails/img-1/img-1_thumb.jpg"].
Proof. repeat split; vm_compute; reflexivity. Qed.

(** ** C9: POST /process *)

Lemma add_required_fields_run w job_data s :
  ∃ j s',
    add_required_fields w job_data s = (inr j, s')
    ∧ job_id j = Some (default (uuid4_at w (uuids s)) (job_id job_data))
    ∧ image_id j
      = Some (default (uuid4_at w (uuids s + match job_id job_data with
                                             | Some _ => 0
                                             | None => 1
                                             end)%nat)
                (image_id job_data))
    ∧ url j = url job_data.
Proof.
  unfold add_required_fields.
  destruct (job_id job_data) as [jid |] eqn:Hj,
           (image_id job_data) as [iid |] eqn:Hi;
    (eexists _, _; split;
     [rewrite bind_run; simpl; rewrite Hi; reflexivity |]);
    simpl; rewrite ?Hj, ?Hi, ?Nat.add_0_r, ?Nat.add_1_r; repeat split.
Qed.




(** ** Binary64 arithmetic on numbers of moderate size

    The kernel's floats are specified by [SpecFloat]; the lemmas below
    follow a positive normal number through rounding, to show that the
    quotients and products of [aspect_fit] are finite. *)

Lemma digits2_pos_log2 p : Zpos (digits2_pos p) = Z.log2 (Zpos p) + 1.
Proof.
  assert (Hsize : ∀ q, digits2_pos q = Pos.size q).
  { induction q as [q IH | q IH |]; simpl; congruence. }
  rewrite Hsize. destruct p as [p | p |]; simpl; try reflexivity;
    rewrite Pos2Z.inj_succ; lia.
Qed.

Lemma log2_bounds m d : 0 < m → (Z.log2 m + 1 = d ↔ 2 ^ (d - 1) ≤ m < 2 ^ d).
Proof.
  intros Hm. split.
  - intros <-. replace (Z.log2 m + 1 - 1) with (Z.log2 m) by lia.
    pose proof (Z.log2_spec m Hm). unfold Z.succ in *. lia.
  - intros H. assert (0 ≤ d - 1).
    { destruct (Z_lt_le_dec (d - 1) 0) as [Hneg | Hpos]; [| exact Hpos].
      assert (d ≤ 0) by lia.
      assert (2 ^ d ≤ 1).
      { destruct (Z.eq_dec d 0) as [-> | Hne]; [simpl; lia |].
        rewrite Z.pow_neg_r by lia. lia. }
      lia. }
    rewrite (Z.log2_unique m (d - 1)); [lia | lia |].
    replace (Z.succ (d - 1)) with d by lia. exact H.
Qed.

Lemma shr_1_m mrs : 0 ≤ shr_m mrs → shr_m (shr_1 mrs) = shr_m mrs / 2.
Proof.
  destruct mrs as [m r s]. cbn [shr_m]. intros Hm.
  destruct m as [| [p | p |] | p]; cbn [shr_1 shr_m];
    first [ reflexivity
          | apply Z.div_unique with 1; lia
          | apply Z.div_unique with 0; lia
          | lia ].
Qed.

Lemma iter_shr_m p mrs :
  0 ≤ shr_m mrs → shr_m (SpecFloat.iter_pos shr_1 p mrs) = shr_m mrs / 2 ^ Zpos p.
Proof.
  revert mrs. induction p as [p IH | p IH |]; intros mrs Hm; simpl SpecFloat.iter_pos.
  - assert (H1 : 0 ≤ shr_m (shr_1 mrs)) by (rewrite shr_1_m by lia; apply Z.div_pos; lia).
    assert (H2 : 0 ≤ shr_m (SpecFloat.iter_pos shr_1 p (shr_1 mrs)))
      by (rewrite IH by lia; apply Z.div_pos; lia).
    rewrite IH, IH, shr_1_m by lia.
    rewrite !Z.div_div by lia. f_equal.
    replace (Zpos p~1) with (1 + Zpos p + Zpos p) by lia.
    rewrite !Z.pow_add_r by lia. change (2 ^ 1) with 2. ring.
  - assert (H2 : 0 ≤ shr_m (SpecFloat.iter_pos shr_1 p mrs))
      by (rewrite IH by lia; apply Z.div_pos; lia).
    rewrite IH, IH by lia.
    rewrite !Z.div_div by lia. f_equal.
    replace (Zpos p~0) with (Zpos p + Zpos p) by lia.
    rewrite !Z.pow_add_r by lia. change (2 ^ 1) with 2. ring.
  - rewrite shr_1_m by lia. reflexivity.
Qed.

Lemma Zdigits2_log2 m : 0 < m → Zdigits2 m = Z.log2 m + 1.
Proof. destruct m as [| p | p]; try lia. intros _. apply digits2_pos_log2. Qed.

Lemma shr_spec mrs e n :
  0 ≤ shr_m mrs → 0 ≤ n →
  shr_m (fst (shr mrs e n)) = shr_m mrs / 2 ^ n ∧ snd (shr mrs e n) = e + n.
Proof.
  intros Hm Hn. destruct n as [| p | p]; try lia; simpl.
  - rewrite Z.div_1_r. lia.
  - rewrite iter_shr_m by exact Hm. auto.
Qed.

Lemma shr_record_of_loc_m m l : shr_m (shr_record_of_loc m l) = m.
Proof. destruct l as [| []]; reflexivity. Qed.

Lemma round_nearest_even_cases m l :
  round_nearest_even m l = m ∨ round_nearest_even m l = m + 1.
Proof. destruct l as [| []]; simpl; auto. destruct (Z.even m); auto. Qed.

Lemma binary_round_aux_normal mx ex lx d :
  0 < mx → Z.log2 mx + 1 = d → 53 ≤ d →
  -1021 ≤ d + ex → d + ex + 1 ≤ 1024 →
  normal_pos (d + ex) (d + ex + 1) (binary_round_aux prec emax false mx ex lx).
Proof.
  intros Hmx Hd Hprec Hlo Hhi.
  pose proof (proj1 (log2_bounds mx d Hmx) Hd) as Hbounds.
  unfold binary_round_aux, shr_fexp.
  rewrite (Zdigits2_log2 mx Hmx), Hd.
  assert (Hfexp : ∀ E, -1021 ≤ E → fexp prec emax E = E - 53).
  { intros E HE. unfold fexp, SpecFloat.emin, prec, emax. lia. }
  rewrite (Hfexp (d + ex) Hlo).
  destruct (shr_spec (shr_record_of_loc mx lx) ex (d + ex - 53 - ex)) as [Hm1 He1];
    [rewrite shr_record_of_loc_m; lia | lia |].
  destruct (shr (shr_record_of_loc mx lx) ex (d + ex - 53 - ex)) as [mrs1 e1].
  cbn [fst snd] in Hm1, He1. rewrite shr_record_of_loc_m in Hm1.
  replace (d + ex - 53 - ex) with (d - 53) in Hm1 by lia.
  assert (Hm1b : 2 ^ 52 ≤ shr_m mrs1 < 2 ^ 53).
  { rewrite Hm1.
    assert (Hp : 0 < 2 ^ (d - 53)) by (apply Z.pow_pos_nonneg; lia).
    assert (E1 : 2 ^ (d - 1) = 2 ^ 52 * 2 ^ (d - 53))
      by (rewrite <- Z.pow_add_r by lia; f_equal; lia).
    assert (E2 : 2 ^ d = 2 ^ 53 * 2 ^ (d - 53))
      by (rewrite <- Z.pow_add_r by lia; f_equal; lia).
    split.
    - apply Z.div_le_lower_bound; [exact Hp |]. rewrite Z.mul_comm, <- E1. lia.
    - apply Z.div_lt_upper_bound; [exact Hp |]. rewrite Z.mul_comm, <- E2. lia. }
  set (mr := round_nearest_even (shr_m mrs1) (loc_of_shr_record mrs1)).
  assert (Hmr : 2 ^ 52 ≤ mr ≤ 2 ^ 53).
  { unfold mr.
    destruct (round_nearest_even_cases (shr_m mrs1) (loc_of_shr_record mrs1))
      as [-> | ->]; lia. }
  assert (Hmr0 : 0 < mr) by (assert (0 < 2 ^ 52) by (apply Z.pow_pos_nonneg; lia); lia).
  rewrite (Zdigits2_log2 mr Hmr0).
  assert (He1lo : -1074 ≤ e1) by lia.
  destruct (Z.eq_dec mr (2 ^ 53)) as [Hcarry | Hnocarry].
  - assert (Hlog : Z.log2 mr + 1 = 54).
    { apply log2_bounds; [exact Hmr0 |]. rewrite Hcarry.
      change (54 - 1) with 53. split; [lia |]. apply Z.pow_lt_mono_r; lia. }
    rewrite Hlog, (Hfexp (54 + e1)) by lia.
    replace (54 + e1 - 53 - e1) with 1 by lia.
    cbn [shr SpecFloat.iter_pos].
    assert (Hm2 : shr_m (shr_1 (shr_record_of_loc mr loc_Exact)) = 2 ^ 52).
    { rewrite shr_1_m by (rewrite shr_record_of_loc_m; lia).
      rewrite shr_record_of_loc_m, Hcarry. reflexivity. }
    rewrite Hm2. change (2 ^ 52) with (Zpos (2 ^ 52)%positive).
    cbn iota.
    replace (e1 + 1 <=? emax - prec) with true
      by (symmetry; apply Z.leb_le; unfold emax, prec; lia).
    eexists _, _. split; [reflexivity |]. split; [reflexivity | lia].
  - assert (Hlog : Z.log2 mr + 1 = 53).
    { apply log2_bounds; [exact Hmr0 |]. change (53 - 1) with 52. lia. }
    rewrite Hlog, (Hfexp (53 + e1)) by lia.
    replace (53 + e1 - 53 - e1) with 0 by lia.
    cbn [shr]. rewrite shr_record_of_loc_m.
    destruct mr as [| q | q] eqn:Hq; try lia.
    replace (e1 <=? emax - prec) with true
      by (symmetry; apply Z.leb_le; unfold emax, prec; lia).
    eexists _, _. split; [reflexivity |].
    split; [rewrite digits2_pos_log2; exact Hlog | lia].
Qed.

Lemma normal_pos_weaken lo hi lo' hi' x :
  normal_pos lo hi x → lo' ≤ lo → hi ≤ hi' → normal_pos lo' hi' x.
Proof. intros (m & e & -> & Hd & He) Hlo Hhi. exists m, e. repeat split; lia. Qed.

Lemma Pos_iter_xO p k : Zpos (Pos.iter xO p k) = Zpos p * 2 ^ Zpos k.
Proof.
  induction k as [| k IH] using Pos.peano_ind.
  - simpl. lia.
  - rewrite Pos.iter_succ, Pos2Z.inj_xO, IH, Pos2Z.inj_succ, Z.pow_succ_r by lia.
    ring.
Qed.

Lemma binary_normalize_normal z :
  0 < z < 2 ^ 63 → normal_pos 1 64 (binary_normalize prec emax z 0 false).
Proof.
  intros [Hz Hlt]. destruct z as [| p | p]; try lia.
  unfold binary_normalize, binary_round.
  set (d := Zpos (digits2_pos p)).
  assert (Hd : Z.log2 (Zpos p) + 1 = d) by (symmetry; apply digits2_pos_log2).
  pose proof (proj1 (log2_bounds (Zpos p) d Hz) Hd) as Hb.
  assert (Hd1 : 1 ≤ d) by (unfold d; lia).
  assert (Hd63 : d ≤ 63).
  { destruct (Z_le_gt_dec d 63) as [H | H]; [exact H |].
    assert (2 ^ 63 ≤ 2 ^ (d - 1)) by (apply Z.pow_le_mono_r; lia). lia. }
  replace (fexp prec emax (d + 0)) with (d - 53)
    by (unfold fexp, SpecFloat.emin, prec, emax; lia).
  unfold shl_align.
  destruct (d - 53 - 0) as [| k | k] eqn:Hk.
  - eapply normal_pos_weaken;
      [apply (binary_round_aux_normal (Zpos p) 0 loc_Exact d); lia | lia | lia].
  - eapply normal_pos_weaken;
      [apply (binary_round_aux_normal (Zpos p) 0 loc_Exact d); lia | lia | lia].
  - assert (Hk' : Zpos k = 53 - d) by lia.
    eapply normal_pos_weaken;
      [apply (binary_round_aux_normal (Zpos (Pos.iter xO p k)) (d - 53) loc_Exact 53);
       try lia | lia | lia].
    apply log2_bounds; [lia |].
    rewrite Pos_iter_xO, Hk'. change (53 - 1) with 52.
    assert (E1 : 2 ^ 52 = 2 ^ (d - 1) * 2 ^ (53 - d))
      by (rewrite <- Z.pow_add_r by lia; f_equal; lia).
    assert (E2 : 2 ^ 53 = 2 ^ d * 2 ^ (53 - d))
      by (rewrite <- Z.pow_add_r by lia; f_equal; lia).
    assert (Hp : 0 < 2 ^ (53 - d)) by (apply Z.pow_pos_nonneg; lia).
    rewrite E1, E2. split.
    + apply Z.mul_le_mono_nonneg_r; lia.
    + apply Z.mul_lt_mono_pos_r; lia.
Qed.

Lemma SFdiv_normal lo1 hi1 lo2 hi2 x y :
  normal_pos lo1 hi1 x → normal_pos lo2 hi2 y →
  -1021 ≤ lo1 - hi2 → hi1 - lo2 + 2 ≤ 1024 →
  normal_pos (lo1 - hi2) (hi1 - lo2 + 2) (SF64div x y).
Proof.
  intros (mx & ex & -> & Hdx & Hex) (my & ey & -> & Hdy & Hey) Hlo Hhi.
  unfold SF64div, SFdiv, SFdiv_core_binary.
  cbn [Zdigits2]. rewrite Hdx, Hdy.
  replace (fexp prec emax (53 + ex - (53 + ey))) with (ex - ey - 53)
    by (unfold fexp, SpecFloat.emin, prec, emax; lia).
  replace (Z.min (ex - ey - 53) (ex - ey)) with (ex - ey - 53) by lia.
  replace (ex - ey - (ex - ey - 53)) with 53 by lia.
  cbn iota. rewrite Z.shiftl_mul_pow2 by lia.
  rewrite digits2_pos_log2 in Hdx, Hdy.
  pose proof (proj1 (log2_bounds (Zpos mx) 53 ltac:(lia)) Hdx) as Hbx.
  pose proof (proj1 (log2_bounds (Zpos my) 53 ltac:(lia)) Hdy) as Hby.
  change (53 - 1) with 52 in Hbx, Hby.
  pose proof (Z.div_eucl_eq (Zpos mx * 2 ^ 53) (Zpos my) ltac:(lia)) as Heq.
  pose proof (Z.mod_pos_bound (Zpos mx * 2 ^ 53) (Zpos my) ltac:(lia)) as Hmod.
  unfold Z.modulo in Hmod.
  destruct (Z.div_eucl (Zpos mx * 2 ^ 53) (Zpos my)) as [q r].
  assert (Hq : 2 ^ 52 ≤ q < 2 ^ 54).
  { assert (E : 2 ^ 53 * 2 ^ 52 = 2 ^ 52 * 2 ^ 53) by ring.
    assert (E' : 2 ^ 54 = 2 * 2 ^ 53) by reflexivity.
    split; nia. }
  assert (Hq0 : 0 < q) by (assert (0 < 2 ^ 52) by reflexivity; lia).
  destruct (Z_lt_le_dec q (2 ^ 53)) as [Hsmall | Hbig].
  - eapply normal_pos_weaken;
      [apply (binary_round_aux_normal q (ex - ey - 53) _ 53); try lia | lia | lia].
    apply log2_bounds; [lia |]. change (53 - 1) with 52. lia.
  - eapply normal_pos_weaken;
      [apply (binary_round_aux_normal q (ex - ey - 53) _ 54); try lia | lia | lia].
    apply log2_bounds; [lia |]. change (54 - 1) with 53. lia.
Qed.

Lemma SFmul_normal lo1 hi1 lo2 hi2 x y :
  normal_pos lo1 hi1 x → normal_pos lo2 hi2 y →
  -1021 ≤ lo1 + lo2 - 1 → hi1 + hi2 + 1 ≤ 1024 →
  normal_pos (lo1 + lo2 - 1) (hi1 + hi2 + 1) (SF64mul x y).
Proof.
  intros (mx & ex & -> & Hdx & Hex) (my & ey & -> & Hdy & Hey) Hlo Hhi.
  unfold SF64mul, SFmul. cbn [xorb].
  rewrite digits2_pos_log2 in Hdx, Hdy.
  pose proof (proj1 (log2_bounds (Zpos mx) 53 ltac:(lia)) Hdx) as Hbx.
  pose proof (proj1 (log2_bounds (Zpos my) 53 ltac:(lia)) Hdy) as Hby.
  change (53 - 1) with 52 in Hbx, Hby.
  rewrite Pos2Z.inj_mul.
  assert (Hprod : 2 ^ 104 ≤ Zpos mx * Zpos my < 2 ^ 106).
  { assert (E : 2 ^ 104 = 2 ^ 52 * 2 ^ 52) by reflexivity.
    assert (E' : 2 ^ 106 = 2 ^ 53 * 2 ^ 53) by reflexivity.
    split; nia. }
  destruct (Z_lt_le_dec (Zpos mx * Zpos my) (2 ^ 105)) as [Hsmall | Hbig].
  - eapply normal_pos_weaken;
      [apply (binary_round_aux_normal _ (ex + ey) _ 105); try lia | lia | lia].
    apply log2_bounds; [lia |]. change (105 - 1) with 104. lia.
  - eapply normal_pos_weaken;
      [apply (binary_round_aux_normal _ (ex + ey) _ 106); try lia | lia | lia].
    apply log2_bounds; [lia |]. change (106 - 1) with 105. lia.
Qed.

Lemma float_of_int_normal z :
  0 < z < 2 ^ 53 → normal_pos 1 64 (Prim2SF (Py.float_of_int z)).
Proof.
  intros Hz. unfold Py.float_of_int.
  destruct (z <? 0) eqn:E; [lia |].
  rewrite of_uint63_spec, Uint63.of_Z_spec.
  assert (HwB : wB = 2 ^ 63) by reflexivity.
  assert (2 ^ 53 < 2 ^ 63) by reflexivity.
  rewrite Z.mod_small by lia.
  apply binary_normalize_normal. lia.
Qed.

Lemma int_of_float_normal lo hi x :
  normal_pos lo hi (Prim2SF x) → ∃ n, Py.int_of_float x = inr n.
Proof.
  intros (m & e & Hx & _). unfold Py.int_of_float. rewrite Hx. eauto.
Qed.

Lemma truediv_normal lo hi x y :
  normal_pos lo hi (Prim2SF y) → Py.truediv x y = inr (PrimFloat.div x y).
Proof.
  intros (m & e & Hy & _). unfold Py.truediv.
  rewrite FloatAxioms.eqb_spec, Hy. reflexivity.
Qed.

(** ** aspect_fit *)

(** For sides below 2^53, [aspect_fit] returns a pair, and it clamps one
    side to the requested one: the width when the image is wider than the
    target, the height otherwise. *)
Lemma aspect_fit_returns img_w img_h width height :
  0 < img_w < 2 ^ 53 → 0 < img_h < 2 ^ 53 →
  0 < width < 2 ^ 53 → 0 < height < 2 ^ 53 →
  ∃ new_width new_height,
    aspect_fit img_w img_h width height = inr (new_width, new_height)
    ∧ (new_width = width ∨ new_height = height).
Proof.
  intros Hw Hh HW HH. unfold aspect_fit, Py.truediv_int.
  destruct (img_h =? 0) eqn:E1; [lia |].
  destruct (height =? 0) eqn:E2; [lia |].
  cbn [mbind res_bind].
  set (img_ratio := PrimFloat.div (Py.float_of_int img_w) (Py.float_of_int img_h)).
  assert (Hratio : normal_pos (-63) 65 (Prim2SF img_ratio)).
  { unfold img_ratio. rewrite FloatAxioms.div_spec.
    eapply normal_pos_weaken;
      [apply (SFdiv_normal 1 64 1 64); try apply float_of_int_normal; lia | lia | lia]. }
  destruct (PrimFloat.ltb _ img_ratio).
  - rewrite (truediv_normal _ _ _ _ Hratio). cbn [mbind res_bind].
    assert (Hq : normal_pos (-64) 129
                   (Prim2SF (PrimFloat.div (Py.float_of_int width) img_ratio))).
    { rewrite FloatAxioms.div_spec.
      eapply normal_pos_weaken;
        [apply (SFdiv_normal 1 64 (-63) 65);
         [apply float_of_int_normal; lia | exact Hratio | lia | lia] | lia | lia]. }
    destruct (int_of_float_normal _ _ _ Hq) as (n & ->).
    eexists _, _. split; [reflexivity | auto].
  - assert (Hq : normal_pos (-63) 130
                   (Prim2SF (PrimFloat.mul (Py.float_of_int height) img_ratio))).
    { rewrite FloatAxioms.mul_spec.
      eapply normal_pos_weaken;
        [apply (SFmul_normal 1 64 (-63) 65);
         [apply float_of_int_normal; lia | exact Hratio | lia | lia] | lia | lia]. }
    destruct (int_of_float_normal _ _ _ Hq) as (n & ->).
    eexists _, _. split; [reflexivity | auto].
Qed.

(** ** aspect_fit against the exact quotient

    Each binary64 operation on normal numbers is within a factor
    1 +- 2^-52 of the real result; [int(...)] truncates.  For sides below
    2^24 this leaves the computed side at the exact floor, or one below
    it when the exact quotient is an integer. *)

(** The rounded mantissa, with the truncated mantissa [m'] it comes from. *)
Lemma binary_round_aux_value mx ex lx d :
  0 < mx → Z.log2 mx + 1 = d → 53 ≤ d →
  -1021 ≤ d + ex → d + ex + 1 ≤ 1024 →
  ∃ m e m',
    binary_round_aux prec emax false mx ex lx = S754_finite false m e
    ∧ Zpos (digits2_pos m) = 53
    ∧ d + ex ≤ 53 + e ≤ d + ex + 1
    ∧ 2 ^ 52 ≤ m' < 2 ^ 53
    ∧ m' * 2 ^ (d - 53) ≤ mx < (m' + 1) * 2 ^ (d - 53)
    ∧ (Zpos m = m' ∧ e = ex + (d - 53)
       ∨ Zpos m = m' + 1 ∧ e = ex + (d - 53)
       ∨ m' + 1 = 2 ^ 53 ∧ Zpos m = 2 ^ 52 ∧ e = ex + (d - 53) + 1).
Proof.
  intros Hmx Hd Hprec Hlo Hhi.
  pose proof (proj1 (log2_bounds mx d Hmx) Hd) as Hbounds.
  unfold binary_round_aux, shr_fexp.
  rewrite (Zdigits2_log2 mx Hmx), Hd.
  assert (Hfexp : ∀ E, -1021 ≤ E → fexp prec emax E = E - 53).
  { intros E HE. unfold fexp, SpecFloat.emin, prec, emax. lia. }
  rewrite (Hfexp (d + ex) Hlo).
  destruct (shr_spec (shr_record_of_loc mx lx) ex (d + ex - 53 - ex)) as [Hm1 He1];
    [rewrite shr_record_of_loc_m; lia | lia |].
  destruct (shr (shr_record_of_loc mx lx) ex (d + ex - 53 - ex)) as [mrs1 e1].
  cbn [fst snd] in Hm1, He1. rewrite shr_record_of_loc_m in Hm1.
  replace (d + ex - 53 - ex) with (d - 53) in Hm1 by lia.
  assert (Hp : 0 < 2 ^ (d - 53)) by (apply Z.pow_pos_nonneg; lia).
  assert (Hm1b : 2 ^ 52 ≤ shr_m mrs1 < 2 ^ 53).
  { rewrite Hm1.
    assert (E1 : 2 ^ (d - 1) = 2 ^ 52 * 2 ^ (d - 53))
      by (rewrite <- Z.pow_add_r by lia; f_equal; lia).
    assert (E2 : 2 ^ d = 2 ^ 53 * 2 ^ (d - 53))
      by (rewrite <- Z.pow_add_r by lia; f_equal; lia).
    split.
    - apply Z.div_le_lower_bound; [exact Hp |]. rewrite Z.mul_comm, <- E1. lia.
    - apply Z.div_lt_upper_bound; [exact Hp |]. rewrite Z.mul_comm, <- E2. lia. }
  assert (Hfloor : shr_m mrs1 * 2 ^ (d - 53) ≤ mx < (shr_m mrs1 + 1) * 2 ^ (d - 53)).
  { rewrite Hm1. split.
    - rewrite Z.mul_comm. apply Z.mul_div_le. exact Hp.
    - rewrite Z.mul_comm. apply Z.mul_succ_div_gt. exact Hp. }
  set (mr := round_nearest_even (shr_m mrs1) (loc_of_shr_record mrs1)).
  assert (Hmr : mr = shr_m mrs1 ∨ mr = shr_m mrs1 + 1)
    by apply round_nearest_even_cases.
  assert (Hmr0 : 0 < mr) by (assert (0 < 2 ^ 52) by reflexivity; lia).
  rewrite (Zdigits2_log2 mr Hmr0).
  destruct (Z.eq_dec mr (2 ^ 53)) as [Hcarry | Hnocarry].
  - assert (Hlog : Z.log2 mr + 1 = 54).
    { apply log2_bounds; [exact Hmr0 |]. rewrite Hcarry.
      change (54 - 1) with 53. split; [lia |]. apply Z.pow_lt_mono_r; lia. }
    rewrite Hlog, (Hfexp (54 + e1)) by lia.
    replace (54 + e1 - 53 - e1) with 1 by lia.
    cbn [shr SpecFloat.iter_pos].
    assert (Hm2 : shr_m (shr_1 (shr_record_of_loc mr loc_Exact)) = 2 ^ 52).
    { rewrite shr_1_m by (rewrite shr_record_of_loc_m; lia).
      rewrite shr_record_of_loc_m, Hcarry. reflexivity. }
    rewrite Hm2. change (2 ^ 52) with (Zpos (2 ^ 52)%positive).
    cbn iota.
    replace (e1 + 1 <=? emax - prec) with true
      by (symmetry; apply Z.leb_le; unfold emax, prec; lia).
    exists (2 ^ 52)%positive, (e1 + 1), (shr_m mrs1).
    split; [reflexivity |]. split; [reflexivity |]. split; [lia |].
    split; [exact Hm1b |]. split; [exact Hfloor |].
    right; right. repeat split; lia.
  - assert (Hlog : Z.log2 mr + 1 = 53).
    { apply log2_bounds; [exact Hmr0 |]. change (53 - 1) with 52. lia. }
    rewrite Hlog, (Hfexp (53 + e1)) by lia.
    replace (53 + e1 - 53 - e1) with 0 by lia.
    cbn [shr]. rewrite shr_record_of_loc_m.
    destruct mr as [| q | q] eqn:Hq; try lia.
    replace (e1 <=? emax - prec) with true
      by (symmetry; apply Z.leb_le; unfold emax, prec; lia).
    exists q, e1, (shr_m mrs1).
    split; [reflexivity |].
    split; [rewrite digits2_pos_log2; exact Hlog |]. split; [lia |].
    split; [exact Hm1b |]. split; [exact Hfloor |].
    destruct Hmr as [Hmr | Hmr]; [left | right; left]; split; lia.
Qed.

Lemma binary_round_aux_exact mx ex :
  0 < mx → Z.log2 mx + 1 = 53 → -1074 ≤ ex → ex ≤ 971 →
  binary_round_aux prec emax false mx ex loc_Exact
  = S754_finite false (Z.to_pos mx) ex.
Proof.
  intros Hmx Hd Hlo Hhi.
  unfold binary_round_aux, shr_fexp.
  rewrite (Zdigits2_log2 mx Hmx), Hd.
  replace (fexp prec emax (53 + ex) - ex) with 0
    by (unfold fexp, SpecFloat.emin, prec, emax; lia).
  cbn [shr shr_record_of_loc loc_of_shr_record round_nearest_even shr_m].
  rewrite (Zdigits2_log2 mx Hmx), Hd.
  replace (fexp prec emax (53 + ex) - ex) with 0
    by (unfold fexp, SpecFloat.emin, prec, emax; lia).
  cbn [shr shr_record_of_loc shr_m].
  destruct mx as [| q | q]; try lia.
  replace (ex <=? emax - prec) with true
    by (symmetry; apply Z.leb_le; unfold emax, prec; lia).
  reflexivity.
Qed.

(** An integer below 2^53 converts to the float of the same value. *)
Lemma binary_normalize_exact z :
  0 < z < 2 ^ 53 →
  ∃ m e, binary_normalize prec emax z 0 false = S754_finite false m e
         ∧ Zpos (digits2_pos m) = 53 ∧ -52 ≤ e ≤ 0
         ∧ Zpos m = z * 2 ^ (- e).
Proof.
  intros [Hz Hlt]. destruct z as [| p | p]; try lia.
  unfold binary_normalize, binary_round.
  set (d := Zpos (digits2_pos p)).
  assert (Hd : Z.log2 (Zpos p) + 1 = d) by (symmetry; apply digits2_pos_log2).
  pose proof (proj1 (log2_bounds (Zpos p) d Hz) Hd) as Hb.
  assert (Hd1 : 1 ≤ d) by (unfold d; lia).
  assert (Hd53 : d ≤ 53).
  { destruct (Z_le_gt_dec d 53) as [H | H]; [exact H |].
    assert (2 ^ 53 ≤ 2 ^ (d - 1)) by (apply Z.pow_le_mono_r; lia). lia. }
  replace (fexp prec emax (d + 0)) with (d - 53)
    by (unfold fexp, SpecFloat.emin, prec, emax; lia).
  unfold shl_align.
  destruct (d - 53 - 0) as [| k | k] eqn:Hk; try lia.
  - assert (d = 53) by lia.
    rewrite binary_round_aux_exact by lia.
    exists p, 0. split; [reflexivity |]. split; [fold d; lia |].
    split; [lia |]. simpl. lia.
  - assert (Hk' : Zpos k = 53 - d) by lia.
    assert (Hlog : Z.log2 (Zpos (Pos.iter xO p k)) + 1 = 53).
    { apply log2_bounds; [lia |].
      rewrite Pos_iter_xO, Hk'. change (53 - 1) with 52.
      assert (E1 : 2 ^ 52 = 2 ^ (d - 1) * 2 ^ (53 - d))
        by (rewrite <- Z.pow_add_r by lia; f_equal; lia).
      assert (E2 : 2 ^ 53 = 2 ^ d * 2 ^ (53 - d))
        by (rewrite <- Z.pow_add_r by lia; f_equal; lia).
      assert (Hp : 0 < 2 ^ (53 - d)) by (apply Z.pow_pos_nonneg; lia).
      rewrite E1, E2. split.
      + apply Z.mul_le_mono_nonneg_r; lia.
      + apply Z.mul_lt_mono_pos_r; lia. }
    rewrite binary_round_aux_exact by lia.
    exists (Pos.iter xO p k), (d - 53).
    split; [reflexivity |].
    split; [rewrite digits2_pos_log2; exact Hlog |]. split; [lia |].
    rewrite Pos_iter_xO. f_equal. f_equal. lia.
Qed.

Lemma IZR_pow2 k : 0 ≤ k → IZR (2 ^ k) = powerRZ 2 k.
Proof.
  intros Hk. destruct k as [| p | p]; try lia.
  - reflexivity.
  - change (2 ^ Zpos p) with (Z.pow_pos 2 p). apply Zpower_pos_powerRZ.
Qed.

Lemma powerRZ_2_pos e : (0 < powerRZ 2 e)%R.
Proof. apply powerRZ_lt. lra. Qed.

Lemma powerRZ_2_add a b : powerRZ 2 (a + b) = (powerRZ 2 a * powerRZ 2 b)%R.
Proof. apply powerRZ_add. lra. Qed.

(** Rounding moves a positive value by at most one part in 2^52. *)
Lemma binary_round_aux_approx mx ex lx d (T : R) :
  0 < mx → Z.log2 mx + 1 = d → 53 ≤ d →
  -1021 ≤ d + ex → d + ex + 1 ≤ 1024 →
  (IZR mx * powerRZ 2 ex <= T < IZR (mx + 1) * powerRZ 2 ex)%R →
  ∃ m e,
    binary_round_aux prec emax false mx ex lx = S754_finite false m e
    ∧ Zpos (digits2_pos m) = 53
    ∧ d + ex ≤ 53 + e ≤ d + ex + 1
    ∧ ((1 - ulp_rel) * T <= B2R (S754_finite false m e) <= (1 + ulp_rel) * T)%R.
Proof.
  intros Hmx Hd Hprec Hlo Hhi HT.
  destruct (binary_round_aux_value mx ex lx d Hmx Hd Hprec Hlo Hhi)
    as (m & e & m' & Hres & Hdig & Hrange & Hm' & Hfloor & Hcases).
  exists m, e. split; [exact Hres |]. split; [exact Hdig |]. split; [exact Hrange |].
  set (n := d - 53) in *.
  set (a := (powerRZ 2 ex * IZR (2 ^ n))%R).
  assert (Hpn : (0 < IZR (2 ^ n))%R).
  { apply IZR_lt. apply Z.pow_pos_nonneg; lia. }
  assert (Hpe : (0 < powerRZ 2 ex)%R) by apply powerRZ_2_pos.
  assert (Ha : (0 < a)%R) by (unfold a; apply Rmult_lt_0_compat; assumption).
  assert (Hlow : (IZR m' * a <= T)%R).
  { apply Rle_trans with (IZR mx * powerRZ 2 ex)%R; [| apply HT].
    unfold a. rewrite (Rmult_comm (powerRZ 2 ex)), <- Rmult_assoc, <- mult_IZR.
    apply Rmult_le_compat_r; [lra | apply IZR_le; lia]. }
  assert (Hupp : (T < (IZR m' + 1) * a)%R).
  { apply Rlt_le_trans with (IZR (mx + 1) * powerRZ 2 ex)%R; [apply HT |].
    unfold a. rewrite (Rmult_comm (powerRZ 2 ex)), <- Rmult_assoc.
    apply Rmult_le_compat_r; [lra |].
    rewrite <- (plus_IZR m' 1), <- mult_IZR. apply IZR_le. lia. }
  assert (Hbig : (4503599627370496 * a <= IZR m' * a)%R).
  { apply Rmult_le_compat_r; [lra |].
    change 4503599627370496%R with (IZR (2 ^ 52)). apply IZR_le. lia. }
  assert (Hval : B2R (S754_finite false m e) = (IZR m' * a)%R
                 ∨ B2R (S754_finite false m e) = ((IZR m' + 1) * a)%R).
  { unfold B2R, a. rewrite (IZR_pow2 n) by (unfold n; lia).
    rewrite <- powerRZ_2_add.
    destruct Hcases as [[Hm ->] | [[Hm ->] | (Hc & Hm & ->)]].
    - left. rewrite Hm. lra.
    - right. rewrite Hm, plus_IZR. lra.
    - right. rewrite Hm, powerRZ_2_add.
      assert (Hm1 : IZR m' = (IZR (2 ^ 53) - 1)%R).
      { rewrite <- Hc, plus_IZR. lra. }
      rewrite Hm1. change (IZR (2 ^ 53)) with 9007199254740992%R.
      change (IZR (2 ^ 52)) with 4503599627370496%R.
      change (powerRZ 2 1) with (2 * 1)%R. lra. }
  unfold ulp_rel. set (x := (IZR m' * a)%R) in *.
  replace ((IZR m' + 1) * a)%R with (x + a)%R in * by (unfold x; lra).
  destruct Hval as [-> | ->]; lra.
Qed.

Lemma normal_pos_B2R_pos lo hi x : normal_pos lo hi x → (0 < B2R x)%R.
Proof.
  intros (m & e & -> & _). unfold B2R.
  apply Rmult_lt_0_compat; [| apply powerRZ_2_pos].
  rewrite Rmult_1_l. apply IZR_lt. lia.
Qed.

(** The quotient of two normal numbers, rounded. *)
Lemma SFdiv_approx lo1 hi1 lo2 hi2 x y (T : R) :
  normal_pos lo1 hi1 x → normal_pos lo2 hi2 y →
  -1021 ≤ lo1 - hi2 → hi1 - lo2 + 2 ≤ 1024 →
  (T * B2R y = B2R x)%R →
  normal_pos (lo1 - hi2) (hi1 - lo2 + 2) (SF64div x y)
  ∧ ((1 - ulp_rel) * T <= B2R (SF64div x y) <= (1 + ulp_rel) * T)%R.
Proof.
  intros (mx & ex & -> & Hdx & Hex) (my & ey & -> & Hdy & Hey) Hlo Hhi HT.
  unfold SF64div, SFdiv, SFdiv_core_binary.
  cbn [Zdigits2]. rewrite Hdx, Hdy.
  replace (fexp prec emax (53 + ex - (53 + ey))) with (ex - ey - 53)
    by (unfold fexp, SpecFloat.emin, prec, emax; lia).
  replace (Z.min (ex - ey - 53) (ex - ey)) with (ex - ey - 53) by lia.
  replace (ex - ey - (ex - ey - 53)) with 53 by lia.
  cbn iota. cbn [xorb]. rewrite Z.shiftl_mul_pow2 by lia.
  rewrite digits2_pos_log2 in Hdx, Hdy.
  pose proof (proj1 (log2_bounds (Zpos mx) 53 ltac:(lia)) Hdx) as Hbx.
  pose proof (proj1 (log2_bounds (Zpos my) 53 ltac:(lia)) Hdy) as Hby.
  change (53 - 1) with 52 in Hbx, Hby.
  pose proof (Z.div_eucl_eq (Zpos mx * 2 ^ 53) (Zpos my) ltac:(lia)) as Heq.
  pose proof (Z.mod_pos_bound (Zpos mx * 2 ^ 53) (Zpos my) ltac:(lia)) as Hmod.
  unfold Z.modulo in Hmod.
  destruct (Z.div_eucl (Zpos mx * 2 ^ 53) (Zpos my)) as [q r].
  assert (Hq : 2 ^ 52 ≤ q < 2 ^ 54).
  { assert (E : 2 ^ 53 * 2 ^ 52 = 2 ^ 52 * 2 ^ 53) by ring.
    assert (E' : 2 ^ 54 = 2 * 2 ^ 53) by reflexivity.
    split; nia. }
  assert (Hq0 : 0 < q) by (assert (0 < 2 ^ 52) by reflexivity; lia).
  (* the exact quotient lies between q and q + 1 at exponent ex - ey - 53 *)
  assert (HTq : (IZR q * powerRZ 2 (ex - ey - 53) <= T
                 < IZR (q + 1) * powerRZ 2 (ex - ey - 53))%R).
  { unfold B2R in HT. rewrite !Rmult_1_l in HT.
    set (s := powerRZ 2 (ex - ey - 53)).
    assert (Hs : (0 < s)%R) by apply powerRZ_2_pos.
    assert (Hey' : (0 < powerRZ 2 ey)%R) by apply powerRZ_2_pos.
    assert (Hmy : (0 < IZR (Zpos my))%R) by (apply IZR_lt; lia).
    assert (Hex' : powerRZ 2 ex = (s * IZR (2 ^ 53) * powerRZ 2 ey)%R).
    { unfold s. rewrite (IZR_pow2 53) by lia. rewrite <- !powerRZ_2_add.
      f_equal. lia. }
    rewrite Hex' in HT.
    assert (HT' : (T * IZR (Zpos my) = IZR (Zpos mx * 2 ^ 53) * s)%R).
    { rewrite mult_IZR. apply (Rmult_eq_reg_r (powerRZ 2 ey)); [lra | lra]. }
    assert (H1 : (IZR q * IZR (Zpos my) <= IZR (Zpos mx * 2 ^ 53))%R)
      by (rewrite <- mult_IZR; apply IZR_le; lia).
    assert (H2 : (IZR (Zpos mx * 2 ^ 53) < IZR (q + 1) * IZR (Zpos my))%R)
      by (rewrite <- mult_IZR; apply IZR_lt; lia).
    split.
    - apply (Rmult_le_reg_r (IZR (Zpos my))); [exact Hmy |].
      rewrite HT'. replace (IZR q * s * IZR (Zpos my))%R
        with (IZR q * IZR (Zpos my) * s)%R by ring.
      apply Rmult_le_compat_r; lra.
    - apply (Rmult_lt_reg_r (IZR (Zpos my))); [exact Hmy |].
      rewrite HT'. replace (IZR (q + 1) * s * IZR (Zpos my))%R
        with (IZR (q + 1) * IZR (Zpos my) * s)%R by ring.
      apply Rmult_lt_compat_r; lra. }
  destruct (Z_lt_le_dec q (2 ^ 53)) as [Hsmall | Hbig].
  - destruct (binary_round_aux_approx q (ex - ey - 53) (new_location (Zpos my) r) 53 T)
      as (m & e & -> & Hdig & Hrange & Happrox); try lia; try exact HTq.
    { apply log2_bounds; [lia |]. change (53 - 1) with 52. lia. }
    split; [| exact Happrox]. exists m, e. repeat split; lia.
  - destruct (binary_round_aux_approx q (ex - ey - 53) (new_location (Zpos my) r) 54 T)
      as (m & e & -> & Hdig & Hrange & Happrox); try lia; try exact HTq.
    { apply log2_bounds; [lia |]. change (54 - 1) with 53. lia. }
    split; [| exact Happrox]. exists m, e. repeat split; lia.
Qed.

(** The product of two normal numbers, rounded. *)
Lemma SFmul_approx lo1 hi1 lo2 hi2 x y :
  normal_pos lo1 hi1 x → normal_pos lo2 hi2 y →
  -1021 ≤ lo1 + lo2 - 1 → hi1 + hi2 + 1 ≤ 1024 →
  normal_pos (lo1 + lo2 - 1) (hi1 + hi2 + 1) (SF64mul x y)
  ∧ ((1 - ulp_rel) * (B2R x * B2R y) <= B2R (SF64mul x y)
     <= (1 + ulp_rel) * (B2R x * B2R y))%R.
Proof.
  intros (mx & ex & -> & Hdx & Hex) (my & ey & -> & Hdy & Hey) Hlo Hhi.
  unfold SF64mul, SFmul. cbn [xorb].
  rewrite digits2_pos_log2 in Hdx, Hdy.
  pose proof (proj1 (log2_bounds (Zpos mx) 53 ltac:(lia)) Hdx) as Hbx.
  pose proof (proj1 (log2_bounds (Zpos my) 53 ltac:(lia)) Hdy) as Hby.
  change (53 - 1) with 52 in Hbx, Hby.
  assert (Hprod : 2 ^ 104 ≤ Zpos (mx * my) < 2 ^ 106).
  { rewrite Pos2Z.inj_mul.
    assert (E : 2 ^ 104 = 2 ^ 52 * 2 ^ 52) by reflexivity.
    assert (E' : 2 ^ 106 = 2 ^ 53 * 2 ^ 53) by reflexivity.
    split; nia. }
  assert (HT : (IZR (Zpos (mx * my)) * powerRZ 2 (ex + ey)
                <= B2R (S754_finite false mx ex) * B2R (S754_finite false my ey)
                < IZR (Zpos (mx * my) + 1) * powerRZ 2 (ex + ey))%R).
  { assert (HP : IZR (Zpos (mx * my)) = (IZR (Zpos mx) * IZR (Zpos my))%R)
      by (rewrite Pos2Z.inj_mul, mult_IZR; reflexivity).
    unfold B2R. rewrite !Rmult_1_l, powerRZ_2_add, plus_IZR, HP.
    pose proof (powerRZ_2_pos ex). pose proof (powerRZ_2_pos ey).
    assert (0 < powerRZ 2 ex * powerRZ 2 ey)%R by (apply Rmult_lt_0_compat; assumption).
    split; [right; ring |].
    replace (IZR (Zpos mx) * powerRZ 2 ex * (IZR (Zpos my) * powerRZ 2 ey))%R
      with (IZR (Zpos mx) * IZR (Zpos my) * (powerRZ 2 ex * powerRZ 2 ey))%R by ring.
    apply Rmult_lt_compat_r; lra. }
  destruct (Z_lt_le_dec (Zpos (mx * my)) (2 ^ 105)) as [Hsmall | Hbig].
  - destruct (binary_round_aux_approx (Zpos (mx * my)) (ex + ey) loc_Exact 105 _
                eq_refl ltac:(apply log2_bounds; [reflexivity | change (105 - 1) with 104; lia])
                ltac:(lia) ltac:(lia) ltac:(lia) HT)
      as (m & e & -> & Hdig & Hrange & Happrox).
    split; [| exact Happrox]. exists m, e. repeat split; lia.
  - destruct (binary_round_aux_approx (Zpos (mx * my)) (ex + ey) loc_Exact 106 _
                eq_refl ltac:(apply log2_bounds; [reflexivity | change (106 - 1) with 105; lia])
                ltac:(lia) ltac:(lia) ltac:(lia) HT)
      as (m & e & -> & Hdig & Hrange & Happrox).
    split; [| exact Happrox]. exists m, e. repeat split; lia.
Qed.

Lemma powerRZ_2_opp e : (powerRZ 2 (- e) * powerRZ 2 e = 1)%R.
Proof. rewrite <- powerRZ_2_add. replace (- e + e) with 0 by lia. reflexivity. Qed.

Lemma powerRZ_2_le a b : a ≤ b → (powerRZ 2 a <= powerRZ 2 b)%R.
Proof.
  intros Hab. replace b with (a + (b - a)) by lia. rewrite powerRZ_2_add.
  rewrite <- (IZR_pow2 (b - a)) by lia.
  assert (1 <= IZR (2 ^ (b - a)))%R.
  { apply IZR_le. assert (0 < 2 ^ (b - a)) by (apply Z.pow_pos_nonneg; lia). lia. }
  pose proof (powerRZ_2_pos a). nra.
Qed.

(** An integer below 2^53 converts without rounding. *)
Lemma float_of_int_exact z :
  0 < z < 2 ^ 53 →
  normal_pos 1 53 (Prim2SF (Py.float_of_int z))
  ∧ B2R (Prim2SF (Py.float_of_int z)) = IZR z.
Proof.
  intros Hz. unfold Py.float_of_int.
  destruct (z <? 0) eqn:E; [lia |].
  rewrite of_uint63_spec, Uint63.of_Z_spec.
  assert (HwB : wB = 2 ^ 63) by reflexivity.
  assert (2 ^ 53 < 2 ^ 63) by reflexivity.
  rewrite Z.mod_small by lia.
  destruct (binary_normalize_exact z Hz) as (m & e & -> & Hdig & He & Hm).
  split; [exists m, e; repeat split; lia |].
  unfold B2R. rewrite Hm, mult_IZR, (IZR_pow2 (- e)) by lia.
  rewrite Rmult_1_l, Rmult_assoc, powerRZ_2_opp. lra.
Qed.

(** [<] on two normal numbers is [<] on their values. *)
Lemma SFltb_normal lo1 hi1 lo2 hi2 x y :
  normal_pos lo1 hi1 x → normal_pos lo2 hi2 y →
  if SFltb x y then (B2R x < B2R y)%R else (B2R y <= B2R x)%R.
Proof.
  intros (m1 & e1 & -> & Hd1 & _) (m2 & e2 & -> & Hd2 & _).
  rewrite digits2_pos_log2 in Hd1, Hd2.
  pose proof (proj1 (log2_bounds (Zpos m1) 53 ltac:(lia)) Hd1) as Hb1.
  pose proof (proj1 (log2_bounds (Zpos m2) 53 ltac:(lia)) Hd2) as Hb2.
  change (53 - 1) with 52 in Hb1, Hb2.
  assert (Hfar : ∀ (ma mb : positive) ea eb,
            2 ^ 52 ≤ Zpos ma < 2 ^ 53 → 2 ^ 52 ≤ Zpos mb < 2 ^ 53 → ea < eb →
            (IZR (Zpos ma) * powerRZ 2 ea < IZR (Zpos mb) * powerRZ 2 eb)%R).
  { intros ma mb ea eb Ha Hb Hlt.
    pose proof (powerRZ_2_pos ea) as Hpa.
    pose proof (powerRZ_2_le (ea + 1) eb ltac:(lia)) as Hle.
    rewrite powerRZ_2_add in Hle. change (powerRZ 2 1) with (2 * 1)%R in Hle.
    assert (IZR (Zpos ma) < 9007199254740992)%R
      by (change 9007199254740992%R with (IZR (2 ^ 53)); apply IZR_lt; lia).
    assert (4503599627370496 <= IZR (Zpos mb))%R
      by (change 4503599627370496%R with (IZR (2 ^ 52)); apply IZR_le; lia).
    nra. }
  unfold SFltb, SFcompare, B2R. rewrite !Rmult_1_l.
  destruct (Z.compare_spec e1 e2) as [-> | Hlt | Hgt].
  - rewrite Pos.compare_cont_spec. cbn [Pos.switch_Eq].
    pose proof (powerRZ_2_pos e2) as Hp.
    destruct (Pos.compare_spec m1 m2) as [-> | Hm | Hm]; cbn [Pos.switch_Eq].
    + lra.
    + apply Rmult_lt_compat_r; [exact Hp | apply IZR_lt; lia].
    + apply Rmult_le_compat_r; [lra | apply IZR_le; lia].
  - apply Hfar; assumption.
  - left. apply Hfar; assumption.
Qed.

(** [int(x)] on a normal number is the floor of its value. *)
Lemma int_of_float_value lo hi x :
  normal_pos lo hi (Prim2SF x) →
  ∃ n, Py.int_of_float x = inr n
       ∧ (IZR n <= B2R (Prim2SF x) < IZR n + 1)%R.
Proof.
  intros (m & e & Hx & _). unfold Py.int_of_float. rewrite Hx. unfold B2R.
  rewrite Rmult_1_l. eexists. split; [reflexivity |].
  destruct e as [| p | p].
  - simpl. lra.
  - rewrite Z.shiftl_mul_pow2, mult_IZR, (IZR_pow2 (Zpos p)) by lia. lra.
  - rewrite Z.shiftr_div_pow2 by lia.
    assert (Hp : 0 < 2 ^ Zpos p) by (apply Z.pow_pos_nonneg; lia).
    pose proof (Z.mul_div_le (Zpos m) (2 ^ Zpos p) Hp) as H1.
    pose proof (Z.mul_succ_div_gt (Zpos m) (2 ^ Zpos p) Hp) as H2.
    set (n := Zpos m / 2 ^ Zpos p) in *.
    apply IZR_le in H1. apply IZR_lt in H2.
    rewrite mult_IZR in H1, H2. unfold Z.succ in H2. rewrite plus_IZR in H2.
    rewrite (IZR_pow2 (Zpos p)) in H1, H2 by lia.
    pose proof (powerRZ_2_opp (Zpos p)) as Hinv. change (- Zpos p) with (Zneg p) in Hinv.
    pose proof (powerRZ_2_pos (Zpos p)) as Hpp.
    pose proof (powerRZ_2_pos (Zneg p)) as Hpn.
    set (a := powerRZ 2 (Zpos p)) in *. set (b := powerRZ 2 (Zneg p)) in *.
    split.
    + replace (IZR n) with (a * IZR n * b)%R by (rewrite (Rmult_comm a), Rmult_assoc, (Rmult_comm a), Hinv; ring).
      apply Rmult_le_compat_r; lra.
    + replace (IZR n + 1)%R with (a * (IZR n + 1) * b)%R by (rewrite (Rmult_comm a), Rmult_assoc, (Rmult_comm a), Hinv; ring).
      apply Rmult_lt_compat_r; lra.
Qed.

(** Integer consequences of the error bounds. *)

(** [a * P <= b * Q] with [b - a] small forces [P <= Q]. *)
Lemma order_from_bounds a b P Q :
  0 < a → 0 ≤ Q → (b - a) * Q < a → a * P ≤ b * Q → P ≤ Q.
Proof. intros Ha HQ Hsmall Hle. nia. Qed.

(** A non-negative integer [n] squeezed around [X / w] up to the factor
    [b / a] is the quotient or, when the division is exact, possibly one
    less. *)
Lemma floor_from_bounds a b n X w :
  0 < a → a ≤ b → 0 < w → 0 ≤ X → 0 ≤ n →
  (b - a) * (X + w) < a →
  a * (n * w) ≤ b * X → a * X < b * ((n + 1) * w) →
  X / w - 1 ≤ n ≤ X / w ∧ (X mod w ≠ 0 → n = X / w).
Proof.
  intros Ha Hab Hw HX Hn Hsmall Hup Hlow.
  pose proof (Z.div_mod X w ltac:(lia)) as Hdiv.
  pose proof (Z.mod_pos_bound X w Hw) as Hmod.
  pose proof (Z.div_pos X w HX Hw) as HF.
  set (F := X / w) in *. set (f := X mod w) in *.
  assert (HnF : n ≤ F).
  { destruct (Z_le_gt_dec n F) as [H | H]; [exact H | exfalso].
    assert ((F + 1) * w ≤ n * w) by nia.
    assert (b * X ≤ b * ((F + 1) * w) - b) by nia.
    assert ((b - a) * ((F + 1) * w) ≤ (b - a) * (X + w)) by nia.
    nia. }
  assert (HFX : (b - a) * (F * w) ≤ (b - a) * X) by nia.
  split; [split |].
  - destruct (Z_le_gt_dec (F - 1) n) as [H | H]; [exact H | exfalso].
    assert ((n + 1) * w ≤ (F - 1) * w) by nia.
    assert (b * ((n + 1) * w) ≤ b * ((F - 1) * w)) by nia.
    nia.
  - exact HnF.
  - intros Hf. destruct (Z_le_gt_dec F n) as [H | H]; [lia | exfalso].
    assert ((n + 1) * w ≤ F * w) by nia.
    assert (b * ((n + 1) * w) ≤ b * (F * w)) by nia.
    assert (a * (F * w + 1) ≤ a * X) by nia.
    nia.
Qed.

(** Real consequences of the error bounds. *)

Lemma div_bounds (c1 c2 a b x : R) :
  (0 < b)%R → (c1 * (a / b) <= x <= c2 * (a / b))%R →
  (c1 * a <= x * b <= c2 * a)%R.
Proof.
  intros Hb [H1 H2].
  assert (E : (a / b * b = a)%R) by (field; lra).
  split.
  - apply (Rmult_le_compat_r b) in H1; [| lra].
    rewrite Rmult_assoc, E in H1. exact H1.
  - apply (Rmult_le_compat_r b) in H2; [| lra].
    rewrite Rmult_assoc, E in H2. exact H2.
Qed.

Lemma ulp_rel_bounds : (0 < 1 - ulp_rel)%R ∧ (1 < 1 + ulp_rel)%R.
Proof. unfold ulp_rel. lra. Qed.

Lemma scale_le (A X : R) :
  ((1 - ulp_rel) * A <= (1 + ulp_rel) * X)%R →
  (4503599627370495 * A <= 4503599627370497 * X)%R.
Proof. unfold ulp_rel. lra. Qed.

Lemma scale_lt (A X : R) :
  ((1 - ulp_rel) * A < (1 + ulp_rel) * X)%R →
  (4503599627370495 * A < 4503599627370497 * X)%R.
Proof. unfold ulp_rel. lra. Qed.

Lemma scale2_le (A X : R) :
  ((1 - ulp_rel) * ((1 - ulp_rel) * A) <= (1 + ulp_rel) * ((1 + ulp_rel) * X))%R →
  (4503599627370495 * (4503599627370495 * A)
   <= 4503599627370497 * (4503599627370497 * X))%R.
Proof. unfold ulp_rel. lra. Qed.

Lemma scale2_lt (A X : R) :
  ((1 - ulp_rel) * ((1 - ulp_rel) * A) < (1 + ulp_rel) * ((1 + ulp_rel) * X))%R →
  (4503599627370495 * (4503599627370495 * A)
   < 4503599627370497 * (4503599627370497 * X))%R.
Proof. unfold ulp_rel. lra. Qed.

Lemma aspect_fit_accuracy img_w img_h width height :
  0 < img_w < 2 ^ 24 → 0 < img_h < 2 ^ 24 →
  0 < width < 2 ^ 24 → 0 < height < 2 ^ 24 →
  ∃ new_width new_height,
    aspect_fit img_w img_h width height = inr (new_width, new_height)
    ∧ (new_width = width ∧ width * img_h ≤ height * img_w
       ∧ width * img_h / img_w - 1 ≤ new_height ≤ width * img_h / img_w
       ∧ ((width * img_h) mod img_w ≠ 0 →
          new_height = width * img_h / img_w)
       ∨ new_height = height ∧ height * img_w ≤ width * img_h
         ∧ height * img_w / img_h - 1 ≤ new_width ≤ height * img_w / img_h
         ∧ ((height * img_w) mod img_h ≠ 0 →
            new_width = height * img_w / img_h)).
Proof.
  intros Hw Hh HW HH. unfold aspect_fit, Py.truediv_int.
  destruct (img_h =? 0) eqn:E1; [lia |].
  destruct (height =? 0) eqn:E2; [lia |].
  cbn [mbind res_bind].
  assert (H24 : 2 ^ 24 < 2 ^ 53) by reflexivity.
  assert (E24 : 2 ^ 24 = 16777216) by reflexivity.
  destruct (float_of_int_exact img_w ltac:(lia)) as [Nw Vw].
  destruct (float_of_int_exact img_h ltac:(lia)) as [Nh Vh].
  destruct (float_of_int_exact width ltac:(lia)) as [NW VW].
  destruct (float_of_int_exact height ltac:(lia)) as [NH VH].
  assert (Pw : (0 < IZR img_w)%R) by (apply IZR_lt; lia).
  assert (Ph : (0 < IZR img_h)%R) by (apply IZR_lt; lia).
  assert (PW : (0 < IZR width)%R) by (apply IZR_lt; lia).
  assert (PH : (0 < IZR height)%R) by (apply IZR_lt; lia).
  set (img_ratio := PrimFloat.div (Py.float_of_int img_w) (Py.float_of_int img_h)).
  set (target_ratio := PrimFloat.div (Py.float_of_int width) (Py.float_of_int height)).
  destruct (SFdiv_approx 1 53 1 53 _ _ (IZR img_w / IZR img_h) Nw Nh
              ltac:(lia) ltac:(lia)) as [Nr Vr].
  { rewrite Vw, Vh. field. lra. }
  destruct (SFdiv_approx 1 53 1 53 _ _ (IZR width / IZR height) NW NH
              ltac:(lia) ltac:(lia)) as [Nt Vt].
  { rewrite VW, VH. field. lra. }
  rewrite <- FloatAxioms.div_spec in Nr, Vr, Nt, Vt.
  fold img_ratio in Nr, Vr. fold target_ratio in Nt, Vt.
  apply div_bounds in Vr; [| exact Ph].
  apply div_bounds in Vt; [| exact PH].
  pose proof (normal_pos_B2R_pos _ _ _ Nr) as Pr.
  rewrite FloatAxioms.ltb_spec.
  pose proof (SFltb_normal _ _ _ _ _ _ Nt Nr) as Hlt.
  pose proof ulp_rel_bounds as [Hu1 Hu2].
  assert (HX1 : 0 ≤ width * img_h < 2 ^ 48).
  { change (2 ^ 48) with (16777216 * 16777216). nia. }
  assert (HX2 : 0 ≤ height * img_w < 2 ^ 48).
  { change (2 ^ 48) with (16777216 * 16777216). nia. }
  assert (E48 : 2 ^ 48 = 281474976710656) by reflexivity.
  set (r := B2R (Prim2SF img_ratio)) in *.
  set (t := B2R (Prim2SF target_ratio)) in *.
  destruct (SFltb (Prim2SF target_ratio) (Prim2SF img_ratio)).
  - cbn iota in Hlt.
    rewrite (truediv_normal _ _ _ _ Nr). cbn [mbind res_bind].
    destruct (SFdiv_approx 1 53 _ _ _ _ (IZR width / r) NW Nr
                ltac:(lia) ltac:(lia)) as [Nq Vq].
    { rewrite VW. unfold r. field. fold r. lra. }
    rewrite <- FloatAxioms.div_spec in Nq, Vq.
    apply div_bounds in Vq; [| exact Pr].
    destruct (int_of_float_value _ _ _ Nq) as (n & -> & Hn).
    set (q := B2R (Prim2SF (PrimFloat.div (Py.float_of_int width) img_ratio))) in *.
    exists width, n. split; [reflexivity |]. left.
    assert (Hn0 : 0 ≤ n).
    { assert (0 < n + 1); [| lia].
      apply lt_IZR. rewrite plus_IZR. nra. }
    assert (Pn : (0 <= IZR n)%R) by (apply IZR_le; lia).
    assert (Prh : (0 < r * IZR img_h)%R) by nra.
    split; [reflexivity |]. split.
    { rewrite (Z.mul_comm height).
      apply (order_from_bounds 4503599627370495 4503599627370497); [lia | lia | lia |].
      apply le_IZR. rewrite !mult_IZR. apply scale_le.
      assert ((1 - ulp_rel) * IZR width * IZR img_h <= t * IZR height * IZR img_h)%R by nra.
      assert (t * (IZR height * IZR img_h) <= r * (IZR height * IZR img_h))%R
        by (apply Rmult_le_compat_r; [nra | lra]).
      assert (r * IZR img_h * IZR height <= (1 + ulp_rel) * IZR img_w * IZR height)%R by nra.
      nra. }
    apply (floor_from_bounds 4503599627370495 4503599627370497); try lia.
    + apply le_IZR. rewrite !mult_IZR. apply scale_le.
      assert (IZR n * ((1 - ulp_rel) * IZR img_w) <= IZR n * (r * IZR img_h))%R by nra.
      assert (IZR n * (r * IZR img_h) <= q * (r * IZR img_h))%R
        by (apply Rmult_le_compat_r; lra).
      assert (q * r * IZR img_h <= (1 + ulp_rel) * IZR width * IZR img_h)%R by nra.
      nra.
    + apply lt_IZR. rewrite !mult_IZR, plus_IZR. apply scale_lt.
      assert ((1 - ulp_rel) * IZR width * IZR img_h <= q * r * IZR img_h)%R by nra.
      assert (q * (r * IZR img_h) < (IZR n + 1) * (r * IZR img_h))%R
        by (apply Rmult_lt_compat_r; lra).
      assert ((IZR n + 1) * (r * IZR img_h)
              <= (IZR n + 1) * ((1 + ulp_rel) * IZR img_w))%R by nra.
      nra.
  - cbn iota in Hlt.
    destruct (SFmul_approx 1 53 _ _ _ _ NH Nr ltac:(lia) ltac:(lia)) as [Np Vp].
    rewrite <- FloatAxioms.mul_spec in Np, Vp. rewrite VH in Vp. fold r in Vp.
    destruct (int_of_float_value _ _ _ Np) as (n & -> & Hn).
    set (p := B2R (Prim2SF (PrimFloat.mul (Py.float_of_int height) img_ratio))) in *.
    exists n, height. split; [reflexivity |]. right.
    assert (Hn0 : 0 ≤ n).
    { assert (0 < n + 1); [| lia].
      apply lt_IZR. rewrite plus_IZR. nra. }
    assert (Pn : (0 <= IZR n)%R) by (apply IZR_le; lia).
    split; [reflexivity |]. split.
    { rewrite (Z.mul_comm width).
      apply (order_from_bounds 4503599627370495 4503599627370497); [lia | lia | lia |].
      apply le_IZR. rewrite !mult_IZR. apply scale_le.
      assert ((1 - ulp_rel) * IZR img_w * IZR height <= r * IZR img_h * IZR height)%R by nra.
      assert (r * (IZR img_h * IZR height) <= t * (IZR img_h * IZR height))%R
        by (apply Rmult_le_compat_r; [nra | lra]).
      assert (t * IZR height * IZR img_h <= (1 + ulp_rel) * IZR width * IZR img_h)%R by nra.
      nra. }
    apply (floor_from_bounds (4503599627370495 * 4503599627370495)
             (4503599627370497 * 4503599627370497)); try lia.
    + apply le_IZR. rewrite !mult_IZR. rewrite !Rmult_assoc. apply scale2_le.
      assert (p * IZR img_h <= (1 + ulp_rel) * (IZR height * r) * IZR img_h)%R by nra.
      assert ((1 + ulp_rel) * IZR height * (r * IZR img_h)
              <= (1 + ulp_rel) * IZR height * ((1 + ulp_rel) * IZR img_w))%R
        by (apply Rmult_le_compat_l; [nra | lra]).
      assert (IZR n * IZR img_h <= p * IZR img_h)%R by nra.
      assert ((1 - ulp_rel) * ((1 - ulp_rel) * (IZR n * IZR img_h))
              <= IZR n * IZR img_h)%R by (unfold ulp_rel in *; nra).
      nra.
    + apply lt_IZR. rewrite !mult_IZR, plus_IZR. rewrite !Rmult_assoc. apply scale2_lt.
      assert ((1 - ulp_rel) * (IZR height * r) * IZR img_h <= p * IZR img_h)%R by nra.
      assert ((1 - ulp_rel) * IZR height * ((1 - ulp_rel) * IZR img_w)
              <= (1 - ulp_rel) * IZR height * (r * IZR img_h))%R
        by (apply Rmult_le_compat_l; [nra | lra]).
      assert (p * IZR img_h < (IZR n + 1) * IZR img_h)%R
        by (apply Rmult_lt_compat_r; lra).
      assert ((IZR n + 1) * IZR img_h
              <= (1 + ulp_rel) * ((1 + ulp_rel) * ((IZR n + 1) * IZR img_h)))%R
        by (unfold ulp_rel in *; nra).
      nra.
Qed.

(** X6. For sides from 1 to 2^24 - 1, the aspect computation clamps the
    width only if W*h <= H*w and the height only if H*w <= W*h, and the
    other side is the floor of the exact quotient, or one below it when the
    exact quotient is an integer. *)
Theorem aspect_fit_within_one img_w img_h width height :
  0 < img_w < 2 ^ 24 → 0 < img_h < 2 ^ 24 →
  0 < width < 2 ^ 24 → 0 < height < 2 ^ 24 →
  ∃ new_width new_height,
    aspect_fit img_w img_h width height = inr (new_width, new_height)
    ∧ (new_width = width ∧ width * img_h ≤ height * img_w
       ∧ width * img_h / img_w - 1 ≤ new_height ≤ width * img_h / img_w
       ∧ ((width * img_h) mod img_w ≠ 0 →
          new_height = width * img_h / img_w)
       ∨ new_height = height ∧ height * img_w ≤ width * img_h
         ∧ height * img_w / img_h - 1 ≤ new_width ≤ height * img_w / img_h
         ∧ ((height * img_w) mod img_h ≠ 0 →
            new_width = height * img_w / img_h)).
Proof. exact (aspect_fit_accuracy img_w img_h width height). Qed.

(** X5. For image and target sides from 1 to 2^24 - 1, the aspect
    computation of resize_image returns dimensions (it does not raise) with
    0 <= new_width <= width and 0 <= new_height <= height. *)
Theorem aspect_fit_within_box img_w img_h width height :
  0 < img_w < 2 ^ 24 → 0 < img_h < 2 ^ 24 →
  0 < width < 2 ^ 24 → 0 < height < 2 ^ 24 →
  ∃ new_width new_height,
    aspect_fit img_w img_h width height = inr (new_width, new_height)
    ∧ 0 ≤ new_width ≤ width ∧ 0 ≤ new_height ≤ height.
Proof.
  intros Hw Hh HW HH.
  destruct (aspect_fit_accuracy _ _ _ _ Hw Hh HW HH)
    as (nw & nh & Hrun & [(Eq & Hle & Hn & Hex) | (Eq & Hle & Hn & Hex)]);
    exists nw, nh; (split; [exact Hrun |]).
  - assert (width * img_h / img_w ≤ height)
      by (apply Z.div_le_upper_bound; lia).
    assert (0 ≤ width * img_h / img_w) by (apply Z.div_pos; nia).
    destruct (Z.eq_dec ((width * img_h) mod img_w) 0) as [E | E].
    + pose proof (Z.div_mod (width * img_h) img_w ltac:(lia)).
      assert (0 < width * img_h) by nia.
      assert (0 < width * img_h / img_w) by nia.
      lia.
    + specialize (Hex E). lia.
  - assert (height * img_w / img_h ≤ width)
      by (apply Z.div_le_upper_bound; lia).
    assert (0 ≤ height * img_w / img_h) by (apply Z.div_pos; nia).
    destruct (Z.eq_dec ((height * img_w) mod img_h) 0) as [E | E].
    + pose proof (Z.div_mod (height * img_w) img_h ltac:(lia)).
      assert (0 < height * img_w) by nia.
      assert (0 < height * img_w / img_h) by nia.
      lia.
    + specialize (Hex E). lia.
Qed.

Lemma aspect_fit_within_box_witness :
  ∃ new_width new_height,
    aspect_fit 1600 1200 800 600 = inr (new_width, new_height)
    ∧ 0 ≤ new_width ≤ 800 ∧ 0 ≤ new_height ≤ 600.
Proof.
  apply (aspect_fit_within_box 1600 1200 800 600); split; reflexivity.
Defined.

Lemma aspect_fit_within_one_witness :
  ∃ new_width new_height,
    aspect_fit 1600 1200 800 600 = inr (new_width, new_height)
    ∧ (new_width = 800 ∧ 800 * 1200 ≤ 600 * 1600
       ∧ 800 * 1200 / 1600 - 1 ≤ new_height ≤ 800 * 1200 / 1600
       ∧ ((800 * 1200) mod 1600 ≠ 0 → new_height = 800 * 1200 / 1600)
       ∨ new_height = 600 ∧ 600 * 1600 ≤ 800 * 1200
         ∧ 600 * 1600 / 1200 - 1 ≤ new_width ≤ 600 * 1600 / 1200
         ∧ ((600 * 1600) mod 1200 ≠ 0 → new_width = 600 * 1600 / 1200)).
Proof.
  apply (aspect_fit_within_one 1600 1200 800 600); split; reflexivity.
Defined.

(** ** C10: resizing an image smaller than the requested box *)



Example aspect_fit_upscales : aspect_fit 100 80 800 600 = inr (750, 600).
Proof. vm_compute. reflexivity. Qed.

(** ** C2: the computed dimensions

    By [aspect_fit_within_one] the computed side is the exact floor
    unless the exact quotient is an integer, in which case it is that
    integer or one below it.  Both cases occur. *)

(** The example of the specification: 1600x1200 into 800x600 and into
    400x300 is exact. *)
Example aspect_fit_1600x1200 :
  aspect_fit 1600 1200 800 600 = inr (800, 600)
  ∧ aspect_fit 1600 1200 400 300 = inr (400, 300).
Proof. split; vm_compute; reflexivity. Qed.

(** C2 at 1100x1500 into 800x600.  The image is taller than the target
    (1100/1500 <= 800/600), so the height is clamped to 600 and the width
    should be floor(600 * 1100 / 1500) = 440; the code computes
    [int(600 * (1100 / 1500))] in binary64, where the product is
    439.99999999999994, and returns 439. *)
Theorem aspect_fit_misses_floor :
  aspect_fit 1100 1500 800 600 = inr (439, 600)
  ∧ 1100 * 600 ≤ 800 * 1500
  ∧ 600 * 1100 / 1500 = 440
  ∧ 600 * 1100 mod 1500 = 0.
Proof. repeat split; vm_compute; congruence. Qed.

(** The same slip on the other branch: 2500x1100 into 800x600 is wider
    than the target, the width is clamped to 800 and the height should be
    floor(800 * 1100 / 2500) = 352; the code returns 351. *)
Example aspect_fit_misses_floor_height :
  aspect_fit 2500 1100 800 600 = inr (800, 351)
  ∧ 800 * 1100 / 2500 = 352.
Proof. split; vm_compute; reflexivity. Qed.

(** * Further properties of the service *)

(** ** Reading a requested size *)
















(** ** resize_image and create_thumbnail *)

Lemma for_each_filter {S A} (keep : A → bool) (body : A → ST S unit) xs :
  (∀ x s, keep x = false → body x s = (inr (), s)) →
  ∀ s, for_each body (List.filter keep xs) s = for_each body xs s.
Proof.
  intros Hskip. induction xs as [| x xs IH]; intros s; [reflexivity |].
  simpl. destruct (keep x) eqn:E; simpl; rewrite !bind_run.
  - destruct (body x s) as [[e | []] s1]; [reflexivity | apply IH].
  - rewrite (Hskip x s E). apply IH.
Qed.

(** A body that raises on [x] without touching the state ends the loop
    there. *)
Lemma for_each_stops {S A} (body : A → ST S unit) l1 x l2 :
  (∀ s, ∃ e, body x s = (inl e, s)) →
  ∀ s, snd (for_each body (l1 ++ x :: l2) s) = snd (for_each body l1 s).
Proof.
  intros Hx. induction l1 as [| y l1 IH]; intros s; simpl.
  - rewrite bind_run. destruct (Hx s) as (e & ->). reflexivity.
  - rewrite !bind_run. destruct (body y s) as [[e | []] s1]; [reflexivity | apply IH].
Qed.

(** A loop whose body swallows its exceptions is a fold of the states. *)
Lemma for_each_swallow {S A} (body : A → ST S unit) xs s :
  for_each (λ x, swallow (body x)) xs s
  = (inr (), fold_left (λ s x, snd (body x s)) xs s).
Proof.
  revert s. induction xs as [| x xs IH]; intros s; [reflexivity |].
  simpl. rewrite bind_run. unfold swallow at 1. apply IH.
Qed.

Lemma save_variant_encoder w img size fmt d :
  save_variant w img size fmt d =
  match encoder fmt with
  | Some (codec, quality) =>
      match Image_save w img codec quality with
      | inl e => (inl e, d)
      | inr data => (inr (), dict_set (size +:+ "_" +:+ Py.lower fmt) data d)
      end
  | None => (inr (), d)
  end.
Proof.
  unfold save_variant, encoder.
  destruct (String.eqb (Py.lower fmt) "jpeg");
    [| destruct (String.eqb (Py.lower fmt) "webp");
       [| destruct (String.eqb (Py.lower fmt) "png")]];
    try reflexivity;
    rewrite bind_run, lift_run; destruct (Image_save w img _ _); reflexivity.
Qed.

Lemma resize_image_fold w data sizes formats :
  resize_image w data sizes formats =
  match (img ← Image_open w data; img ← exif_transpose w img; flatten_alpha w img) with
  | inl _ => []
  | inr img =>
      fold_left (λ d size, snd (resize_to w img formats size d)) sizes []
  end.
Proof.
  unfold resize_image.
  destruct (_ ≫= _) as [e | img]; [reflexivity |].
  rewrite for_each_swallow. reflexivity.
Qed.

Lemma fold_left_ext {A B} (f g : A → B → A) xs a :
  (∀ a x, x ∈ xs → f a x = g a x) → fold_left f xs a = fold_left g xs a.
Proof.
  revert a. induction xs as [| x xs IH]; intros a H; [reflexivity |].
  simpl. rewrite (H a x) by left. apply IH. intros a' y Hy. apply H. right. exact Hy.
Qed.

(** The part of [resize_to] before the loop over the formats. *)
Lemma resize_to_run w img formats size d :
  resize_to w img formats size d =
  match parse_size size with
  | inl e => (inl e, d)
  | inr (width, height) =>
      match aspect_fit (img_width img) (img_height img) width height with
      | inl e => (inl e, d)
      | inr (new_width, new_height) =>
          match Image_resize w img new_width new_height with
          | inl e => (inl e, d)
          | inr resized_img =>
              for_each (save_variant w resized_img size) formats d
          end
      end
  end.
Proof.
  unfold resize_to. rewrite bind_run, lift_run.
  destruct (parse_size size) as [e | [width height]]; [reflexivity |].
  rewrite bind_run, lift_run.
  destruct (aspect_fit _ _ _ _) as [e | [nw nh]]; [reflexivity |].
  rewrite bind_run, lift_run.
  destruct (Image_resize w img nw nh); reflexivity.
Qed.

(** X9. Output formats other than jpeg, webp and png (compared in lower
    case) are skipped: resize_image returns the same dict as with those
    formats removed from the list. *)
Theorem resize_image_skips_unsupported_formats (w : World) (data : bytes)
    (sizes formats : list string) :
  resize_image w data sizes formats
  = resize_image w data sizes (List.filter supported formats).
Proof.
  rewrite !resize_image_fold.
  destruct (_ ≫= _) as [e | img]; [reflexivity |].
  apply fold_left_ext. intros d size _. rewrite !resize_to_run.
  destruct (parse_size size) as [e | [width height]]; [reflexivity |].
  destruct (aspect_fit _ _ _ _) as [e | [nw nh]]; [reflexivity |].
  destruct (Image_resize w img nw nh) as [e | r]; [reflexivity |].
  f_equal. symmetry. apply for_each_filter.
  intros fmt s Hf. rewrite save_variant_encoder.
  unfold supported in Hf. destruct (encoder fmt); [discriminate | reflexivity].
Qed.



(** X10. If the encoder of a listed supported format raises for every image,
    the formats listed after it are never produced either: resize_image
    returns the same dict as with the format list cut before that format. *)
Theorem failing_encoder_drops_later_formats (w : World) (data : bytes)
    (sizes before after : list string) (fmt codec : string) (quality : option Z) :
  encoder fmt = Some (codec, quality) →
  (∀ img, ∃ e, Image_save w img codec quality = inl e) →
  resize_image w data sizes (before ++ fmt :: after)
  = resize_image w data sizes before.
Proof.
  intros Henc Hfail. rewrite !resize_image_fold.
  destruct (_ ≫= _) as [e | img]; [reflexivity |].
  apply fold_left_ext. intros d size _. rewrite !resize_to_run.
  destruct (parse_size size) as [e | [width height]]; [reflexivity |].
  destruct (aspect_fit _ _ _ _) as [e | [nw nh]]; [reflexivity |].
  destruct (Image_resize w img nw nh) as [e | r]; [reflexivity |].
  apply for_each_stops. intros s. rewrite save_variant_encoder, Henc.
  destruct (Hfail r) as (e & ->). eauto.
Qed.

Lemma failing_encoder_drops_later_formats_witness :
  resize_image Cases.w_no_webp Samples.png_bytes ["800x600"]
    (["jpeg"] ++ "webp" :: ["png"])
  = resize_image Cases.w_no_webp Samples.png_bytes ["800x600"] ["jpeg"].
Proof.
  apply (failing_encoder_drops_later_formats Cases.w_no_webp Samples.png_bytes
           ["800x600"] ["jpeg"] ["png"] "webp" "WEBP" (Some 85)).
  - reflexivity.
  - intros img. eexists. reflexivity.
Defined.

Lemma dict_set_in {V} k (v : V) d : k ∈ (dict_set k v d).*1.
Proof.
  induction d as [| [k0 v0] d IH]; simpl; [left |].
  destruct (String.eqb k0 k); simpl; [left | right; exact IH].
Qed.

Lemma dict_set_mono {V} k (v : V) d k' : k' ∈ d.*1 → k' ∈ (dict_set k v d).*1.
Proof.
  induction d as [| [k0 v0] d IH]; simpl; [intros H; inversion H |].
  destruct (String.eqb k0 k) eqn:E; simpl; rewrite !elem_of_cons.
  - apply String.eqb_eq in E as ->. tauto.
  - intros [-> | H]; [auto | right; apply IH, H].
Qed.

Section KeepsKeys.
Context (w : World).

Lemma keeps_keys_refl d : keeps_keys d d.
Proof. intros k Hk. exact Hk. Qed.

Lemma keeps_keys_trans d1 d2 d3 :
  keeps_keys d1 d2 → keeps_keys d2 d3 → keeps_keys d1 d3.
Proof. intros H12 H23 k Hk. apply H23, H12, Hk. Qed.

Lemma save_variant_keeps_keys img size fmt :
  keeps keeps_keys (save_variant w img size fmt).
Proof.
  intros d. rewrite save_variant_encoder.
  destruct (encoder fmt) as [[codec quality] |]; [| apply keeps_keys_refl].
  destruct (Image_save w img codec quality); [apply keeps_keys_refl |].
  intros k Hk. apply dict_set_mono, Hk.
Qed.

Lemma resize_to_keeps_keys img formats size :
  keeps keeps_keys (resize_to w img formats size).
Proof.
  intros d. rewrite resize_to_run.
  destruct (parse_size size) as [e | [width height]]; [apply keeps_keys_refl |].
  destruct (aspect_fit _ _ _ _) as [e | [nw nh]]; [apply keeps_keys_refl |].
  destruct (Image_resize w img nw nh) as [e | r]; [apply keeps_keys_refl |].
  apply (keeps_for_each keeps_keys keeps_keys_refl keeps_keys_trans).
  intros fmt _. apply save_variant_keeps_keys.
Qed.

Lemma resize_fold_keeps_keys img formats sizes d :
  keeps_keys d (fold_left (λ d size, snd (resize_to w img formats size d)) sizes d).
Proof.
  revert d. induction sizes as [| size sizes IH]; intros d; [apply keeps_keys_refl |].
  simpl. eapply keeps_keys_trans; [apply resize_to_keeps_keys | apply IH].
Qed.

(** With working encoders, the loop over the formats returns and leaves a
    key for each supported format. *)
Lemma save_loop_produces img size formats fmt d :
  (∀ codec quality, ∃ out, Image_save w img codec quality = inr out) →
  fmt ∈ formats → supported fmt = true →
  ∃ d', for_each (save_variant w img size) formats d = (inr (), d')
        ∧ (size +:+ "_" +:+ Py.lower fmt) ∈ d'.*1.
Proof.
  intros Hsave Hin Hsup. revert d Hin.
  assert (Hreturns : ∀ formats d,
             ∃ d', for_each (save_variant w img size) formats d = (inr (), d')).
  { intros fs. induction fs as [| f fs IH]; intros d0; [eexists; reflexivity |].
    simpl. rewrite bind_run, save_variant_encoder.
    destruct (encoder f) as [[codec quality] |]; [| apply IH].
    destruct (Hsave codec quality) as (out & ->). apply IH. }
  induction formats as [| f formats IH]; intros d Hin; [inversion Hin |].
  simpl. rewrite bind_run, save_variant_encoder.
  apply elem_of_cons in Hin as [<- | Hin].
  - unfold supported in Hsup.
    destruct (encoder fmt) as [[codec quality] |]; [| discriminate].
    destruct (Hsave codec quality) as (out & ->).
    destruct (Hreturns formats (dict_set (size +:+ "_" +:+ Py.lower fmt) out d))
      as (d' & Hd').
    exists d'. split; [exact Hd' |].
    pose proof (keeps_for_each keeps_keys keeps_keys_refl keeps_keys_trans
                  (save_variant w img size) formats
                  (λ f _, save_variant_keeps_keys img size f)
                  (dict_set (size +:+ "_" +:+ Py.lower fmt) out d)) as Hk.
    rewrite Hd' in Hk. apply Hk, dict_set_in.
  - destruct (encoder f) as [[codec quality] |]; [| apply IH, Hin].
    destruct (Hsave codec quality) as (out & ->). apply IH, Hin.
Qed.

End KeepsKeys.

(** X11. When the image decodes, the resampler accepts the computed
    dimensions and the encoders succeed, the dict of resize_image has the
    key '{size}_{format.lower()}' for every requested size that parses to
    sides from 1 to 2^53 - 1 and every requested format among jpeg, webp and
    png (image sides below 2^53). *)
Theorem resize_image_produces_requested_variants (w : World) (data : bytes)
    (sizes formats : list string) (img0 img1 img : Img)
    (size fmt : string) (width height : Z) :
  Image_open w data = inr img0 → exif_transpose w img0 = inr img1 →
  flatten_alpha w img1 = inr img →
  0 < img_width img < 2 ^ 53 → 0 < img_height img < 2 ^ 53 →
  size ∈ sizes → parse_size size = inr (width, height) →
  0 < width < 2 ^ 53 → 0 < height < 2 ^ 53 →
  (∀ new_width new_height,
     aspect_fit (img_width img) (img_height img) width height
     = inr (new_width, new_height) →
     ∃ resized, Image_resize w img new_width new_height = inr resized) →
  (∀ resized codec quality, ∃ out, Image_save w resized codec quality = inr out) →
  fmt ∈ formats → supported fmt = true →
  (size +:+ "_" +:+ Py.lower fmt) ∈ (resize_image w data sizes formats).*1.
Proof.
  intros Hopen Hexif Hflat Hw Hh Hsize Hparse HW HH Hresize Hsave Hfmt Hsup.
  rewrite resize_image_fold, Hopen. cbn [mbind res_bind].
  rewrite Hexif. cbn [mbind res_bind]. rewrite Hflat.
  apply list_elem_of_split in Hsize as (l1 & l2 & ->).
  rewrite fold_left_app. cbn [fold_left].
  apply resize_fold_keeps_keys.
  rewrite resize_to_run, Hparse.
  destruct (aspect_fit_returns _ _ _ _ Hw Hh HW HH) as (nw & nh & Hfit & _).
  rewrite Hfit. destruct (Hresize nw nh Hfit) as (r & ->).
  destruct (save_loop_produces w r size formats fmt
              (fold_left (λ d size, snd (resize_to w img formats size d)) l1 [])
              (Hsave r) Hfmt Hsup) as (d' & -> & Hk).
  exact Hk.
Qed.

Lemma resize_image_produces_requested_variants_witness :
  "800x600_jpeg"
  ∈ (resize_image Samples.w_ok Samples.png_bytes ["800x600"] ["jpeg"]).*1.
Proof.
  apply (resize_image_produces_requested_variants Samples.w_ok Samples.png_bytes
           ["800x600"] ["jpeg"] Samples.photo Samples.photo Samples.photo
           "800x600" "jpeg" 800 600).
  - reflexivity.
  - reflexivity.
  - reflexivity.
  - split; reflexivity.
  - split; reflexivity.
  - left.
  - reflexivity.
  - split; reflexivity.
  - split; reflexivity.
  - intros nw nh H. vm_compute in H. injection H as <- <-. eexists. reflexivity.
  - intros resized codec quality. eexists. reflexivity.
  - left.
  - reflexivity.
Defined.

(** X7. For an image more than W times as wide as it is high (W * h < w,
    sides below 2^24), the computed size for the target WxH is (W, 0): a
    height of zero pixels. *)
Theorem aspect_fit_of_elongated_image (img_w img_h width height : Z) :
  0 < img_w < 2 ^ 24 → 0 < img_h < 2 ^ 24 →
  0 < width < 2 ^ 24 → 0 < height < 2 ^ 24 →
  width * img_h < img_w →
  aspect_fit img_w img_h width height = inr (width, 0).
Proof.
  intros Hw Hh HW HH Hlong.
  destruct (aspect_fit_accuracy _ _ _ _ Hw Hh HW HH)
    as (nw & nh & -> & [(-> & Hle & Hn & Hex) | (-> & Hle & Hn & Hex)]).
  - rewrite Z.mod_small, Z.div_small in Hex by nia.
    rewrite Hex by nia. reflexivity.
  - exfalso. nia.
Qed.

Lemma aspect_fit_of_elongated_image_witness :
  aspect_fit 10000 10 800 600 = inr (800, 0).
Proof.
  apply aspect_fit_of_elongated_image; first [split; reflexivity | reflexivity].
Defined.

Lemma flatten_alpha_mode w img img' :
  flatten_alpha w img = inr img' →
  mode_in img' ["RGBA"; "LA"; "P"] = false
  ∧ img_width img' = img_width img ∧ img_height img' = img_height img.
Proof.
  unfold flatten_alpha. destruct (mode_in img _) eqn:E.
  - destruct (paste_on_white w img); [discriminate |].
    intros [= <-]. repeat split.
  - intros [= <-]. auto.
Qed.

(** X12. Whenever create_thumbnail returns, its bytes are the JPEG encoding
    at quality 80 of an image whose mode is not RGBA, LA or P. *)
Theorem thumbnail_is_encoded_without_alpha (w : World) (data out : bytes) :
  create_thumbnail w data = inr out →
  ∃ img, (img_mode img ∉ ["RGBA"; "LA"; "P"])
         ∧ Image_save w img "JPEG" (Some 80) = inr out.
Proof.
  unfold create_thumbnail. intros H.
  destruct (Image_open w data) as [| img0]; [discriminate |].
  cbn [mbind res_bind] in H.
  destruct (exif_transpose w img0) as [| img1]; [discriminate |].
  cbn [mbind res_bind] in H.
  destruct (Image_thumbnail w img1 150 150) as [| img2]; [discriminate |].
  cbn [mbind res_bind] in H.
  destruct (flatten_alpha w img2) as [| img3] eqn:Hflat; [discriminate |].
  cbn [mbind res_bind] in H.
  exists img3. split; [| exact H].
  apply flatten_alpha_mode in Hflat as (Hmode & _).
  unfold mode_in in Hmode. apply bool_decide_eq_false in Hmode. exact Hmode.
Qed.

Lemma thumbnail_is_encoded_without_alpha_witness :
  ∃ img, (img_mode img ∉ ["RGBA"; "LA"; "P"])
         ∧ Image_save Samples.w_ok img "JPEG" (Some 80) = inr Samples.png_bytes.
Proof.
  apply (thumbnail_is_encoded_without_alpha Samples.w_ok Samples.png_bytes).
  reflexivity.
Defined.

Lemma dict_set_other {V} k (v : V) d k' :
  k' ∈ (dict_set k v d).*1 → k' ≠ k → k' ∈ d.*1.
Proof.
  intros H Hne. destruct (dict_set_keys k v d k' H); [contradiction | assumption].
Qed.

Lemma dict_set_NoDup {V} k (v : V) d : NoDup d.*1 → NoDup (dict_set k v d).*1.
Proof.
  induction d as [| [k0 v0] d IH]; simpl.
  - intros _. apply NoDup_singleton.
  - intros [Hout Hd]%NoDup_cons.
    destruct (String.eqb k0 k) eqn:E; simpl.
    + apply String.eqb_eq in E as ->. apply NoDup_cons. auto.
    + apply String.eqb_neq in E. apply NoDup_cons. split; [| apply IH, Hd].
      intros Hin. apply Hout. exact (dict_set_other k v d k0 Hin E).
Qed.

Section Distinct.
Context (w : World).

Lemma keeps_distinct_refl d : keeps_distinct d d.
Proof. intros H. exact H. Qed.

Lemma keeps_distinct_trans d1 d2 d3 :
  keeps_distinct d1 d2 → keeps_distinct d2 d3 → keeps_distinct d1 d3.
Proof. intros H12 H23 H. apply H23, H12, H. Qed.

Lemma save_variant_distinct img size fmt :
  keeps keeps_distinct (save_variant w img size fmt).
Proof.
  intros d. rewrite save_variant_encoder.
  destruct (encoder fmt) as [[codec quality] |]; [| apply keeps_distinct_refl].
  destruct (Image_save w img codec quality); [apply keeps_distinct_refl |].
  intros H. apply dict_set_NoDup, H.
Qed.

Lemma resize_to_distinct img formats size :
  keeps keeps_distinct (resize_to w img formats size).
Proof.
  intros d. rewrite resize_to_run.
  destruct (parse_size size) as [e | [width height]]; [apply keeps_distinct_refl |].
  destruct (aspect_fit _ _ _ _) as [e | [nw nh]]; [apply keeps_distinct_refl |].
  destruct (Image_resize w img nw nh) as [e | r]; [apply keeps_distinct_refl |].
  apply (keeps_for_each keeps_distinct keeps_distinct_refl keeps_distinct_trans).
  intros fmt _. apply save_variant_distinct.
Qed.

End Distinct.

(** The dict that [resize_image] returns has no key twice, also when a
    size or a format is requested more than once. *)
Lemma resize_image_keys_are_distinct (w : World) (data : bytes)
    (sizes formats : list string) :
  NoDup (resize_image w data sizes formats).*1.
Proof.
  rewrite resize_image_fold.
  destruct (_ ≫= _) as [e | img]; [apply NoDup_nil_2 |].
  assert (H : ∀ d, NoDup d.*1 →
                NoDup (fold_left (λ d size, snd (resize_to w img formats size d))
                         sizes d).*1).
  { induction sizes as [| size sizes IH]; intros d Hd; [exact Hd |].
    simpl. apply IH. apply (resize_to_distinct w img formats size d), Hd. }
  apply H, NoDup_nil_2.
Qed.

(** ** download_image *)

Lemma download_body_returns_iff w p url data ctype st :
  download_body w p url = inr (data, ctype, st)
  ↔ ∃ resp n,
      session_get w url = inr resp
      ∧ resp_status resp = 200
      ∧ Py.startswith (Py.lower (default "" (resp_content_type resp))) "image/" = true
      ∧ declared_length resp = inr n ∧ n ≤ max_image_size p
      ∧ resp_read resp = inr data
      ∧ ctype = Py.lower (default "" (resp_content_type resp))
      ∧ st = resp_status resp.
Proof.
  unfold download_body, declared_length. split.
  - destruct (session_get w url) as [e | resp]; [discriminate |].
    cbn [mbind res_bind].
    destruct (resp_status resp =? 200) eqn:Est; [| discriminate].
    cbn [negb].
    destruct (Py.startswith _ "image/") eqn:Ect; [| discriminate].
    cbn [negb].
    destruct (match resp_content_length resp with
              | None => inr 0
              | Some h => Py.int_of_str h
              end) as [e | n] eqn:En; [discriminate |].
    cbn [mbind res_bind].
    destruct (n >? max_image_size p) eqn:Emax; [discriminate |].
    destruct (resp_read resp) as [e | body] eqn:Eread; [discriminate |].
    cbn [mbind res_bind mret res_ret]. intros [= <- <- <-].
    exists resp, n. repeat split; try assumption; lia.
  - intros (resp & n & -> & Hst & Hct & Hn & Hle & Hread & -> & ->).
    cbn [mbind res_bind]. rewrite Hst. cbn [Z.eqb Pos.eqb negb].
    rewrite Hct. cbn [negb]. rewrite Hn. cbn [mbind res_bind].
    destruct (n >? max_image_size p) eqn:Emax; [lia |].
    rewrite Hread. reflexivity.
Qed.

(** X1. download_image returns exactly when the server answers with status
    200, a content type that starts with image/ once lower-cased, a
    content-length header that is absent or parses to an integer not above
    the maximum, and a readable body. The metadata then carries the URL, the
    lower-cased content type, the length and SHA-256 of the body that was
    read, the status and the clock reading, and the clock has been read
    once. *)
Theorem download_image_returns_iff (w : World) (p : ImageProcessor)
    (url : string) (s s' : Sys) (data : bytes) (meta : DownloadMeta) :
  download_image w p url s = (inr (data, meta), s')
  ↔ ∃ resp n,
      session_get w url = inr resp
      ∧ resp_status resp = 200
      ∧ Py.startswith (Py.lower (default "" (resp_content_type resp))) "image/" = true
      ∧ declared_length resp = inr n ∧ n ≤ max_image_size p
      ∧ resp_read resp = inr data
      ∧ meta = download_metadata w url resp data (utcnow_at w (clock s))
      ∧ s' = tick s.
Proof.
  split.
  - unfold download_image.
    destruct (download_body w p url) as [e | [[body ctype] st]] eqn:Hbody;
      [discriminate |].
    apply download_body_returns_iff in Hbody
      as (resp & n & Hget & Hst & Hct & Hn & Hle & Hread & -> & ->).
    rewrite bind_run, utcnow_run. intros [= <- <- <-].
    exists resp, n. repeat split; assumption.
  - intros (resp & n & Hget & Hst & Hct & Hn & Hle & Hread & -> & ->).
    apply download_image_returns, download_body_returns_iff.
    exists resp, n. repeat split; assumption.
Qed.

(** X2. Whenever download_image raises, the exception is Exception('Download
    timeout for URL: <url>') or Exception('Download failed: <reason>'), and
    the bucket, the status store and the clock are as before the call. *)
Theorem download_failures_are_wrapped (w : World) (p : ImageProcessor)
    (url : string) (s s' : Sys) (e : exn) :
  download_image w p url s = (inl e, s') →
  s' = s
  ∧ (e = Exception ("Download timeout for URL: " +:+ url)
     ∨ ∃ reason, e = Exception ("Download failed: " +:+ reason)).
Proof.
  unfold download_image.
  destruct (download_body w p url) as [e0 | [[body ctype] st]].
  - rewrite lift_run. intros [= <- <-]. split; [reflexivity |].
    destruct e0 as [| msg]; simpl; eauto.
  - rewrite bind_run, utcnow_run. discriminate.
Qed.

Lemma download_failures_are_wrapped_witness :
  Samples.sys0 = Samples.sys0
  ∧ (Exception "Download failed: HTTP 404: Not Found"
     = Exception ("Download timeout for URL: " +:+ "https://example.com/a.png")
     ∨ ∃ reason, Exception "Download failed: HTTP 404: Not Found"
                 = Exception ("Download failed: " +:+ reason)).
Proof.
  apply (download_failures_are_wrapped Samples.w_404 Samples.proc
           "https://example.com/a.png" Samples.sys0 Samples.sys0).
  reflexivity.
Defined.

(** X3. When the download times out (asyncio.TimeoutError from the request
    or from reading the body), the job ends 'failed' with the single error
    'Download timeout for URL: <url>', with empty outputs and metadata,
    failed_at set and completed_at absent; the bucket and the status store
    are unchanged. *)
Theorem download_timeout_fails_job (w : World) (p : ImageProcessor)
    (job : Job) (jid iid u : string) (s : Sys) :
  job_id job = Some jid → image_id job = Some iid → url job = Some u →
  download_body w p u = inl TimeoutError →
  ∃ result s',
    process_image_job w p job s = (inr result, s')
    ∧ r_status result = "failed"
    ∧ r_errors result = ["Download timeout for URL: " +:+ u]
    ∧ r_outputs result = {| out_original := None; out_thumbnail := None;
                            out_resized := None |}
    ∧ r_metadata result = {| md_download := None; md_image := None |}
    ∧ r_completed_at result = None
    ∧ r_failed_at result = Some (utcnow_at w (S (clock s)))
    ∧ bucket s' = bucket s ∧ jobs s' = jobs s.
Proof.
  intros Hj Hi Hu Hbody.
  eexists _, _. split.
  - rewrite (process_image_job_keys w p job jid iid u s Hj Hi Hu).
    apply try_stages_raises.
    apply job_stages_download_raises. exact Hbody.
  - repeat split; reflexivity.
Qed.

Lemma download_timeout_fails_job_witness :
  ∃ result s',
    process_image_job Cases.w_timeout Samples.proc (Samples.job None) Samples.sys0
    = (inr result, s')
    ∧ r_status result = "failed"
    ∧ r_errors result = ["Download timeout for URL: " +:+ "https://example.com/a.png"]
    ∧ r_outputs result = {| out_original := None; out_thumbnail := None;
                            out_resized := None |}
    ∧ r_metadata result = {| md_download := None; md_image := None |}
    ∧ r_completed_at result = None
    ∧ r_failed_at result = Some (utcnow_at Cases.w_timeout (S (clock Samples.sys0)))
    ∧ bucket s' = bucket Samples.sys0 ∧ jobs s' = jobs Samples.sys0.
Proof.
  apply (download_timeout_fails_job Cases.w_timeout Samples.proc (Samples.job None)
           "job-1" "img-1" "https://example.com/a.png" Samples.sys0);
    reflexivity.
Defined.

(** ** What a job does to the bucket *)

Section JobKeeps.
Context (w : World) (p : ImageProcessor) (job : Job) (jid iid : string).
Context (R : Sys → Sys → Prop).
Context (R_refl : ∀ s, R s s) (R_trans : ∀ s1 s2 s3, R s1 s2 → R s2 s3 → R s1 s3).
Context (R_tick : ∀ s, R s (tick s)).
Context (R_upload : ∀ data path ctype meta s,
            job_upload jid iid (get_resize_formats job) (get_output_formats job)
              path ctype meta →
            R s (snd (upload_to_storage w p data path ctype meta s))).

Let Q := on_fst R.

Lemma on_fst_refl sr : Q sr sr.
Proof using R_refl. apply R_refl. Qed.

Lemma on_fst_trans sr1 sr2 sr3 : Q sr1 sr2 → Q sr2 sr3 → Q sr1 sr3.
Proof using R_trans. apply R_trans. Qed.

Lemma on_sys_keeps {A} (m : M A) : keeps R m → keeps Q (on_sys m).
Proof.
  intros Hm [s r]. unfold Q, on_fst. rewrite on_sys_run. cbn [fst snd]. apply Hm.
Qed.

Lemma update_result_keeps f : keeps Q (update_result f).
Proof using R_refl. intros [s r]. apply R_refl. Qed.

Lemma lift_keeps_sys {A} (r : res A) : keeps Q (lift r).
Proof using R_refl. intros sr. apply R_refl. Qed.

Lemma utcnow_keeps : keeps R (utcnow w).
Proof using R_tick. intros s. apply R_tick. Qed.

Lemma download_image_keeps u : keeps R (download_image w p u).
Proof using R_refl R_tick.
  intros s. unfold download_image.
  destruct (download_body w p u) as [e | [[data ctype] st]].
  - apply R_refl.
  - rewrite bind_run, utcnow_run. apply R_tick.
Qed.

Ltac step :=
  first [ apply (keeps_bind Q on_fst_trans)
        | apply update_result_keeps
        | apply lift_keeps_sys
        | apply (keeps_ret Q on_fst_refl) ].

Lemma thumbnail_stage_keeps data :
  keeps Q (thumbnail_stage w p jid iid data).
Proof using R_refl R_trans R_upload.
  unfold thumbnail_stage. step; [step |]. intros thumbnail_data.
  step; [| intros; step].
  apply on_sys_keeps. intros s. apply R_upload. right; left. auto.
Qed.

Lemma resize_stage_keeps data :
  keeps Q (resize_stage w p jid iid data (get_resize_formats job)
             (get_output_formats job)).
Proof using R_refl R_trans R_upload.
  unfold resize_stage. step; [step |]. intros _.
  apply (keeps_for_each Q on_fst_refl on_fst_trans).
  intros [k resized_data] Hin. unfold upload_variant. cbn [fst snd].
  step; [| intros; step].
  apply on_sys_keeps. intros s. apply R_upload. right; right.
  exists k. split; [| auto].
  apply resize_image_keys with w data.
  apply list_elem_of_fmap. exists (k, resized_data). auto.
Qed.

Lemma derived_stages_keeps data :
  keeps Q (derived_stages w p job jid iid data).
Proof using R_refl R_trans R_tick R_upload.
  unfold derived_stages. step.
  { destruct (get_create_thumbnail job); [apply thumbnail_stage_keeps | step]. }
  intros _. step.
  { generalize (resize_stage_keeps data).
    case (get_resize_formats job); [intros _; step | intros size sizes H; exact H]. }
  intros _. step; [apply on_sys_keeps, utcnow_keeps |]. intros now. step.
Qed.

Lemma job_stages_keeps u : keeps Q (job_stages w p job jid iid u).
Proof using R_refl R_trans R_tick R_upload.
  unfold job_stages. step; [apply on_sys_keeps, download_image_keeps |].
  intros downloaded. step; [step |]. intros _. step; [step |]. intros _.
  step.
  { apply on_sys_keeps. intros s. apply R_upload. left. auto. }
  intros original_url. step; [step |]. intros _. apply derived_stages_keeps.
Qed.

(** Whatever [R] the clock and the uploads of the job keep, a run of the
    job keeps. *)
Lemma process_image_job_keeps u s :
  job_id job = Some jid → image_id job = Some iid → url job = Some u →
  R s (snd (process_image_job w p job s)).
Proof using R_refl R_trans R_tick R_upload.
  intros Hj Hi Hu.
  rewrite (process_image_job_keys w p job jid iid u s Hj Hi Hu).
  unfold try_stages.
  pose proof (job_stages_keeps u
                (tick s, initial_result jid iid u (utcnow_at w (clock s)))) as H.
  unfold Q, on_fst in H. cbn [fst] in H.
  destruct (job_stages w p job jid iid u _) as [[e | []] [s1 r1]];
    cbn [fst snd] in *.
  - rewrite bind_run, utcnow_run. cbn [snd].
    eapply R_trans; [apply R_tick |]. eapply R_trans; [exact H | apply R_tick].
  - eapply R_trans; [apply R_tick | exact H].
Qed.

End JobKeeps.

Lemma append_inj_r (a b c : string) : a +:+ b = a +:+ c → b = c.
Proof. induction a as [| x a IH]; simpl; [auto |]. intros [= H]. auto. Qed.

Lemma resized_path_inj iid k k' : resized_path iid k = resized_path iid k' → k = k'.
Proof.
  unfold resized_path. intros H.
  repeat apply append_inj_r in H. exact H.
Qed.

Lemma job_upload_artifact jid iid sizes formats path ctype meta :
  job_upload jid iid sizes formats path ctype meta →
  path ∈ artifact_paths iid sizes formats.
Proof.
  unfold artifact_paths.
  intros [[-> _] | [(-> & _) | (k & Hk & -> & _)]].
  - left.
  - right; left.
  - right; right. apply list_elem_of_fmap. eauto.
Qed.

(** What one upload does to the bucket: nothing, or the blob at its path. *)
Lemma upload_to_storage_bucket w p data path ctype meta s :
  let s' := snd (upload_to_storage w p data path ctype meta s) in
  jobs s' = jobs s ∧ uuids s' = uuids s ∧ clock s' = clock s
  ∧ (bucket s' = bucket s
     ∨ ∃ public,
         bucket s' = <[path := {| blob_data := data; blob_content_type := ctype;
                                  blob_metadata := meta; blob_public := public |}]>
                       (bucket s)).
Proof.
  unfold upload_to_storage.
  destruct (upload_from_string w path data ctype); [simpl; auto |].
  destruct (make_public w path); simpl; eauto 10.
Qed.

Section Touches.
Context (paths : list string).

Lemma touches_only_refl s : touches_only paths s s.
Proof. repeat split. Qed.

Lemma touches_only_trans s1 s2 s3 :
  touches_only paths s1 s2 → touches_only paths s2 s3 → touches_only paths s1 s3.
Proof.
  intros (Hb1 & Hj1 & Hu1) (Hb2 & Hj2 & Hu2). repeat split; [| congruence ..].
  intros path Hpath. rewrite Hb2, Hb1 by exact Hpath. reflexivity.
Qed.

Lemma touches_only_tick s : touches_only paths s (tick s).
Proof. repeat split. Qed.

Lemma touches_only_upload w p data path ctype meta s :
  path ∈ paths →
  touches_only paths s (snd (upload_to_storage w p data path ctype meta s)).
Proof.
  intros Hin.
  destruct (upload_to_storage_bucket w p data path ctype meta s)
    as (Hj & Hu & _ & Hb).
  repeat split; [| assumption ..].
  intros path' Hout. destruct Hb as [-> | (public & ->)]; [reflexivity |].
  apply lookup_insert_ne. intros <-. contradiction.
Qed.

End Touches.

Section Blobs.
Context (jid iid : string) (sizes formats : list string).

Lemma blobs_of_job_refl s : blobs_of_job jid iid sizes formats s s.
Proof. intros path blob H. left. exact H. Qed.

Lemma blobs_of_job_trans s1 s2 s3 :
  blobs_of_job jid iid sizes formats s1 s2 →
  blobs_of_job jid iid sizes formats s2 s3 →
  blobs_of_job jid iid sizes formats s1 s3.
Proof.
  intros H12 H23 path blob H.
  destruct (H23 path blob H) as [H2 | H2]; [apply H12, H2 | right; exact H2].
Qed.

Lemma blobs_of_job_tick s : blobs_of_job jid iid sizes formats s (tick s).
Proof. intros path blob H. left. exact H. Qed.

Lemma blobs_of_job_upload w p data path ctype meta s :
  job_upload jid iid sizes formats path ctype meta →
  blobs_of_job jid iid sizes formats s
    (snd (upload_to_storage w p data path ctype meta s)).
Proof.
  intros Hup path' blob.
  destruct (upload_to_storage_bucket w p data path ctype meta s)
    as (_ & _ & _ & [-> | (public & ->)]); [auto |].
  destruct (decide (path' = path)) as [-> | Hne].
  - rewrite lookup_insert_eq. intros [= <-]. right. exact Hup.
  - rewrite lookup_insert_ne by congruence. auto.
Qed.

End Blobs.

(** X14. A run of process_image_job on a job that has job_id, image_id and
    url leaves every blob outside the artifact paths of its image id
    unchanged, and leaves the status store and the uuid counter unchanged. *)
Theorem job_touches_only_its_artifacts (w : World) (p : ImageProcessor)
    (job : Job) (jid iid u : string) (s : Sys) :
  job_id job = Some jid → image_id job = Some iid → url job = Some u →
  let s' := snd (process_image_job w p job s) in
  (∀ path,
     path ∉ artifact_paths iid (get_resize_formats job) (get_output_formats job) →
     bucket s' !! path = bucket s !! path)
  ∧ jobs s' = jobs s ∧ uuids s' = uuids s.
Proof.
  intros Hj Hi Hu.
  apply (process_image_job_keeps w p job jid iid
           (touches_only (artifact_paths iid (get_resize_formats job)
                            (get_output_formats job)))
           (touches_only_refl _) (touches_only_trans _) (touches_only_tick _))
    with (u := u); try assumption.
  intros data path ctype meta s0 Hup.
  apply touches_only_upload. exact (job_upload_artifact _ _ _ _ _ _ _ Hup).
Qed.

Lemma job_touches_only_its_artifacts_witness :
  jobs (snd (process_image_job Samples.w_ok Samples.proc (Samples.job None)
               Samples.sys_queued))
  = jobs Samples.sys_queued.
Proof.
  exact (proj1 (proj2
           (job_touches_only_its_artifacts Samples.w_ok Samples.proc
              (Samples.job None) "job-1" "img-1" "https://example.com/a.png"
              Samples.sys_queued eq_refl eq_refl eq_refl))).
Defined.

(** X15. Every blob in the bucket after a run (of a job that has job_id,
    image_id and url) is the blob that was there before, or was uploaded by
    this run with the job id and the artifact type in its metadata; the
    thumbnail and the resized variants, PNG and WebP included, are stored
    with content type image/jpeg. *)
Theorem derived_artifacts_are_stored_as_jpeg (w : World) (p : ImageProcessor)
    (job : Job) (jid iid u : string) (s : Sys) (path : string) (blob : Blob) :
  job_id job = Some jid → image_id job = Some iid → url job = Some u →
  bucket (snd (process_image_job w p job s)) !! path = Some blob →
  bucket s !! path = Some blob
  ∨ (path = original_path iid
     ∧ blob_metadata blob = [("job_id", jid); ("type", "original")])
  ∨ (path = thumbnail_path iid
     ∧ blob_content_type blob = "image/jpeg"
     ∧ blob_metadata blob = [("job_id", jid); ("type", "thumbnail")])
  ∨ (∃ size fmt,
       size ∈ get_resize_formats job ∧ fmt ∈ get_output_formats job
       ∧ path = resized_path iid (size +:+ "_" +:+ Py.lower fmt)
       ∧ blob_content_type blob = "image/jpeg"
       ∧ blob_metadata blob
         = [("job_id", jid); ("type", "resized");
            ("variant", size +:+ "_" +:+ Py.lower fmt)]).
Proof.
  intros Hj Hi Hu Hblob.
  pose proof (process_image_job_keeps w p job jid iid
                (blobs_of_job jid iid (get_resize_formats job) (get_output_formats job))
                (blobs_of_job_refl _ _ _ _) (blobs_of_job_trans _ _ _ _)
                (blobs_of_job_tick _ _ _ _)
                (λ data path ctype meta s0 Hup,
                   blobs_of_job_upload _ _ _ _ w p data path ctype meta s0 Hup)
                u s Hj Hi Hu path blob Hblob) as [H | H]; [left; exact H | right].
  destruct H as [[-> Hm] | [(-> & Hc & Hm) | (k & Hk & -> & Hc & Hm)]].
  - left. auto.
  - right; left. auto.
  - right; right. apply variant_keys_spec in Hk as (size & fmt & Hs & Hf & ->).
    exists size, fmt. auto.
Qed.

Lemma derived_artifacts_are_stored_as_jpeg_witness :
  bucket (snd (process_image_job Samples.w_ok Samples.proc Cases.png_job
                 Samples.sys0)) !! resized_path "img-1" "800x600_png"
  = Some (stored Samples.png_bytes "image/jpeg"
            [("job_id", "job-1"); ("type", "resized"); ("variant", "800x600_png")])
  ∧ ∃ size fmt,
      size ∈ get_resize_formats Cases.png_job
      ∧ fmt ∈ get_output_formats Cases.png_job
      ∧ resized_path "img-1" "800x600_png"
        = resized_path "img-1" (size +:+ "_" +:+ Py.lower fmt)
      ∧ blob_content_type
          (stored Samples.png_bytes "image/jpeg"
             [("job_id", "job-1"); ("type", "resized"); ("variant", "800x600_png")])
        = "image/jpeg".
Proof.
  assert (H : bucket (snd (process_image_job Samples.w_ok Samples.proc Cases.png_job
                             Samples.sys0)) !! resized_path "img-1" "800x600_png"
              = Some (stored Samples.png_bytes "image/jpeg"
                        [("job_id", "job-1"); ("type", "resized");
                         ("variant", "800x600_png")]))
    by (vm_compute; reflexivity).
  split; [exact H |].
  destruct (derived_artifacts_are_stored_as_jpeg Samples.w_ok Samples.proc
              Cases.png_job "job-1" "img-1" "https://example.com/a.png"
              Samples.sys0 _ _ eq_refl eq_refl eq_refl H)
    as [Hold | [[Horig _] | [[Hthumb _] | (size & fmt & Hs & Hf & Hp & Hc & _)]]].
  - discriminate Hold.
  - discriminate Horig.
  - discriminate Hthumb.
  - exists size, fmt. auto.
Defined.

(** X13. If the original is uploaded and make_public then raises, the job
    ends 'failed' with that exception as its only error and with empty
    outputs, while the uploaded original stays in the bucket, not public. *)
Theorem unpublished_original_stays_in_bucket (w : World) (p : ImageProcessor)
    (job : Job) (jid iid u : string) (s : Sys)
    (data : bytes) (ctype : string) (st : Z) (e : exn) :
  job_id job = Some jid → image_id job = Some iid → url job = Some u →
  download_body w p u = inr (data, ctype, st) →
  upload_from_string w (original_path iid) data ctype = None →
  make_public w (original_path iid) = Some e →
  ∃ result s',
    process_image_job w p job s = (inr result, s')
    ∧ r_status result = "failed"
    ∧ r_errors result = [str_exn e]
    ∧ r_outputs result = {| out_original := None; out_thumbnail := None;
                            out_resized := None |}
    ∧ bucket s' = <[original_path iid :=
                      {| blob_data := data; blob_content_type := ctype;
                         blob_metadata := [("job_id", jid); ("type", "original")];
                         blob_public := false |}]> (bucket s).
Proof.
  intros Hj Hi Hu Hbody Hup Hpub.
  eexists _, _. split.
  - rewrite (process_image_job_keys w p job jid iid u s Hj Hi Hu).
    apply try_stages_raises. unfold job_stages.
    rewrite bind_run, on_sys_run, (download_image_returns w p u data ctype st _ Hbody).
    cbn [fst snd]. rewrite bind_run, update_result_run.
    rewrite bind_run, update_result_run.
    rewrite bind_run, on_sys_run. cbn [dm_content_type].
    unfold upload_to_storage. rewrite Hup, Hpub. reflexivity.
  - repeat split; reflexivity.
Qed.

Lemma unpublished_original_stays_in_bucket_witness :
  ∃ result s',
    process_image_job Cases.w_private Samples.proc (Samples.job None) Samples.sys0
    = (inr result, s')
    ∧ r_status result = "failed"
    ∧ r_errors result = ["400 Cannot insert legacy ACL for an object"]
    ∧ r_outputs result = {| out_original := None; out_thumbnail := None;
                            out_resized := None |}
    ∧ bucket s' = <[original_path "img-1" :=
                      {| blob_data := Samples.png_bytes;
                         blob_content_type := "image/png";
                         blob_metadata := [("job_id", "job-1"); ("type", "original")];
                         blob_public := false |}]> (bucket Samples.sys0).
Proof.
  apply (unpublished_original_stays_in_bucket Cases.w_private Samples.proc
           (Samples.job None) "job-1" "img-1" "https://example.com/a.png"
           Samples.sys0 Samples.png_bytes "image/png" 200
           (Exception "400 Cannot insert legacy ACL for an object"));
    reflexivity.
Defined.

(** X19. Two jobs that agree on job_id, image_id, url and on the options in
    effect (create_thumbnail, default true; resize_formats, default
    ['400x300']; output_formats, default ['jpeg']) run identically, with the
    same result and the same final state; so a job without
    processing_options runs as one with these defaults written out. *)
Theorem run_depends_on_the_keys_it_reads (w : World) (p : ImageProcessor)
    (j1 j2 : Job) (s : Sys) :
  job_id j1 = job_id j2 → image_id j1 = image_id j2 → url j1 = url j2 →
  get_create_thumbnail j1 = get_create_thumbnail j2 →
  get_resize_formats j1 = get_resize_formats j2 →
  get_output_formats j1 = get_output_formats j2 →
  process_image_job w p j1 s = process_image_job w p j2 s.
Proof.
  intros Hj Hi Hu Ht Hs Hf.
  unfold process_image_job, try_stages, job_stages, derived_stages.
  rewrite Hj, Hi, Hu, Ht, Hs, Hf. reflexivity.
Qed.

Lemma run_depends_on_the_keys_it_reads_witness :
  process_image_job Samples.w_ok Samples.proc (Samples.job None) Samples.sys0
  = process_image_job Samples.w_ok Samples.proc Cases.explicit_job Samples.sys0.
Proof.
  apply run_depends_on_the_keys_it_reads; reflexivity.
Defined.

(** ** A completed job *)

Lemma with_locators_lookup p iid items m k :
  with_locators p iid items m !! k
  = if decide (k ∈ items.*1) then Some (locator p (resized_path iid k)) else m !! k.
Proof.
  unfold with_locators. revert m.
  induction items as [| [k0 v0] items IH]; intros m.
  - rewrite decide_False by (intros H; inversion H). reflexivity.
  - cbn [foldl fst]. rewrite IH. rewrite fmap_cons. cbn [fst].
    destruct (decide (k ∈ items.*1)) as [Hin | Hout].
    + rewrite decide_True by (right; exact Hin). reflexivity.
    + destruct (decide (k = k0)) as [-> | Hne].
      * rewrite decide_True by left. apply lookup_insert_eq.
      * rewrite decide_False
          by (intros [? | ?]%elem_of_cons; contradiction).
        apply lookup_insert_ne. congruence.
Qed.

Lemma with_variants_other jid iid items b path :
  (∀ k, k ∈ items.*1 → path ≠ resized_path iid k) →
  with_variants jid iid items b !! path = b !! path.
Proof.
  unfold with_variants. revert b.
  induction items as [| item items IH]; intros b Hpath; [reflexivity |].
  simpl. rewrite IH.
  - apply lookup_insert_ne. intros E. apply (Hpath (fst item)); [left | auto].
  - intros k Hk. apply Hpath. right. exact Hk.
Qed.

Lemma with_variants_lookup jid iid items b k :
  k ∈ items.*1 →
  ∃ data, (k, data) ∈ items
          ∧ with_variants jid iid items b !! resized_path iid k
            = Some (variant_blob jid (k, data)).
Proof.
  revert b. induction items as [| [k0 v0] items IH]; intros b Hk; [inversion Hk |].
  destruct (decide (k ∈ items.*1)) as [Hin | Hout].
  - destruct (IH (<[resized_path iid k0 := variant_blob jid (k0, v0)]> b) Hin)
      as (data & Hdata & Hlook).
    exists data. split; [right; exact Hdata | exact Hlook].
  - apply elem_of_cons in Hk as [-> | Hk]; [| contradiction].
    exists v0. split; [left |].
    unfold with_variants. simpl. fold (with_variants jid iid items
      (<[resized_path iid k0 := variant_blob jid (k0, v0)]> b)).
    rewrite with_variants_other.
    + apply lookup_insert_eq.
    + intros k Hk E. apply resized_path_inj in E as <-. contradiction.
Qed.

Lemma distinct_keys_entries {V} (items : list (string * V)) k v1 v2 :
  NoDup items.*1 → (k, v1) ∈ items → (k, v2) ∈ items → v1 = v2.
Proof.
  induction items as [| [k0 v0] items IH]; [intros _ H; inversion H |].
  rewrite fmap_cons. cbn [fst]. intros [Hout Hnd]%NoDup_cons H1 H2.
  assert (Hkey : ∀ v, (k, v) ∈ items → k ∈ items.*1).
  { intros v Hv. apply list_elem_of_fmap. exists (k, v). auto. }
  apply elem_of_cons in H1 as [E1 | H1], H2 as [E2 | H2].
  - congruence.
  - injection E1 as -> ->. exfalso. exact (Hout (Hkey v2 H2)).
  - injection E2 as -> ->. exfalso. exact (Hout (Hkey v1 H1)).
  - exact (IH Hnd H1 H2).
Qed.

(** With distinct keys, each entry of the dict ends up at its path. *)
Lemma with_variants_entry jid iid items b k data :
  NoDup items.*1 → (k, data) ∈ items →
  with_variants jid iid items b !! resized_path iid k
  = Some (variant_blob jid (k, data)).
Proof.
  intros Hnd Hin.
  destruct (with_variants_lookup jid iid items b k) as (data' & Hin' & ->).
  { apply list_elem_of_fmap. exists (k, data). auto. }
  rewrite (distinct_keys_entries items k data data' Hnd Hin Hin'). reflexivity.
Qed.

Section Completed.
Context (w : World) (p : ImageProcessor).

Lemma upload_to_storage_returns data path ctype meta s loc s' :
  upload_to_storage w p data path ctype meta s = (inr loc, s') →
  loc = locator p path
  ∧ s' = set_bucket (insert path (stored data ctype meta)) s.
Proof.
  unfold upload_to_storage.
  destruct (upload_from_string w path data ctype); [discriminate |].
  destruct (make_public w path); [discriminate |].
  intros [= <- <-]. split; reflexivity.
Qed.

Lemma on_sys_upload_returns data path ctype meta s r loc sr' :
  on_sys (upload_to_storage w p data path ctype meta) (s, r) = (inr loc, sr') →
  loc = locator p path
  ∧ sr' = (set_bucket (insert path (stored data ctype meta)) s, r).
Proof.
  rewrite on_sys_run.
  destruct (upload_to_storage w p data path ctype meta s) as [[e | loc'] s1] eqn:E;
    [discriminate |].
  cbn [fst snd]. intros [= <- <-].
  destruct (upload_to_storage_returns _ _ _ _ _ _ _ E) as [-> ->]. auto.
Qed.

(** The upload loop, when it returns. *)
Lemma upload_loop_returns jid iid items s r sr' :
  for_each (upload_variant w p jid iid) items (s, r) = (inr (), sr') →
  sr' = (set_bucket (with_variants jid iid items) s,
         foldl (λ r item,
                  set_outputs (put_resized (fst item)
                                 (locator p (resized_path iid (fst item)))) r)
           r items).
Proof.
  revert s r. induction items as [| item items IH]; intros s r.
  - simpl. intros [= <-]. destruct s; reflexivity.
  - simpl. intros H. apply bind_returns in H as ([] & sr1 & Hup & H).
    unfold upload_variant in Hup.
    apply bind_returns in Hup as (loc & sr0 & Hup & Hset).
    apply on_sys_upload_returns in Hup as [-> ->].
    rewrite update_result_run in Hset. injection Hset as <-.
    apply IH in H as ->. reflexivity.
Qed.

Lemma put_resized_loop iid items r :
  let r' := foldl (λ r item,
                     set_outputs (put_resized (fst item)
                                    (locator p (resized_path iid (fst item)))) r)
              r items in
  out_original (r_outputs r') = out_original (r_outputs r)
  ∧ out_thumbnail (r_outputs r') = out_thumbnail (r_outputs r)
  ∧ r_metadata r' = r_metadata r
  ∧ r_status r' = r_status r
  ∧ (∀ m, out_resized (r_outputs r) = Some m →
          out_resized (r_outputs r') = Some (with_locators p iid items m)).
Proof.
  revert r. induction items as [| item items IH]; intros r; [simpl; auto |].
  simpl. destruct (IH (set_outputs (put_resized (fst item)
                         (locator p (resized_path iid (fst item)))) r))
    as (Ho & Ht & Hm & Hs & Hr).
  cbn zeta in *. rewrite Ho, Ht, Hm, Hs. repeat split.
  intros m Hm0. rewrite (Hr _ eq_refl). simpl. rewrite Hm0. reflexivity.
Qed.

End Completed.

Section CompletedRun.
Context (w : World) (p : ImageProcessor).

Lemma download_returned u s r dl sr' :
  on_sys (download_image w p u) (s, r) = (inr dl, sr') →
  ∃ data ctype st,
    download_body w p u = inr (data, ctype, st)
    ∧ fst dl = data ∧ dm_content_type (snd dl) = ctype
    ∧ sr' = (tick s, r).
Proof.
  rewrite on_sys_run.
  destruct (download_body w p u) as [e | [[data ctype] st]] eqn:Hbody.
  - rewrite (download_image_raises w p u e s Hbody). discriminate.
  - rewrite (download_image_returns w p u data ctype st s Hbody).
    cbn [fst snd]. intros [= <- <-]. exists data, ctype, st. auto.
Qed.

(** The state in which a returning thumbnail step leaves the job. *)
Lemma thumbnail_stage_returns jid iid data s r sr' :
  thumbnail_stage w p jid iid data (s, r) = (inr (), sr') →
  ∃ td, create_thumbnail w data = inr td
        ∧ sr' = (set_bucket (insert (thumbnail_path iid)
                               (stored td "image/jpeg"
                                  [("job_id", jid); ("type", "thumbnail")])) s,
                 set_outputs (put_thumbnail (locator p (thumbnail_path iid))) r).
Proof.
  unfold thumbnail_stage. intros H.
  apply bind_returns in H as (td & sr0 & Hth & H).
  rewrite lift_run in Hth. injection Hth as Hth <-.
  apply bind_returns in H as (loc & sr1 & Hup & H).
  apply on_sys_upload_returns in Hup as [-> ->].
  rewrite update_result_run in H. injection H as <-.
  exists td. auto.
Qed.

Lemma resize_stage_returns jid iid data sizes formats s r sr' :
  resize_stage w p jid iid data sizes formats (s, r) = (inr (), sr') →
  let items := resize_image w data sizes formats in
  ∃ r', sr' = (set_bucket (with_variants jid iid items) s, r')
        ∧ out_original (r_outputs r') = out_original (r_outputs r)
        ∧ out_thumbnail (r_outputs r') = out_thumbnail (r_outputs r)
        ∧ r_metadata r' = r_metadata r
        ∧ out_resized (r_outputs r') = Some (with_locators p iid items ∅).
Proof.
  intros H items. unfold resize_stage in H. fold items in H.
  apply bind_returns in H as ([] & sr0 & Hreset & H).
  rewrite update_result_run in Hreset. injection Hreset as <-.
  apply upload_loop_returns in H as ->.
  eexists. split; [reflexivity |].
  destruct (put_resized_loop p iid items (set_outputs reset_resized r))
    as (Ho & Ht & Hm & _ & Hr).
  cbn zeta in *. rewrite Ho, Ht, Hm. repeat split.
  apply Hr. reflexivity.
Qed.

Lemma completed_run job jid iid u s result s' :
  job_id job = Some jid → image_id job = Some iid → url job = Some u →
  process_image_job w p job s = (inr result, s') →
  r_status result = "completed" →
  ∃ data ctype st b2,
    download_body w p u = inr (data, ctype, st)
    ∧ (let b1 := <[original_path iid :=
                     stored data ctype [("job_id", jid); ("type", "original")]]>
                   (bucket s) in
       if get_create_thumbnail job then
         ∃ td, create_thumbnail w data = inr td
               ∧ b2 = <[thumbnail_path iid :=
                          stored td "image/jpeg"
                            [("job_id", jid); ("type", "thumbnail")]]> b1
       else b2 = b1)
    ∧ (let items := resize_image w data (get_resize_formats job)
                      (get_output_formats job) in
       match get_resize_formats job with
       | [] => bucket s' = b2 ∧ out_resized (r_outputs result) = None
       | _ :: _ =>
           bucket s' = with_variants jid iid items b2
           ∧ out_resized (r_outputs result) = Some (with_locators p iid items ∅)
       end)
    ∧ out_original (r_outputs result) = Some (locator p (original_path iid))
    ∧ out_thumbnail (r_outputs result)
      = (if get_create_thumbnail job
         then Some (locator p (thumbnail_path iid)) else None)
    ∧ md_image (r_metadata result) = Some (extract_image_metadata w data).
Proof.
  intros Hj Hi Hu Hrun Hdone.
  rewrite (process_image_job_keys w p job jid iid u s Hj Hi Hu) in Hrun.
  unfold try_stages in Hrun.
  destruct (job_stages w p job jid iid u _) as [[e | []] [s1 r1]] eqn:Hst.
  { rewrite bind_run, utcnow_run in Hrun. injection Hrun as <- <-. discriminate. }
  injection Hrun as <- <-. clear Hdone.
  unfold job_stages in Hst.
  apply bind_returns in Hst as (dl & sr & Hdl & Hst).
  apply download_returned in Hdl as (data & ctype & st & Hbody & Hdata & Hctype & ->).
  apply bind_returns in Hst as ([] & sr & Hset & Hst).
  rewrite update_result_run in Hset. injection Hset as <-.
  apply bind_returns in Hst as ([] & sr & Hset & Hst).
  rewrite update_result_run in Hset. injection Hset as <-.
  apply bind_returns in Hst as (loc & sr & Hup & Hst).
  rewrite Hdata, Hctype in Hup.
  apply on_sys_upload_returns in Hup as [-> ->].
  apply bind_returns in Hst as ([] & sr & Hset & Hst).
  rewrite update_result_run in Hset. injection Hset as <-.
  rewrite Hdata in Hst. unfold derived_stages in Hst.
  apply bind_returns in Hst as ([] & [s2 r2] & Hthumb & Hst).
  apply bind_returns in Hst as ([] & [s3 r3] & Hresize & Hst).
  apply bind_returns in Hst as (now & [s4 r4] & Hnow & Hst).
  rewrite on_sys_run, utcnow_run in Hnow. injection Hnow as <- <- <-.
  rewrite update_result_run in Hst. injection Hst as <- <-.
  exists data, ctype, st, (bucket s2). split; [exact Hbody |].
  cbn [r_outputs r_metadata set_completed bucket tick].
  assert (H2 :
    (if get_create_thumbnail job then
       ∃ td, create_thumbnail w data = inr td
             ∧ bucket s2 = <[thumbnail_path iid :=
                               stored td "image/jpeg"
                                 [("job_id", jid); ("type", "thumbnail")]]>
                             (<[original_path iid :=
                                  stored data ctype
                                    [("job_id", jid); ("type", "original")]]>
                                (bucket s))
     else bucket s2 = <[original_path iid :=
                          stored data ctype
                            [("job_id", jid); ("type", "original")]]> (bucket s))
    ∧ out_original (r_outputs r2) = Some (locator p (original_path iid))
    ∧ out_thumbnail (r_outputs r2)
      = (if get_create_thumbnail job
         then Some (locator p (thumbnail_path iid)) else None)
    ∧ out_resized (r_outputs r2) = None
    ∧ md_image (r_metadata r2) = Some (extract_image_metadata w data)).
  { destruct (get_create_thumbnail job).
    - apply thumbnail_stage_returns in Hthumb as (td & Htd & [= -> ->]).
      split; [exists td; auto |]. repeat split.
    - injection Hthumb as <- <-. repeat split. }
  destruct H2 as (Hb2 & Ho2 & Ht2 & Hr2 & Hm2).
  split; [exact Hb2 |].
  destruct (get_resize_formats job) as [| size sizes] eqn:Esizes.
  - injection Hresize as <- <-. repeat split; assumption.
  - rewrite <- Esizes in *.
    apply resize_stage_returns in Hresize as (r' & [= -> ->] & Ho & Ht & Hm & Hr).
    cbn [bucket set_bucket]. rewrite Ho, Ht, Hm.
    repeat split; first [assumption | reflexivity].
Qed.

End CompletedRun.

(** X16. The outputs of a completed job hold the locator of the original,
    the locator of the thumbnail exactly when create_thumbnail is on, and
    under 'resized' one locator for each key of the dict of resize_image and
    nothing else (no 'resized' key when resize_formats is empty);
    metadata.image is the metadata extracted from the downloaded bytes. *)
Theorem completed_job_lists_its_artifacts (w : World) (p : ImageProcessor)
    (job : Job) (jid iid u : string) (s s' : Sys) (result : Result) :
  job_id job = Some jid → image_id job = Some iid → url job = Some u →
  process_image_job w p job s = (inr result, s') →
  r_status result = "completed" →
  ∃ data ctype st,
    download_body w p u = inr (data, ctype, st)
    ∧ out_original (r_outputs result) = Some (locator p (original_path iid))
    ∧ out_thumbnail (r_outputs result)
      = (if get_create_thumbnail job
         then Some (locator p (thumbnail_path iid)) else None)
    ∧ match get_resize_formats job with
      | [] => out_resized (r_outputs result) = None
      | _ :: _ =>
          ∃ m, out_resized (r_outputs result) = Some m
               ∧ ∀ k, m !! k
                      = if decide (k ∈ (resize_image w data (get_resize_formats job)
                                          (get_output_formats job)).*1)
                        then Some (locator p (resized_path iid k)) else None
      end
    ∧ md_image (r_metadata result) = Some (extract_image_metadata w data).
Proof.
  intros Hj Hi Hu Hrun Hdone.
  destruct (completed_run w p job jid iid u s result s' Hj Hi Hu Hrun Hdone)
    as (data & ctype & st & b2 & Hbody & _ & Hres & Ho & Ht & Hm).
  exists data, ctype, st. repeat (split; [assumption |]). split; [| exact Hm].
  cbn zeta in Hres.
  destruct (get_resize_formats job) as [| size sizes]; [apply Hres |].
  destruct Hres as [_ Hres]. eexists. split; [exact Hres |].
  intros k. rewrite with_locators_lookup, lookup_empty. reflexivity.
Qed.

Lemma completed_job_lists_its_artifacts_witness :
  ∃ result s',
    process_image_job Samples.w_ok Samples.proc (Samples.job None) Samples.sys0
    = (inr result, s')
    ∧ r_status result = "completed"
    ∧ out_original (r_outputs result)
      = Some (locator Samples.proc (original_path "img-1"))
    ∧ out_thumbnail (r_outputs result)
      = Some (locator Samples.proc (thumbnail_path "img-1")).
Proof.
  assert (H : ∃ result s',
             process_image_job Samples.w_ok Samples.proc (Samples.job None)
               Samples.sys0 = (inr result, s')
             ∧ r_status result = "completed").
  { eexists _, _. split; [vm_compute; reflexivity | reflexivity]. }
  destruct H as (result & s' & Hrun & Hdone).
  exists result, s'. split; [exact Hrun |]. split; [exact Hdone |].
  destruct (completed_job_lists_its_artifacts Samples.w_ok Samples.proc
              (Samples.job None) "job-1" "img-1" "https://example.com/a.png"
              Samples.sys0 s' result eq_refl eq_refl eq_refl Hrun Hdone)
    as (data & ctype & st & _ & Ho & Ht & _).
  split; [exact Ho | exact Ht].
Defined.

(** X17. After a completed job the bucket holds the downloaded bytes at the
    original path with the content type of the download, the thumbnail bytes
    at the thumbnail path when a thumbnail was requested, and for each entry
    (key, data) of the dict of resize_image the data at the resized path of
    that key; each of these blobs is public and carries the job id and its
    type. *)
Theorem completed_job_stored_its_artifacts (w : World) (p : ImageProcessor)
    (job : Job) (jid iid u : string) (s s' : Sys) (result : Result) :
  job_id job = Some jid → image_id job = Some iid → url job = Some u →
  process_image_job w p job s = (inr result, s') →
  r_status result = "completed" →
  ∃ data ctype st,
    download_body w p u = inr (data, ctype, st)
    ∧ bucket s' !! original_path iid
      = Some (stored data ctype [("job_id", jid); ("type", "original")])
    ∧ (get_create_thumbnail job = true →
       ∃ thumbnail_data,
         create_thumbnail w data = inr thumbnail_data
         ∧ bucket s' !! thumbnail_path iid
           = Some (stored thumbnail_data "image/jpeg"
                     [("job_id", jid); ("type", "thumbnail")]))
    ∧ (get_resize_formats job ≠ [] →
       ∀ k resized_data,
         (k, resized_data) ∈ resize_image w data (get_resize_formats job)
                               (get_output_formats job) →
         bucket s' !! resized_path iid k
         = Some (stored resized_data "image/jpeg"
                   [("job_id", jid); ("type", "resized"); ("variant", k)])).
Proof.
  intros Hj Hi Hu Hrun Hdone.
  destruct (completed_run w p job jid iid u s result s' Hj Hi Hu Hrun Hdone)
    as (data & ctype & st & b2 & Hbody & Hb2 & Hres & _).
  exists data, ctype, st. split; [exact Hbody |].
  cbn zeta in Hb2, Hres.
  set (items := resize_image w data (get_resize_formats job) (get_output_formats job))
    in *.
  assert (Hs' : bucket s' = b2 ∧ get_resize_formats job = []
                ∨ bucket s' = with_variants jid iid items b2
                  ∧ get_resize_formats job ≠ []).
  { destruct (get_resize_formats job); [left | right];
      (split; [apply Hres | congruence]). }
  assert (Hkeep : ∀ path, (∀ k, path ≠ resized_path iid k) →
                          bucket s' !! path = b2 !! path).
  { intros path Hpath. destruct Hs' as [[-> _] | [-> _]]; [reflexivity |].
    apply with_variants_other. intros k _. apply Hpath. }
  split; [| split].
  - rewrite Hkeep by (intros k E; symmetry in E; exact (resized_path_not_original _ _ E)).
    destruct (get_create_thumbnail job).
    + destruct Hb2 as (td & _ & ->).
      rewrite lookup_insert_ne by apply thumbnail_path_not_original.
      apply lookup_insert_eq.
    + rewrite Hb2. apply lookup_insert_eq.
  - intros Hthumb. rewrite Hthumb in Hb2. destruct Hb2 as (td & Htd & ->).
    exists td. split; [exact Htd |].
    rewrite Hkeep by (intros k E; symmetry in E; exact (resized_path_not_thumbnail _ _ E)).
    apply lookup_insert_eq.
  - intros Hsizes k resized_data Hk.
    destruct Hs' as [[_ E] | [-> _]]; [contradiction |].
    apply (with_variants_entry jid iid items b2 k resized_data); [| exact Hk].
    apply resize_image_keys_are_distinct.
Qed.

Lemma completed_job_stored_its_artifacts_witness :
  ∃ result s' data ctype st,
    process_image_job Samples.w_ok Samples.proc (Samples.job None) Samples.sys0
    = (inr result, s')
    ∧ r_status result = "completed"
    ∧ download_body Samples.w_ok Samples.proc "https://example.com/a.png"
      = inr (data, ctype, st)
    ∧ bucket s' !! original_path "img-1"
      = Some (stored data ctype [("job_id", "job-1"); ("type", "original")]).
Proof.
  assert (H : ∃ result s',
             process_image_job Samples.w_ok Samples.proc (Samples.job None)
               Samples.sys0 = (inr result, s')
             ∧ r_status result = "completed").
  { eexists _, _. split; [vm_compute; reflexivity | reflexivity]. }
  destruct H as (result & s' & Hrun & Hdone).
  destruct (completed_job_stored_its_artifacts Samples.w_ok Samples.proc
              (Samples.job None) "job-1" "img-1" "https://example.com/a.png"
              Samples.sys0 s' result eq_refl eq_refl eq_refl Hrun Hdone)
    as (data & ctype & st & Hbody & Ho & _).
  exists result, s', data, ctype, st. auto.
Defined.

(** ** The time fields of a result *)

Section Times.
Context (w : World) (p : ImageProcessor).

Lemma same_times_refl sr : same_times sr sr.
Proof. repeat split. Qed.

Lemma same_times_trans sr1 sr2 sr3 :
  same_times sr1 sr2 → same_times sr2 sr3 → same_times sr1 sr3.
Proof. unfold same_times. intuition congruence. Qed.

Lemma on_sys_same_times {A} (m : M A) : keeps same_times (on_sys m).
Proof. intros [s r]. rewrite on_sys_run. repeat split. Qed.

Lemma set_outputs_same_times f : keeps same_times (update_result (set_outputs f)).
Proof. intros [s r]. repeat split. Qed.

Lemma set_metadata_same_times f : keeps same_times (update_result (set_metadata f)).
Proof. intros [s r]. repeat split. Qed.

Ltac keeps_times :=
  repeat first
    [ apply (keeps_bind same_times same_times_trans); [| intros ?]
    | apply (keeps_for_each same_times same_times_refl same_times_trans); intros ? _
    | apply (keeps_ret same_times same_times_refl)
    | apply (keeps_lift same_times same_times_refl)
    | apply on_sys_same_times
    | apply set_outputs_same_times
    | apply set_metadata_same_times ].

Lemma thumbnail_stage_same_times jid iid data :
  keeps same_times (thumbnail_stage w p jid iid data).
Proof. unfold thumbnail_stage. keeps_times. Qed.

Lemma resize_stage_same_times jid iid data sizes formats :
  keeps same_times (resize_stage w p jid iid data sizes formats).
Proof. unfold resize_stage. keeps_times. Qed.

(** Steps 4 and 5 leave the time fields alone; only the "Success!" lines,
    which cannot raise, set them. *)
Lemma derived_stages_times job jid iid data sr :
  match derived_stages w p job jid iid data sr with
  | (inl _, sr') => same_times sr sr'
  | (inr _, sr') =>
      ∃ now r3, snd sr' = set_completed now r3 ∧ same_times sr (fst sr', r3)
  end.
Proof.
  unfold derived_stages.
  set (step4 := if get_create_thumbnail job then _ else _).
  set (step5 := match get_resize_formats job with [] => _ | _ :: _ => _ end).
  assert (H4 : keeps same_times step4).
  { unfold step4. destruct (get_create_thumbnail job);
      [apply thumbnail_stage_same_times | keeps_times]. }
  assert (H5 : keeps same_times step5).
  { unfold step5. destruct (get_resize_formats job);
      [keeps_times | apply resize_stage_same_times]. }
  rewrite bind_run. specialize (H4 sr).
  destruct (step4 sr) as [[e | []] sr1]; cbn [snd] in H4; [exact H4 |].
  rewrite bind_run. specialize (H5 sr1).
  destruct (step5 sr1) as [[e | []] [s2 r2]]; cbn [snd] in H5.
  { exact (same_times_trans _ _ _ H4 H5). }
  rewrite bind_run, on_sys_run, utcnow_run. cbn [fst snd].
  rewrite update_result_run. exists (utcnow_at w (clock s2)), r2.
  split; [reflexivity |]. exact (same_times_trans _ _ _ H4 H5).
Qed.

(** Sequencing a computation that leaves the times alone with one that
    ends as [derived_stages] does. *)
Lemma bind_times {A} (m : J A) (f : A → J unit) sr0 sr :
  same_times sr0 sr → keeps same_times m →
  (∀ a sr1, same_times sr0 sr1 →
     match f a sr1 with
     | (inl _, sr') => same_times sr0 sr'
     | (inr _, sr') =>
         ∃ now r3, snd sr' = set_completed now r3 ∧ same_times sr0 (fst sr', r3)
     end) →
  match (m ≫= f) sr with
  | (inl _, sr') => same_times sr0 sr'
  | (inr _, sr') =>
      ∃ now r3, snd sr' = set_completed now r3 ∧ same_times sr0 (fst sr', r3)
  end.
Proof.
  intros H0 Hm Hf. rewrite bind_run. specialize (Hm sr).
  destruct (m sr) as [[e | a] sr1]; cbn [snd] in Hm.
  - exact (same_times_trans _ _ _ H0 Hm).
  - apply Hf. exact (same_times_trans _ _ _ H0 Hm).
Qed.

Lemma job_stages_times job jid iid u sr :
  match job_stages w p job jid iid u sr with
  | (inl _, sr') => same_times sr sr'
  | (inr _, sr') =>
      ∃ now r3, snd sr' = set_completed now r3 ∧ same_times sr (fst sr', r3)
  end.
Proof.
  unfold job_stages.
  apply bind_times; [apply same_times_refl | keeps_times |]. intros downloaded sr1 H1.
  apply bind_times; [exact H1 | keeps_times |]. intros _ sr2 H2.
  apply bind_times; [exact H2 | keeps_times |]. intros _ sr3 H3.
  apply bind_times; [exact H3 | keeps_times |]. intros original_url sr4 H4.
  apply bind_times; [exact H4 | keeps_times |]. intros _ sr5 H5.
  pose proof (derived_stages_times job jid iid (fst downloaded) sr5) as Hd.
  destruct (derived_stages w p job jid iid (fst downloaded) sr5)
    as [[e | []] sr6].
  - exact (same_times_trans _ _ _ H5 Hd).
  - destruct Hd as (now & r3 & Hset & Hd). exists now, r3.
    split; [exact Hset |]. exact (same_times_trans _ _ _ H5 Hd).
Qed.

End Times.

(** X18. Every result that process_image_job returns has started_at equal to
    the first clock reading and is either 'completed', with completed_at and
    processing_time = completed_at - started_at and without failed_at, or
    'failed', with failed_at and without completed_at and processing_time. *)
Theorem result_is_terminal_with_its_times (w : World) (p : ImageProcessor)
    (job : Job) (jid iid u : string) (s s' : Sys) (result : Result) :
  job_id job = Some jid → image_id job = Some iid → url job = Some u →
  process_image_job w p job s = (inr result, s') →
  r_started_at result = utcnow_at w (clock s)
  ∧ (r_status result = "completed"
     ∧ (∃ t, r_completed_at result = Some t
             ∧ r_processing_time result = Some (t - r_started_at result))
     ∧ r_failed_at result = None
     ∨ r_status result = "failed"
       ∧ r_completed_at result = None
       ∧ r_processing_time result = None
       ∧ ∃ t, r_failed_at result = Some t).
Proof.
  intros Hj Hi Hu.
  rewrite (process_image_job_keys w p job jid iid u s Hj Hi Hu).
  unfold try_stages.
  pose proof (job_stages_times w p job jid iid u
                (tick s, initial_result jid iid u (utcnow_at w (clock s)))) as H.
  destruct (job_stages w p job jid iid u _) as [[e | []] [s1 r1]].
  - rewrite bind_run, utcnow_run. intros [= <- <-].
    destruct H as (_ & Hstart & Hdone & Htime & _). cbn [snd] in *.
    split; [exact Hstart |]. right.
    cbn [set_failed r_status r_completed_at r_processing_time r_failed_at].
    rewrite Hdone, Htime. eauto.
  - intros [= <- <-]. destruct H as (now & r3 & Hset & H).
    cbn [fst snd] in *. subst r1.
    destruct H as (_ & Hstart & _ & _ & Hfail). cbn [snd] in *.
    cbn [set_completed r_status r_started_at r_completed_at r_processing_time
         r_failed_at].
    split; [exact Hstart |]. left. rewrite Hfail. eauto.
Qed.

Lemma result_is_terminal_with_its_times_witness :
  ∃ result s',
    process_image_job Samples.w_404 Samples.proc (Samples.job None) Samples.sys0
    = (inr result, s')
    ∧ r_started_at result = utcnow_at Samples.w_404 (clock Samples.sys0)
    ∧ (r_status result = "completed"
       ∧ (∃ t, r_completed_at result = Some t
               ∧ r_processing_time result = Some (t - r_started_at result))
       ∧ r_failed_at result = None
       ∨ r_status result = "failed"
         ∧ r_completed_at result = None
         ∧ r_processing_time result = None
         ∧ ∃ t, r_failed_at result = Some t).
Proof.
  assert (H : ∃ result s',
             process_image_job Samples.w_404 Samples.proc (Samples.job None)
               Samples.sys0 = (inr result, s')).
  { eexists _, _. vm_compute. reflexivity. }
  destruct H as (result & s' & Hrun).
  exists result, s'. split; [exact Hrun |].
  exact (result_is_terminal_with_its_times Samples.w_404 Samples.proc
           (Samples.job None) "job-1" "img-1" "https://example.com/a.png"
           Samples.sys0 s' result eq_refl eq_refl eq_refl Hrun).
Defined.

(** ** Running a job again *)

Lemma apply_writes_app ws1 ws2 b :
  apply_writes (ws1 ++ ws2) b = apply_writes ws2 (apply_writes ws1 b).
Proof. unfold apply_writes. apply foldl_app. Qed.

Lemma apply_writes_lookup ws b path :
  apply_writes ws b !! path
  = match last_write path ws with
    | Some blob => Some blob
    | None => b !! path
    end.
Proof.
  revert b. induction ws as [| [k v] ws IH]; intros b; [reflexivity |].
  cbn [apply_writes foldl last_write fst snd].
  fold (apply_writes ws (<[k := v]> b)). rewrite IH.
  destruct (last_write path ws); [reflexivity |].
  destruct (String.eqb k path) eqn:E.
  - apply String.eqb_eq in E as ->. apply lookup_insert_eq.
  - apply String.eqb_neq in E. apply lookup_insert_ne, E.
Qed.

(** Writing the same blobs again changes nothing. *)
Lemma apply_writes_twice ws b :
  apply_writes ws (apply_writes ws b) = apply_writes ws b.
Proof.
  apply map_eq. intros path. rewrite !apply_writes_lookup.
  destruct (last_write path ws); reflexivity.
Qed.

Section Writes.
Context (w : World) (p : ImageProcessor).

Lemma upload_to_storage_writes data path ctype meta s :
  bucket (snd (upload_to_storage w p data path ctype meta s))
  = apply_writes (fst (upload_writes w data path ctype meta)) (bucket s)
  ∧ match fst (upload_to_storage w p data path ctype meta s) with
    | inr _ => snd (upload_writes w data path ctype meta) = true
    | inl _ => snd (upload_writes w data path ctype meta) = false
    end.
Proof.
  unfold upload_to_storage, upload_writes.
  destruct (upload_from_string w path data ctype); [simpl; auto |].
  destruct (make_public w path); simpl; auto.
Qed.

Lemma on_sys_upload_writes data path ctype meta sr :
  bucket (fst (snd (on_sys (upload_to_storage w p data path ctype meta) sr)))
  = apply_writes (fst (upload_writes w data path ctype meta)) (bucket (fst sr))
  ∧ match fst (on_sys (upload_to_storage w p data path ctype meta) sr) with
    | inr _ => snd (upload_writes w data path ctype meta) = true
    | inl _ => snd (upload_writes w data path ctype meta) = false
    end.
Proof.
  destruct sr as [s r]. rewrite on_sys_run. cbn [fst snd].
  apply upload_to_storage_writes.
Qed.

Lemma upload_variant_writes jid iid item sr :
  let up := upload_writes w (snd item) (resized_path iid (fst item)) "image/jpeg"
              [("job_id", jid); ("type", "resized"); ("variant", fst item)] in
  bucket (fst (snd (upload_variant w p jid iid item sr)))
  = apply_writes (fst up) (bucket (fst sr))
  ∧ match fst (upload_variant w p jid iid item sr) with
    | inr _ => snd up = true
    | inl _ => snd up = false
    end.
Proof.
  intros up. unfold upload_variant. rewrite bind_run.
  destruct (on_sys_upload_writes (snd item) (resized_path iid (fst item)) "image/jpeg"
              [("job_id", jid); ("type", "resized"); ("variant", fst item)] sr)
    as (Hb & Hres).
  destruct (on_sys _ sr) as [[e | loc] [s1 r1]]; simpl in *; auto.
Qed.

Lemma upload_loop_writes jid iid items sr :
  bucket (fst (snd (for_each (upload_variant w p jid iid) items sr)))
  = apply_writes (variant_writes w jid iid items) (bucket (fst sr)).
Proof.
  revert sr. induction items as [| item items IH]; intros sr; [reflexivity |].
  cbn [for_each variant_writes]. rewrite bind_run.
  destruct (upload_variant_writes jid iid item sr) as [Hb Hres].
  cbv zeta in Hb, Hres.
  destruct (upload_variant w p jid iid item sr) as [[e | []] sr1];
    cbn [fst snd] in *; rewrite Hres, apply_writes_app.
  - rewrite Hb. reflexivity.
  - rewrite IH, Hb. reflexivity.
Qed.

Lemma thumbnail_stage_writes jid iid data sr :
  let th := thumbnail_writes w jid iid data true in
  bucket (fst (snd (thumbnail_stage w p jid iid data sr)))
  = apply_writes (fst th) (bucket (fst sr))
  ∧ match fst (thumbnail_stage w p jid iid data sr) with
    | inr _ => snd th = true
    | inl _ => snd th = false
    end.
Proof.
  unfold thumbnail_stage, thumbnail_writes. rewrite bind_run, lift_run.
  destruct (create_thumbnail w data) as [e | td]; simpl; [auto |].
  rewrite bind_run.
  destruct (on_sys_upload_writes td (thumbnail_path iid) "image/jpeg"
              [("job_id", jid); ("type", "thumbnail")] sr) as (Hb & Hres).
  destruct (on_sys _ sr) as [[e | loc] [s1 r1]]; simpl in *; auto.
Qed.

Lemma resize_stage_writes jid iid data sizes formats sr :
  bucket (fst (snd (resize_stage w p jid iid data sizes formats sr)))
  = apply_writes (variant_writes w jid iid (resize_image w data sizes formats))
      (bucket (fst sr)).
Proof.
  unfold resize_stage. rewrite bind_run. destruct sr as [s r].
  rewrite update_result_run, upload_loop_writes. reflexivity.
Qed.

Lemma derived_stages_writes job jid iid data sr :
  let th := thumbnail_writes w jid iid data (get_create_thumbnail job) in
  bucket (fst (snd (derived_stages w p job jid iid data sr)))
  = apply_writes
      (fst th ++
       (if snd th then
          match get_resize_formats job with
          | [] => []
          | _ :: _ =>
              variant_writes w jid iid
                (resize_image w data (get_resize_formats job) (get_output_formats job))
          end
        else []))
      (bucket (fst sr)).
Proof.
  intros th. unfold derived_stages.
  set (step4 := if get_create_thumbnail job then _ else _).
  set (step5 := match get_resize_formats job with [] => _ | _ :: _ => _ end).
  rewrite bind_run, apply_writes_app.
  assert (Hth :
    bucket (fst (snd (step4 sr))) = apply_writes (fst th) (bucket (fst sr))
    ∧ match fst (step4 sr) with
      | inr _ => snd th = true
      | inl _ => snd th = false
      end).
  { unfold th, step4. destruct (get_create_thumbnail job).
    - apply thumbnail_stage_writes.
    - simpl. auto. }
  destruct Hth as [Hb Hres].
  destruct (step4 sr) as [[e | []] sr1]; cbn [fst snd] in *; rewrite Hres.
  - rewrite Hb. reflexivity.
  - rewrite bind_run.
    assert (Hrs :
      bucket (fst (snd (step5 sr1)))
      = apply_writes
          match get_resize_formats job with
          | [] => []
          | _ :: _ =>
              variant_writes w jid iid
                (resize_image w data (get_resize_formats job) (get_output_formats job))
          end (bucket (fst sr1))).
    { unfold step5. destruct (get_resize_formats job) eqn:E.
      - reflexivity.
      - rewrite <- E. apply resize_stage_writes. }
    rewrite <- Hb, <- Hrs.
    destruct (step5 sr1) as [[e | []] [s2 r2]]; reflexivity.
Qed.

Lemma job_stages_writes job jid iid u sr :
  bucket (fst (snd (job_stages w p job jid iid u sr)))
  = apply_writes
      (job_writes w p jid iid u (get_create_thumbnail job)
         (get_resize_formats job) (get_output_formats job))
      (bucket (fst sr)).
Proof.
  unfold job_stages, job_writes. destruct sr as [s r].
  rewrite bind_run, on_sys_run. unfold download_image.
  destruct (download_body w p u) as [e | [[data ctype] st]]; [reflexivity |].
  rewrite bind_run, utcnow_run. cbn [fst snd mret ST_ret].
  rewrite bind_run, update_result_run.
  rewrite bind_run, update_result_run.
  rewrite bind_run. cbn [dm_content_type].
  match goal with
  | |- context [on_sys (upload_to_storage w p data ?path ctype ?meta) ?sr0] =>
      destruct (on_sys_upload_writes data path ctype meta sr0) as (Hb & Hres);
      destruct (on_sys (upload_to_storage w p data path ctype meta) sr0)
        as [[e | loc] [s1 r1]]
  end; cbn [fst snd] in *; rewrite Hres, apply_writes_app.
  - rewrite Hb. reflexivity.
  - rewrite bind_run, update_result_run.
    rewrite derived_stages_writes. cbn [fst snd].
    rewrite Hb. reflexivity.
Qed.

(** The bucket after a run is the bucket before it with the writes of the
    job applied. *)
Lemma process_image_job_writes job jid iid u s :
  job_id job = Some jid → image_id job = Some iid → url job = Some u →
  bucket (snd (process_image_job w p job s))
  = apply_writes
      (job_writes w p jid iid u (get_create_thumbnail job)
         (get_resize_formats job) (get_output_formats job))
      (bucket s).
Proof.
  intros Hj Hi Hu.
  rewrite (process_image_job_keys w p job jid iid u s Hj Hi Hu).
  unfold try_stages.
  pose proof (job_stages_writes job jid iid u
                (tick s, initial_result jid iid u (utcnow_at w (clock s)))) as Hb.
  destruct (job_stages w p job jid iid u _) as [[e | []] [s1 r1]];
    cbn [fst snd] in *; exact Hb.
Qed.

End Writes.

(** X20. Running the same job (with job_id, image_id and url) a second time
    with the same collaborators leaves the bucket exactly as the first run
    left it: the same paths with the same blobs. *)
Theorem rerun_leaves_bucket_unchanged (w : World) (p : ImageProcessor)
    (job : Job) (jid iid u : string) (s : Sys) :
  job_id job = Some jid → image_id job = Some iid → url job = Some u →
  bucket (snd (process_image_job w p job (snd (process_image_job w p job s))))
  = bucket (snd (process_image_job w p job s)).
Proof.
  intros Hj Hi Hu.
  rewrite !(process_image_job_writes w p job jid iid u _ Hj Hi Hu).
  apply apply_writes_twice.
Qed.

Lemma rerun_leaves_bucket_unchanged_witness :
  bucket (snd (process_image_job Samples.w_ok Samples.proc (Samples.job None)
                 (snd (process_image_job Samples.w_ok Samples.proc
                         (Samples.job None) Samples.sys0))))
  = bucket (snd (process_image_job Samples.w_ok Samples.proc (Samples.job None)
                   Samples.sys0)).
Proof.
  apply (rerun_leaves_bucket_unchanged Samples.w_ok Samples.proc (Samples.job None)
           "job-1" "img-1" "https://example.com/a.png" Samples.sys0);
    reflexivity.
Defined.

(** ** Messages and requests *)

(** A run of the job never writes to the status store. *)
Lemma process_image_job_store w p job s :
  jobs (snd (process_image_job w p job s)) = jobs s.
Proof.
  destruct (job_id job) as [jid |] eqn:Hj;
    [destruct (image_id job) as [iid |] eqn:Hi;
     [destruct (url job) as [u |] eqn:Hu |] |].
  - apply (process_image_job_keeps w p job jid iid (λ s s', jobs s' = jobs s))
      with (u := u); try assumption; try reflexivity.
    + intros s1 s2 s3 H12 H23. congruence.
    + intros data path ctype meta s0 _.
      apply (upload_to_storage_bucket w p data path ctype meta s0).
  - destruct (process_image_job_key_missing w p job s) as (e & ->); auto.
  - destruct (process_image_job_key_missing w p job s) as (e & ->); auto.
  - destruct (process_image_job_key_missing w p job s) as (e & ->); auto.
Qed.

(** X21. A message that process_message nacks leaves the system untouched:
    nothing is written to the bucket or to the status store, and the clock
    is not read. *)
Theorem nacked_message_leaves_no_trace (w : World) (h : PubSubHandler)
    (message : Message) (s : Sys) :
  fst (process_message w h message s) = Nack →
  snd (process_message w h message s) = s.
Proof.
  unfold process_message. rewrite bind_run, lift_run.
  destruct (json_loads w (msg_data message)) as [e | payload]; [reflexivity |].
  rewrite bind_run, lift_run.
  destruct (as_dict payload) as [e | job]; [reflexivity |].
  rewrite bind_run.
  destruct (job_id job) as [jid |] eqn:Hj;
    [destruct (image_id job) as [iid |] eqn:Hi;
     [destruct (url job) as [u |] eqn:Hu |] |];
    try (destruct (process_image_job_key_missing w (processor h) job s)
           as (e & ->); [solve [auto] | reflexivity]).
  destruct (process_image_job_terminal w (processor h) job jid iid u s Hj Hi Hu)
    as (result & s1 & -> & _).
  destruct (update_job_status_returns w (Some jid) result s1) as (s2 & ->).
  discriminate.
Qed.

Lemma nacked_message_leaves_no_trace_witness :
  snd (process_message Samples.w_ok Samples.handler Samples.message Samples.sys_queued)
  = Samples.sys_queued.
Proof.
  apply nacked_message_leaves_no_trace. reflexivity.
Defined.

(** X22. A message whose job has job_id, image_id and url is acknowledged
    with a terminal result; the status store afterwards is the store before
    with the document of the job replaced by its status and result if that
    document existed and Firestore accepted the update, and otherwise the
    store before: update_job_status creates no document and swallows its
    failure. *)
Theorem acknowledged_job_is_recorded_if_known (w : World) (h : PubSubHandler)
    (message : Message) (job : Job) (jid iid u : string) (s : Sys) :
  json_loads w (msg_data message) = inr (PObject job) →
  job_id job = Some jid → image_id job = Some iid → url job = Some u →
  ∃ result s1,
    process_image_job w (processor h) job s = (inr result, s1)
    ∧ (r_status result = "completed" ∨ r_status result = "failed")
    ∧ fst (process_message w h message s) = Ack
    ∧ jobs (snd (process_message w h message s))
      = match jobs s !! jid, firestore_update w jid with
        | Some _, None =>
            <[jid := {| doc_status := r_status result;
                        doc_processing_result := Some result |}]> (jobs s)
        | _, _ => jobs s
        end.
Proof.
  intros Hload Hj Hi Hu.
  destruct (process_image_job_terminal w (processor h) job jid iid u s Hj Hi Hu)
    as (result & s1 & Hrun & _ & Hst).
  exists result, s1. split; [exact Hrun |]. split; [tauto |].
  pose proof (process_image_job_store w (processor h) job s) as Hjobs.
  rewrite Hrun in Hjobs. cbn [snd] in Hjobs.
  unfold process_message.
  rewrite bind_run, lift_run, Hload. cbn [as_dict].
  rewrite bind_run, lift_run, bind_run, Hrun, Hj.
  unfold update_job_status. rewrite Hjobs.
  destruct (firestore_update w jid), (jobs s !! jid);
    cbn [fst snd jobs set_jobs]; rewrite ?Hjobs; auto.
Qed.

Lemma acknowledged_job_is_recorded_if_known_witness :
  ∃ result s1,
    process_image_job Samples.w_ok_queue (processor Samples.handler)
      (Samples.job None) Samples.sys_queued = (inr result, s1)
    ∧ (r_status result = "completed" ∨ r_status result = "failed")
    ∧ fst (process_message Samples.w_ok_queue Samples.handler Samples.message
             Samples.sys_queued) = Ack
    ∧ jobs (snd (process_message Samples.w_ok_queue Samples.handler Samples.message
                   Samples.sys_queued))
      = match jobs Samples.sys_queued !! "job-1",
              firestore_update Samples.w_ok_queue "job-1" with
        | Some _, None =>
            <["job-1" := {| doc_status := r_status result;
                            doc_processing_result := Some result |}]>
              (jobs Samples.sys_queued)
        | _, _ => jobs Samples.sys_queued
        end.
Proof.
  apply (acknowledged_job_is_recorded_if_known Samples.w_ok_queue Samples.handler
           Samples.message (Samples.job None) "job-1" "img-1"
           "https://example.com/a.png" Samples.sys_queued);
    reflexivity.
Defined.

Lemma add_required_fields_store w job_data s :
  jobs (snd (add_required_fields w job_data s)) = jobs s
  ∧ bucket (snd (add_required_fields w job_data s)) = bucket s.
Proof.
  unfold add_required_fields.
  destruct (job_id job_data) as [jid |] eqn:Hj,
           (image_id job_data) as [iid |] eqn:Hi;
    rewrite bind_run; simpl; rewrite Hi; split; reflexivity.
Qed.

(** X23. POST /process never writes to the status store, whatever the
    request. *)
Theorem process_single_image_is_not_recorded (w : World) (h : PubSubHandler)
    (request : Request) (s : Sys) :
  jobs (snd (process_single_image w h request s)) = jobs s.
Proof.
  unfold process_single_image. rewrite bind_run, lift_run.
  destruct (get_json request) as [e | [| t truthy msg | job_data]];
    [reflexivity | reflexivity | destruct truthy; reflexivity |].
  destruct (job_is_empty job_data); [reflexivity |].
  rewrite bind_run.
  destruct (add_required_fields_run w job_data s) as (j & s1 & Hadd & _).
  pose proof (add_required_fields_store w job_data s) as [Hs1 _].
  rewrite Hadd in Hs1 |- *. cbn [snd] in Hs1.
  rewrite bind_run.
  pose proof (process_image_job_store w (processor h) j s1) as Hs2.
  destruct (process_image_job w (processor h) j s1) as [[e | result] s2];
    simpl in *; congruence.
Qed.

(** ** GET /stats *)

Lemma with_status_cons s doc docs :
  with_status s (doc :: docs)
  = (match sd_status doc with
     | Some (StatusStr s') => if String.eqb s' s then 1 else 0
     | _ => 0
     end) + with_status s docs.
Proof.
  unfold with_status. simpl.
  destruct (sd_status doc) as [[s' | | msg] |]; try lia.
  destruct (String.eqb s' s); simpl; lia.
Qed.

Lemma count_doc_cases doc stats :
  count_doc doc stats
  = match sd_status doc with
    | Some (StatusStr s) => inr (stats_incr s (stats_incr "total_jobs" stats))
    | Some (StatusUnhashable type_error) => inl (Exception type_error)
    | _ => inr (stats_incr "total_jobs" stats)
    end.
Proof.
  unfold count_doc. destruct (sd_status doc) as [[s | | msg] |]; reflexivity.
Qed.

Lemma stats_incr_fields key stats :
  let hit (k : string) := if String.eqb key k then 1 else 0 in
  stats_incr key stats
  = {| st_total_jobs := st_total_jobs stats + hit "total_jobs";
       st_completed := st_completed stats + hit "completed";
       st_failed := st_failed stats + hit "failed";
       st_processing := st_processing stats + hit "processing";
       st_queued := st_queued stats + hit "queued" |}.
Proof.
  cbn zeta. unfold stats_incr. destruct stats as [t c f p q]. cbn [st_total_jobs
    st_completed st_failed st_processing st_queued].
  destruct (String.eqb key "total_jobs") eqn:E1;
    [apply String.eqb_eq in E1 as ->; cbn; f_equal; lia |].
  destruct (String.eqb key "completed") eqn:E2;
    [apply String.eqb_eq in E2 as ->; cbn; f_equal; lia |].
  destruct (String.eqb key "failed") eqn:E3;
    [apply String.eqb_eq in E3 as ->; cbn; f_equal; lia |].
  destruct (String.eqb key "processing") eqn:E4;
    [apply String.eqb_eq in E4 as ->; cbn; f_equal; lia |].
  destruct (String.eqb key "queued") eqn:E5;
    [apply String.eqb_eq in E5 as ->; cbn; f_equal; lia |].
  f_equal; lia.
Qed.

Lemma count_docs_counts docs stats :
  forallb hashable docs = true →
  count_docs docs stats
  = inr {| st_total_jobs := st_total_jobs stats + Z.of_nat (length docs)
                            + with_status "total_jobs" docs;
           st_completed := st_completed stats + with_status "completed" docs;
           st_failed := st_failed stats + with_status "failed" docs;
           st_processing := st_processing stats + with_status "processing" docs;
           st_queued := st_queued stats + with_status "queued" docs |}.
Proof.
  revert stats. induction docs as [| doc docs IH]; intros stats Hok.
  - simpl. unfold with_status. simpl. destruct stats; simpl. f_equal. f_equal; lia.
  - cbn [forallb] in Hok. apply andb_true_iff in Hok as [Hdoc Hok].
    cbn [count_docs]. rewrite count_doc_cases, !with_status_cons.
    unfold hashable in Hdoc.
    destruct (sd_status doc) as [[s | | msg] |]; try discriminate;
      cbn [mbind res_bind]; rewrite (IH _ Hok); clear IH;
      rewrite ?(stats_incr_fields s), (stats_incr_fields "total_jobs");
      cbn [st_total_jobs st_completed st_failed st_processing st_queued String.eqb
           Ascii.eqb Bool.eqb andb length];
      rewrite Nat2Z.inj_succ; f_equal; f_equal; lia.
Qed.

(** X24. When no streamed document has an array or a map as its status, GET
    /stats answers 200 with completed, failed, processing and queued equal
    to the number of documents with that status string, and total_jobs equal
    to the number of documents plus the number of documents whose status is
    the string 'total_jobs', which are counted twice. *)
Theorem stats_count_documents_by_status (docs : list StatsDoc) :
  forallb hashable docs = true →
  get_processing_stats (inr docs)
  = (StatsBody
       {| st_total_jobs := Z.of_nat (length docs) + with_status "total_jobs" docs;
          st_completed := with_status "completed" docs;
          st_failed := with_status "failed" docs;
          st_processing := with_status "processing" docs;
          st_queued := with_status "queued" docs |}, 200).
Proof.
  intros Hok. unfold get_processing_stats. cbn [mbind res_bind].
  rewrite (count_docs_counts docs stats_init Hok). reflexivity.
Qed.

Lemma stats_count_documents_by_status_witness :
  get_processing_stats (inr Cases.docs)
  = (StatsBody
       {| st_total_jobs := Z.of_nat (length Cases.docs)
                           + with_status "total_jobs" Cases.docs;
          st_completed := with_status "completed" Cases.docs;
          st_failed := with_status "failed" Cases.docs;
          st_processing := with_status "processing" Cases.docs;
          st_queued := with_status "queued" Cases.docs |}, 200).
Proof.
  apply stats_count_documents_by_status. reflexivity.
Defined.

Lemma count_docs_hashable docs stats stats' :
  count_docs docs stats = inr stats' → forallb hashable docs = true.
Proof.
  revert stats. induction docs as [| doc docs IH]; intros stats; [reflexivity |].
  cbn [count_docs forallb]. rewrite count_doc_cases. unfold hashable at 1.
  destruct (sd_status doc) as [[s | | msg] |]; cbn [mbind res_bind];
    try discriminate; intros H; rewrite (IH _ H); reflexivity.
Qed.

Lemma count_docs_unhashable docs stats :
  forallb hashable docs = false → ∃ msg, count_docs docs stats = inl (Exception msg).
Proof.
  revert stats. induction docs as [| doc docs IH]; intros stats; [discriminate |].
  cbn [count_docs forallb]. rewrite count_doc_cases. unfold hashable at 1.
  destruct (sd_status doc) as [[s | | msg] |]; cbn [mbind res_bind andb];
    eauto.
Qed.

Lemma with_status_bounds docs :
  0 ≤ with_status "total_jobs" docs ∧ 0 ≤ with_status "completed" docs
  ∧ 0 ≤ with_status "failed" docs ∧ 0 ≤ with_status "processing" docs
  ∧ 0 ≤ with_status "queued" docs
  ∧ with_status "total_jobs" docs + with_status "completed" docs
    + with_status "failed" docs + with_status "processing" docs
    + with_status "queued" docs ≤ Z.of_nat (length docs).
Proof.
  induction docs as [| doc docs IH].
  - unfold with_status. simpl. lia.
  - rewrite !with_status_cons. cbn [length]. rewrite Nat2Z.inj_succ.
    destruct (sd_status doc) as [[s | | msg] |]; try lia.
    destruct (String.eqb s "total_jobs") eqn:E1;
      [apply String.eqb_eq in E1 as ->; cbn; lia |].
    destruct (String.eqb s "completed") eqn:E2;
      [apply String.eqb_eq in E2 as ->; cbn; lia |].
    destruct (String.eqb s "failed") eqn:E3;
      [apply String.eqb_eq in E3 as ->; cbn; lia |].
    destruct (String.eqb s "processing") eqn:E4;
      [apply String.eqb_eq in E4 as ->; cbn; lia |].
    destruct (String.eqb s "queued"); lia.
Qed.

(** X25. Whenever GET /stats answers with a stats body, the four per-status
    counts are non-negative, their sum is at most the number of streamed
    documents, and total_jobs lies between that number and twice that
    number. *)
Theorem stats_are_bounded_by_the_stream (stream : res (list StatsDoc))
    (stats : Stats) (code : Z) :
  get_processing_stats stream = (StatsBody stats, code) →
  ∃ docs,
    stream = inr docs
    ∧ 0 ≤ st_completed stats ∧ 0 ≤ st_failed stats
    ∧ 0 ≤ st_processing stats ∧ 0 ≤ st_queued stats
    ∧ st_completed stats + st_failed stats + st_processing stats + st_queued stats
      ≤ Z.of_nat (length docs)
    ∧ Z.of_nat (length docs) ≤ st_total_jobs stats ≤ 2 * Z.of_nat (length docs).
Proof.
  unfold get_processing_stats.
  destruct stream as [e | docs]; [discriminate |]. cbn [mbind res_bind].
  destruct (count_docs docs stats_init) as [e | stats'] eqn:Hcount; [discriminate |].
  intros [= <- _]. exists docs. split; [reflexivity |].
  rewrite (count_docs_counts docs stats_init (count_docs_hashable _ _ _ Hcount))
    in Hcount.
  injection Hcount as <-.
  cbn [st_total_jobs st_completed st_failed st_processing st_queued stats_init].
  pose proof (with_status_bounds docs). lia.
Qed.

Lemma stats_are_bounded_by_the_stream_witness :
  ∃ docs,
    (inr Cases.docs : res (list StatsDoc)) = inr docs
    ∧ 0 ≤ 2 ∧ 0 ≤ 1 ∧ 0 ≤ 0 ∧ 0 ≤ 0
    ∧ 2 + 1 + 0 + 0 ≤ Z.of_nat (length docs)
    ∧ Z.of_nat (length docs) ≤ 5 ≤ 2 * Z.of_nat (length docs).
Proof.
  apply (stats_are_bounded_by_the_stream (inr Cases.docs)
           {| st_total_jobs := 5; st_completed := 2; st_failed := 1;
              st_processing := 0; st_queued := 0 |} 200).
  reflexivity.
Defined.

(** X26. GET /stats answers 500 with an error body when the query raises or
    when a streamed document has an array or a map as its status, and 200
    with a stats body otherwise. *)
Theorem stats_reply_code (stream : res (list StatsDoc)) :
  match stream with
  | inl e => get_processing_stats stream = (StatsError (str_exn e), 500)
  | inr docs =>
      if forallb hashable docs
      then ∃ stats, get_processing_stats stream = (StatsBody stats, 200)
      else ∃ error, get_processing_stats stream = (StatsError error, 500)
  end.
Proof.
  destruct stream as [e | docs]; [reflexivity |].
  unfold get_processing_stats. cbn [mbind res_bind].
  destruct (forallb hashable docs) eqn:Hok.
  - rewrite (count_docs_counts docs stats_init Hok). eauto.
  - destruct (count_docs_unhashable docs stats_init Hok) as (msg & ->). eauto.
Qed.
